(** * viberecipe: the extraction / normalisation / adaptation core

    A shallow embedding of the TypeScript sources

      - [src/lib/utils.ts]            (module [Utils])
      - [src/lib/tandoor-client.ts]   (module [Client])
      - [src/app/api/tandoor/route.ts](module [TandoorRoute])
      - [src/app/api/extract/route.ts](module [ExtractRoute])
      - [src/lib/api-helpers.ts]      (module [ApiHelpers])
      - [src/app/api/tandoor/route.ts], its handler (module [TandoorPost])
      - [src/app/api/tandoor/import/route.ts]       (module [ImportRoute])

    together with the properties the specification states about them
    and further properties of the code: its answers in every case, the
    requests it sends, and what it leaves unchanged.
    The regular expressions of the sources are kept as they are
    written and run by the matcher of module [RegExp]. *)

From Stdlib Require Import List ZArith NArith Bool String Ascii Lia.
From Stdlib Require Import DecimalString SpecFloat.
Import ListNotations.

Set Implicit Arguments.
Set Warnings "-register-all".

(* ================================================================== *)
(** * JavaScript strings

    A JavaScript string is a finite sequence of UTF-16 code units.  We
    keep exactly that: a code unit is a number, a string is a list of
    them.  String literals of the source, all of them ASCII, are
    written [lit "..."]. *)

Module JS.

Definition char := N.
Definition jsstring := list char.

Definition lit (s : string) : jsstring :=
  map N_of_ascii (list_ascii_of_string s).

Definition char_eqb (a b : char) : bool := N.eqb a b.

Fixpoint str_eqb (s t : jsstring) : bool :=
  match s, t with
  | [], [] => true
  | a :: s', b :: t' => char_eqb a b && str_eqb s' t'
  | _, _ => false
  end.

(** [WhiteSpace] and [LineTerminator] of ECMA-262: the characters that
    [String.prototype.trim] removes and that [\s] matches. *)
Definition is_whitespace (c : char) : bool :=
  ((9 <=? c) && (c <=? 13)            (* TAB LF VT FF CR *)
   || (c =? 32) || (c =? 160)          (* SP, NBSP *)
   || (c =? 5760)                      (* U+1680 *)
   || ((8192 <=? c) && (c <=? 8202))   (* U+2000 .. U+200A *)
   || (c =? 8232) || (c =? 8233)       (* LS, PS *)
   || (c =? 8239) || (c =? 8287)       (* U+202F, U+205F *)
   || (c =? 12288) || (c =? 65279))%N. (* U+3000, BOM *)

(** [\d] without the [u] flag: the ten ASCII digits. *)
Definition is_digit (c : char) : bool := ((48 <=? c) && (c <=? 57))%N.

Fixpoint trimStart (s : jsstring) : jsstring :=
  match s with
  | c :: r => if is_whitespace c then trimStart r else s
  | [] => []
  end.

Definition trimEnd (s : jsstring) : jsstring := rev (trimStart (rev s)).

(** [s.trim()] *)
Definition trim (s : jsstring) : jsstring := trimEnd (trimStart s).

(** [s.startsWith(p)] *)
Fixpoint startsWith (p s : jsstring) : bool :=
  match p, s with
  | [], _ => true
  | a :: p', b :: s' => char_eqb a b && startsWith p' s'
  | _ :: _, [] => false
  end.

(** [s.includes(p)] *)
Fixpoint includes (p s : jsstring) : bool :=
  startsWith p s ||
  match s with
  | [] => false
  | _ :: r => includes p r
  end.

(** [s.split(sep)] for a one-character separator: never the empty
    array, [''.split('\n')] is [['']]. *)
Fixpoint split (sep : char) (s : jsstring) : list jsstring :=
  match s with
  | [] => [[]]
  | c :: r =>
      if char_eqb c sep then [] :: split sep r
      else match split sep r with
           | l :: ls => (c :: l) :: ls
           | [] => [[c]]
           end
  end.

(** JavaScript truthiness of a string: every string but [''] is truthy. *)
Definition truthy_string (s : jsstring) : bool :=
  match s with [] => false | _ => true end.

(** ** Numbers

    A JavaScript number is an IEEE 754 double.  The Standard Library
    specifies them as [spec_float], with the operations at precision
    53 and maximal exponent 1024, rounding to nearest, ties to even. *)
Definition number := spec_float.

Definition NaN : number := S754_nan.

(** The Number value for the integer [n]: [n] itself when a double can
    hold it, else the nearest double, or an infinity. *)
Definition Num (n : Z) : number := binary_normalize 53 1024 n 0 false.

(** [x * y] and [x + y] *)
Definition number_mul (x y : number) : number := SFmul 53 1024 x y.
Definition number_add (x y : number) : number := SFadd 53 1024 x y.

(** [!!n]: the two zeros and [NaN] are falsy. *)
Definition truthy_number (n : number) : bool :=
  match n with
  | S754_zero _ | S754_nan => false
  | _ => true
  end.

Definition digit_value (c : char) : Z := Z.of_N (c - 48).

(** The integer that a string of decimal digits denotes. *)
Definition mathInt (ds : jsstring) : Z :=
  fold_left (fun acc c => 10 * acc + digit_value c)%Z ds 0%Z.

(** The longest run of digits at the head of [s], and what follows it:
    what the greedy [\d+] takes. *)
Fixpoint span_digits (s : jsstring) : jsstring * jsstring :=
  match s with
  | c :: r =>
      if is_digit c then let (ds, rest) := span_digits r in (c :: ds, rest)
      else ([], s)
  | [] => ([], [])
  end.

(** [parseInt(s, 10)]: leading white space is skipped, a sign is
    read, and the longest run of digits that follows is the integer;
    without a digit there the result is [NaN].  The result is the
    Number value for that integer: the integer itself up to 2^53, and
    the nearest double beyond (ECMAScript leaves the digits after the
    twentieth to the implementation; they are read exactly here, as V8
    reads them). *)
Definition parseInt10 (s : jsstring) : number :=
  let s := trimStart s in
  let (negative, s) :=
    match s with
    | c :: r =>
        if (c =? 45)%N then (true, r)
        else if (c =? 43)%N then (false, r)
        else (false, s)
    | [] => (false, s)
    end in
  match fst (span_digits s) with
  | [] => NaN
  | ds => if negative then SFopp (Num (mathInt ds)) else Num (mathInt ds)
  end.

(** The identifier of a recipe and the numbers inside the records of
    the extract route are kept as integers. *)
Definition integer := Z.

Definition truthy_integer (n : integer) : bool := negb (n =? 0)%Z.

(** [xs.map((x, index) => f index x)] *)
Fixpoint mapi_from {A B} (f : nat -> A -> B) (index : nat) (xs : list A)
  : list B :=
  match xs with
  | [] => []
  | x :: xs' => f index x :: mapi_from f (S index) xs'
  end.

Definition mapi {A B} (f : nat -> A -> B) (xs : list A) : list B :=
  mapi_from f O xs.

(** [`${n}`] for an integer. *)
Definition integer_to_string (n : integer) : jsstring :=
  lit (NilZero.string_of_int (Z.to_int n)).

End JS.

Import JS.

(* ================================================================== *)
(** * Regular expressions

    The regular expressions of the source are kept as syntax and run
    by a backtracking matcher in continuation-passing style, as
    ECMA-262 specifies them.  [run n r s caps k] matches [r] at the
    head of [s] and hands the rest of the input, with the captures
    made so far, to the continuation [k]; the first way of matching
    [r] that lets [k] succeed is the one taken.  A greedy quantifier
    tries the longest run first, a lazy one the shortest.  [n] is the
    length of the whole input, by which [^] recognises its start.

    The syntax covers what the source uses: quantifiers stand on
    character classes, and no optional group can match the empty
    string. *)

Module RegExp.

Inductive regex :=
| Eps                                        (* the empty pattern *)
| Chr (p : char -> bool)                     (* a character class *)
| Seq (r1 r2 : regex)                        (* r1 r2 *)
| Alt (r1 r2 : regex)                        (* r1|r2 *)
| Opt (r : regex)                            (* (?:r)? *)
| Rep (lazy plus : bool) (p : char -> bool)  (* p*  p+  p*?  p+? *)
| Group (i : nat) (r : regex)                (* (r), the i-th group *)
| Bos                                        (* ^ *)
| Eos.                                       (* $ *)

(** The captures made so far, the latest first. *)
Definition Captures := list (nat * jsstring).

Definition Cont := jsstring -> Captures -> option (jsstring * Captures).

Definition orelse {A} (a b : option A) : option A :=
  match a with
  | Some x => Some x
  | None => b
  end.

(** [p*] and [p*?] *)
Fixpoint rep (lazy : bool) (p : char -> bool) (s : jsstring)
  (caps : Captures) (k : Cont) : option (jsstring * Captures) :=
  match s with
  | c :: s' =>
      if p c then
        if lazy then orelse (k s caps) (rep lazy p s' caps k)
        else orelse (rep lazy p s' caps k) (k s caps)
      else k s caps
  | [] => k s caps
  end.

Fixpoint run (n : nat) (r : regex) (s : jsstring) (caps : Captures)
  (k : Cont) : option (jsstring * Captures) :=
  match r with
  | Eps => k s caps
  | Chr p =>
      match s with
      | c :: s' => if p c then k s' caps else None
      | [] => None
      end
  | Seq r1 r2 => run n r1 s caps (fun s' caps' => run n r2 s' caps' k)
  | Alt r1 r2 => orelse (run n r1 s caps k) (run n r2 s caps k)
  | Opt r1 => orelse (run n r1 s caps k) (k s caps)
  | Rep lazy plus p =>
      if plus then
        match s with
        | c :: s' => if p c then rep lazy p s' caps k else None
        | [] => None
        end
      else rep lazy p s caps k
  | Group i r1 =>
      run n r1 s caps
        (fun s' caps' =>
           k s' ((i, firstn (List.length s - List.length s') s) :: caps'))
  | Bos => if Nat.eqb (List.length s) n then k s caps else None
  | Eos =>
      match s with
      | [] => k s caps
      | _ :: _ => None
      end
  end.

(** A match at the head of [s]: the rest of the input and the
    captures. *)
Definition match_at (n : nat) (r : regex) (s : jsstring)
  : option (jsstring * Captures) :=
  run n r s [] (fun rest caps => Some (rest, caps)).

(** A successful match: the matched text, the input before and after
    it, and the captures. *)
Record Match := {
  leftContext : jsstring;
  matched : jsstring;
  rightContext : jsstring;
  captures : Captures
}.

(** The leftmost match: the start positions are tried in order. *)
Fixpoint search (n : nat) (r : regex) (left_rev s : jsstring)
  : option Match :=
  match match_at n r s with
  | Some (rest, caps) =>
      Some {| leftContext := rev left_rev;
              matched := firstn (List.length s - List.length rest) s;
              rightContext := rest;
              captures := caps |}
  | None =>
      match s with
      | c :: s' => search n r (c :: left_rev) s'
      | [] => None
      end
  end.

(** [r.exec(s)] and [s.match(r)] for [r] without the [g] flag; [None]
    is [null]. *)
Definition exec (r : regex) (s : jsstring) : option Match :=
  search (List.length s) r [] s.

Fixpoint lookup_capture (i : nat) (caps : Captures) : option jsstring :=
  match caps with
  | [] => None
  | (j, v) :: caps' => if Nat.eqb i j then Some v else lookup_capture i caps'
  end.

(** [m[i]] for [i > 0]; [None] is [undefined], the value of a group
    that took no part in the match. *)
Definition group (i : nat) (m : Match) : option jsstring :=
  lookup_capture i (captures m).

(** [s.replace(r, replacement)] for [r] without the [g] flag and a
    replacement text without [$]. *)
Definition replace (r : regex) (replacement s : jsstring) : jsstring :=
  match exec r s with
  | Some m => leftContext m ++ replacement ++ rightContext m
  | None => s
  end.

(** [s.replace(r, replacement)] for [r] with the [g] flag: the matches
    are found from left to right, each search starting where the
    previous match ended (one character further after an empty
    match).  [skip] counts the characters of the current match still
    to be passed over. *)
Fixpoint replace_all_from (n : nat) (r : regex) (replacement : jsstring)
  (skip : nat) (s : jsstring) : jsstring :=
  match s with
  | [] =>
      match skip, match_at n r [] with
      | O, Some _ => replacement
      | _, _ => []
      end
  | c :: s' =>
      match skip with
      | S k => replace_all_from n r replacement k s'
      | O =>
          match match_at n r s with
          | Some (rest, _) =>
              match (List.length s - List.length rest)%nat with
              | O => replacement ++ c :: replace_all_from n r replacement O s'
              | S len => replacement ++ replace_all_from n r replacement len s'
              end
          | None => c :: replace_all_from n r replacement O s'
          end
      end
  end.

Definition replace_all (r : regex) (replacement s : jsstring) : jsstring :=
  replace_all_from (List.length s) r replacement O s.

(** The characters of [p] one after the other, compared with [eq]. *)
Fixpoint literal (eq : char -> char -> bool) (p : jsstring) : regex :=
  match p with
  | [] => Eps
  | [c] => Chr (eq c)
  | c :: p' => Seq (Chr (eq c)) (literal eq p')
  end.

(** The classes [x], [[^x]] and [[\s\S]]. *)
Definition is_char (x c : char) : bool := char_eqb c x.
Definition not_char (x c : char) : bool := negb (is_char x c).
Definition any (c : char) : bool := true.

(** [\d+] and [\s+] *)
Definition digits : regex := Rep false true is_digit.
Definition whitespace : regex := Rep false true is_whitespace.

End RegExp.

Import RegExp.

(* ================================================================== *)
(** * Effects

    The asynchronous functions of the source read and write some state
    (the fields of a client object, the log of the requests sent) and
    may throw.  A computation takes the state and gives it back with
    either a value or an exception, of which we keep the message.
    [await] is sequencing. *)

Module Eff.

Inductive Outcome (A : Type) :=
| Returned (a : A)
| Thrown (message : jsstring).

Arguments Returned {A}.
Arguments Thrown {A}.

Definition M (S A : Type) : Type := S -> Outcome A * S.

Definition ret {S A} (a : A) : M S A := fun st => (Returned a, st).

Definition bind {S A B} (m : M S A) (k : A -> M S B) : M S B :=
  fun st =>
    match m st with
    | (Returned a, st') => k a st'
    | (Thrown e, st') => (Thrown e, st')
    end.

Definition throw {S A} (message : jsstring) : M S A :=
  fun st => (Thrown message, st).

(** A call of a function of the platform that may throw. *)
Definition lift {S A} (o : Outcome A) : M S A := fun st => (o, st).

(** [try { m } catch (error) { handler error }] *)
Definition try_catch {S A} (m : M S A) (handler : jsstring -> M S A)
  : M S A :=
  fun st =>
    match m st with
    | (Returned a, st') => (Returned a, st')
    | (Thrown e, st') => handler e st'
    end.

Notation "x <- m ;; k" := (bind m (fun x => k))
  (at level 61, m at next level, right associativity).
Notation "m ;;; k" := (bind m (fun _ => k))
  (at level 61, right associativity).

End Eff.

Import Eff.

(* ================================================================== *)
(** * [src/lib/utils.ts] *)

Module Utils.

Local Open Scope Z_scope.

(** ** parseDuration *)

(** [/PT(?:(\d+)H)?(?:(\d+)M)?/] *)
Definition durationRegex : regex :=
  Seq (literal char_eqb (lit "PT"))
    (Seq (Opt (Seq (Group 1 digits) (Chr (is_char 72%N))))     (* H *)
         (Opt (Seq (Group 2 digits) (Chr (is_char 77%N))))).   (* M *)

(** [capture || '0'] *)
Definition or_zero (capture : option jsstring) : jsstring :=
  match capture with
  | Some ds => if truthy_string ds then ds else lit "0"
  | None => lit "0"
  end.

(** [parseDuration(isoDuration: string | undefined): number] *)
Definition parseDuration (isoDuration : option jsstring) : number :=
  match isoDuration with
  | None => Num 0
  | Some s =>
      if negb (truthy_string s) then Num 0
      else
        match exec durationRegex s with
        | None => Num 0
        | Some m =>
            let hours := parseInt10 (or_zero (group 1 m)) in
            let minutes := parseInt10 (or_zero (group 2 m)) in
            number_add (number_mul hours (Num 60)) minutes
        end
  end.

(** ** parseServings *)

(** [string | number | undefined] *)
Inductive YieldValue :=
| YUndefined
| YNumber (n : number)
| YString (s : jsstring).

Definition truthy_yield (y : YieldValue) : bool :=
  match y with
  | YUndefined => false
  | YNumber n => truthy_number n
  | YString s => truthy_string s
  end.

Record Servings := { amount : number; text : jsstring }.

(** [/(\d+)/] *)
Definition yieldRegex : regex := Group 1 digits.

(** [parseServings(yieldValue)] *)
Definition parseServings (yieldValue : YieldValue) : Servings :=
  if negb (truthy_yield yieldValue) then {| amount := Num 1; text := [] |}
  else
    match yieldValue with
    | YNumber n => {| amount := n; text := [] |}
    | YString s =>
        let amount :=
          match exec yieldRegex s with
          | Some m =>
              match group 1 m with
              | Some m1 => parseInt10 m1
              | None => Num 1   (* no such match: the group is not optional *)
              end
          | None => Num 1
          end in
        let text := trim s in
        {| amount := amount; text := text |}
    | YUndefined => {| amount := Num 1; text := [] |}
    end.

(** ** cleanAuthToken *)

(** Case-insensitive comparison as the [i] flag does it without the
    [u] flag: both sides are canonicalised with [toUpperCase], except
    that a character outside ASCII is never mapped into ASCII.  Against
    an ASCII letter of the pattern this is equality up to ASCII case. *)
Definition ascii_upper (c : char) : char :=
  if ((97 <=? c) && (c <=? 122))%N then (c - 32)%N else c.

Definition char_eqb_ci (p c : char) : bool :=
  char_eqb (ascii_upper p) (ascii_upper c).

(** [/^(Bearer|Token)\s+/i] *)
Definition schemePrefix : regex :=
  Seq Bos
    (Seq (Group 1 (Alt (literal char_eqb_ci (lit "Bearer"))
                       (literal char_eqb_ci (lit "Token"))))
         whitespace).

(** [cleanAuthToken(token)] *)
Definition cleanAuthToken (token : jsstring) : jsstring :=
  trim (replace schemePrefix [] token).

End Utils.

Import Utils.

(* ================================================================== *)
(** * [src/lib/tandoor-client.ts] *)

Module Client.

Local Open Scope Z_scope.

(** ** refineTandoorSteps *)

(** [T extends { instruction?: string; ingredients?: unknown[];
    show_ingredients_table?: boolean }]: the three fields the function
    reads, and [other] for whatever else the object carries (the spread
    [...singleStep] copies it). *)
Record Step (I R : Type) := {
  instruction : option jsstring;
  ingredients : option (list I);
  show_ingredients_table : option bool;
  other : R
}.

Arguments instruction {I R}.
Arguments ingredients {I R}.
Arguments show_ingredients_table {I R}.
Arguments other {I R}.

Definition newline : char := 10%N.

(** [instruction.split('\n').map(l => l.trim()).filter(l => l.length > 0)] *)
Definition instruction_lines (instruction : jsstring) : list jsstring :=
  filter truthy_string (map trim (split newline instruction)).

(** [lines.map((line, index) => ({...singleStep, ...}))], the element
    at position [index]. *)
Definition split_step {I R} (singleStep : Step I R) (index : nat)
  (line : jsstring) : Step I R :=
  {| instruction := Some line;
     ingredients :=
       match index with
       | O => ingredients singleStep
       | S _ => Some []
       end;
     show_ingredients_table :=
       match index with
       | O => Some (match show_ingredients_table singleStep with
                    | Some b => b
                    | None => true
                    end)
       | S _ => Some false
       end;
     other := other singleStep |}.

(** [refineTandoorSteps(steps)] *)
Definition refineTandoorSteps {I R} (steps : list (Step I R))
  : list (Step I R) :=
  match steps with
  | [singleStep] =>
      match instruction singleStep with
      | None => steps
      | Some text =>
          if negb (truthy_string text) || negb (includes [newline] text)
          then steps
          else
            let lines := instruction_lines text in
            if (List.length lines <=? 1)%nat then steps
            else mapi (split_step singleStep) lines
      end
  | _ => steps
  end.

(** ** The client *)

(** [AUTH_SCHEMES] of [src/lib/constants.ts] *)
Inductive AuthScheme := Token | Bearer.

Definition scheme_name (scheme : AuthScheme) : jsstring :=
  match scheme with
  | Token => lit "Token"
  | Bearer => lit "Bearer"
  end.

Record TandoorConfig := {
  config_baseUrl : jsstring;
  config_token : jsstring
}.

(** The private fields of [class TandoorClient]. *)
Record TandoorClient := {
  baseUrl : jsstring;
  token : jsstring;
  authScheme : AuthScheme
}.

(** [/\/$/] *)
Definition trailingSlash : regex := Seq (Chr (is_char 47%N)) Eos.

(** [new TandoorClient(config)]; the scheme starts as
    [AUTH_SCHEMES.TOKEN]. *)
Definition new_TandoorClient (config : TandoorConfig) : TandoorClient :=
  {| baseUrl := replace trailingSlash [] (config_baseUrl config);
     token := cleanAuthToken (config_token config);
     authScheme := Token |}.

(** A template literal [`${a} ${b}`]. *)
Definition with_space (a b : jsstring) : jsstring := a ++ lit " " ++ b.

(** [getAuthHeader()] *)
Definition getAuthHeader (this : TandoorClient) : jsstring :=
  with_space (scheme_name (authScheme this)) (token this).

(** *** Requests and responses *)

Inductive Body :=
| NoBody
| TextBody (text : jsstring)
| FormBody (field : jsstring) (blob : jsstring) (filename : jsstring).

Record RequestInit := {
  method : jsstring;
  headers : list (jsstring * jsstring);
  body : Body
}.

Record Request := { url : jsstring; init : RequestInit }.

Record Response := { status : Z; payload : jsstring }.

(** [response.ok] *)
Definition ok (r : Response) : bool :=
  (200 <=? status r) && (status r <=? 299).

(** [{ ...headers, [name]: value }] *)
Fixpoint set_header (name value : jsstring)
  (hs : list (jsstring * jsstring)) : list (jsstring * jsstring) :=
  match hs with
  | [] => [(name, value)]
  | (k, v) :: hs' =>
      if str_eqb k name then (k, value) :: hs'
      else (k, v) :: set_header name value hs'
  end.

Fixpoint get_header (name : jsstring)
  (hs : list (jsstring * jsstring)) : option jsstring :=
  match hs with
  | [] => None
  | (k, v) :: hs' => if str_eqb k name then Some v else get_header name hs'
  end.

Definition authorization (r : Request) : option jsstring :=
  get_header (lit "Authorization") (headers (init r)).

(** *** Effects

    A method of the client reads and writes the fields of [this] and
    talks to the network: the state is the client and the log of the
    requests sent so far.  The network answers a request knowing all
    earlier ones; [Thrown] is a [fetch] that rejects. *)

Definition Network := list Request -> Request -> Outcome Response.

Definition State : Type := TandoorClient * list Request.

Definition M := Eff.M State.

Definition this : M TandoorClient := fun st => (Returned (fst st), st).

(** [this.authScheme = scheme] *)
Definition set_authScheme (scheme : AuthScheme) : M unit :=
  fun st =>
    let c := fst st in
    (Returned tt,
     ({| baseUrl := baseUrl c; token := token c; authScheme := scheme |},
      snd st)).


Section Methods.

(** The world outside the client: the network, the WHATWG [URL]
    constructor [new URL(path, base).toString()], [JSON.stringify] on
    the payloads, [JSON.stringify({ url, data: '' })] and
    [response.json()] on the bodies. *)
Variable network : Network.
Variable URL_resolve : jsstring -> jsstring -> Outcome jsstring.
Variables Payload Data : Type.
Variable JSON_stringify : Payload -> jsstring.
Variable JSON_stringify_source : jsstring -> jsstring.
Variable JSON_parse : jsstring -> Outcome Data.

(** [await fetch(url, init)] *)
Definition fetch (url : jsstring) (init : RequestInit) : M Response :=
  fun st =>
    let request := {| url := url; init := init |} in
    let log := snd st in
    (network log request, (fst st, log ++ [request])).

(** [buildUrl(path)] *)
Definition buildUrl (path : jsstring) : M jsstring :=
  c <- this ;; lift (URL_resolve path (baseUrl c)).

(** [makeRequest(scheme)] inside [fetchWithAuthFallback] *)
Definition makeRequest (url : jsstring) (options : RequestInit)
  (scheme : AuthScheme) : M Response :=
  c <- this ;;
  fetch url
    {| method := method options;
       headers := set_header (lit "Authorization")
                    (with_space (scheme_name scheme) (token c))
                    (headers options);
       body := body options |}.

Definition unauthorized (r : Response) : bool :=
  (status r =? 401) || (status r =? 403).

(** [fetchWithAuthFallback(url, options)] *)
Definition fetchWithAuthFallback (url : jsstring) (options : RequestInit)
  : M (Response * AuthScheme) :=
  (* Try Token first *)
  response <- makeRequest url options Token ;;
  response <-
    (if unauthorized response then
       (* Fallback to Bearer *)
       set_authScheme Bearer ;;;
       makeRequest url options Bearer
     else
       set_authScheme Token ;;;
       ret response) ;;
  c <- this ;;
  ret (response, authScheme c).

Record Result := {
  data : option Data;
  error : option jsstring;
  result_status : Z
}.

(** [parseRecipeFromUrl(url)] *)
Definition parseRecipeFromUrl (url : jsstring) : M Result :=
  targetUrl <- buildUrl (lit "/api/recipe-from-source/") ;;
  c <- this ;;
  referer <- buildUrl (lit "/data/import/url") ;;
  r <- fetchWithAuthFallback targetUrl
         {| method := lit "POST";
            headers :=
              [ (lit "Content-Type", lit "application/json");
                (lit "Origin", baseUrl c);
                (lit "Referer", referer);
                (lit "Accept", lit "application/json, text/plain, */*") ];
            body := TextBody (JSON_stringify_source url) |} ;;
  let response := fst r in
  if ok response then
    data <- lift (JSON_parse (payload response)) ;;
    ret {| data := Some data; error := None;
           result_status := status response |}
  else
    ret {| data := None; error := Some (payload response);
           result_status := status response |}.

(** [createRecipe(recipe)] *)
Definition createRecipe (recipe : Payload) : M Result :=
  targetUrl <- buildUrl (lit "/api/recipe/") ;;
  r <- fetchWithAuthFallback targetUrl
         {| method := lit "POST";
            headers :=
              [ (lit "Content-Type", lit "application/json");
                (lit "Accept", lit "application/json") ];
            body := TextBody (JSON_stringify recipe) |} ;;
  let response := fst r in
  if ok response || (status response =? 201) then
    data <- lift (JSON_parse (payload response)) ;;
    ret {| data := Some data; error := None;
           result_status := status response |}
  else
    ret {| data := None; error := Some (payload response);
           result_status := status response |}.

Record UploadResult := { success : bool; upload_error : option jsstring }.

(** [uploadImageFromUrl(recipeId, imageUrl)] *)
Definition uploadImageFromUrl (recipeId : integer) (imageUrl : jsstring)
  : M UploadResult :=
  try_catch
    (imageResponse <- fetch imageUrl
        {| method := lit "GET"; headers := []; body := NoBody |} ;;
     if negb (ok imageResponse) then
       ret {| success := false;
              upload_error := Some (lit "Failed to fetch image") |}
     else
       let imageBlob := payload imageResponse in
       uploadUrl <- buildUrl (lit "/api/recipe/" ++ integer_to_string recipeId
                                ++ lit "/image/") ;;
       c <- this ;;
       uploadResponse <- fetch uploadUrl
          {| method := lit "PUT";
             headers := [ (lit "Authorization", getAuthHeader c) ];
             body := FormBody (lit "image") imageBlob
                       (lit "recipe_image.jpg") |} ;;
       if ok uploadResponse then
         ret {| success := true; upload_error := None |}
       else
         ret {| success := false;
                upload_error := Some (payload uploadResponse) |})
    (fun message => ret {| success := false; upload_error := Some message |}).

End Methods.

End Client.

(* ================================================================== *)
(** * [src/app/api/tandoor/route.ts]: the external-schema adapter *)

Module TandoorRoute.

Local Open Scope Z_scope.

(** [DEFAULT_RECIPE_DESCRIPTION] of [src/lib/constants.ts] *)
Definition DEFAULT_RECIPE_DESCRIPTION : jsstring := lit "Imported via VibeRecipe".

(** [{ instruction?: string; text?: string }] *)
Record SourceStep := {
  step_instruction : option jsstring;
  step_text : option jsstring
}.

(** [a || b] where [a] is an optional string. *)
Definition or_else (a : option jsstring) (b : jsstring) : jsstring :=
  match a with
  | Some s => if truthy_string s then s else b
  | None => b
  end.

Section Adapter.

(** Quantities and amounts are floating-point numbers, which the
    adapter only moves around: [amount_of_quantity q] stands for
    [parseFloat(String(q)) || 0] and [zero] for the literal [0].
    [JSON_stringify] is [JSON.stringify] on a step. *)
Variables Quantity Amount : Type.
Variable amount_of_quantity : option Quantity -> Amount.
Variable zero : Amount.
Variable JSON_stringify : SourceStep -> jsstring.

(** [{ food: string; unit?: string; quantity?: string | number }] *)
Record RecipeIngredient := {
  food : jsstring;
  unit : option jsstring;
  quantity : option Quantity
}.

(** [string | { food; unit?; quantity? }] *)
Inductive Ingredient :=
| IString (s : jsstring)
| IObject (o : RecipeIngredient).

Record Name := { name_of : jsstring }.

Record TandoorIngredient := {
  t_food : Name;
  t_unit : option Name;
  t_amount : Amount;
  t_note : jsstring
}.

Record TandoorStep := {
  instruction : jsstring;
  ingredients : list TandoorIngredient;
  show_ingredients_table : option bool
}.

Record RecipePayload := {
  name : jsstring;
  description : option jsstring;
  steps : option (list SourceStep);
  ingredients_of : option (list Ingredient);
  url : option jsstring;
  image : option jsstring;
  prepTime : option jsstring;
  cookTime : option jsstring;
  recipeYield : YieldValue
}.

Record TandoorRecipePayload := {
  p_name : jsstring;
  p_description : jsstring;
  p_steps : list TandoorStep;
  source_url : option jsstring;
  working_time : number;
  waiting_time : number;
  servings : number;
  servings_text : jsstring;
  internal : bool
}.

(** [mapIngredients(ingredients)]; an absent field is not an array. *)
Definition mapIngredients (ingredients : option (list Ingredient))
  : list TandoorIngredient :=
  match ingredients with
  | None => []
  | Some ingredients =>
      map (fun ing =>
             match ing with
             | IString ing =>
                 {| t_food := {| name_of := ing |};
                    t_unit := None;
                    t_amount := zero;
                    t_note := [] |}
             | IObject ing =>
                 {| t_food := {| name_of := food ing |};
                    t_unit :=
                      match unit ing with
                      | Some u =>
                          if truthy_string u then Some {| name_of := u |}
                          else None
                      | None => None
                      end;
                    t_amount := amount_of_quantity (quantity ing);
                    t_note := [] |}
             end) ingredients
  end.

(** [mapSteps(steps, ingredients)] *)
Definition mapSteps (steps : option (list SourceStep))
  (ingredients : list TandoorIngredient) : list TandoorStep :=
  match steps with
  | Some ((_ :: _) as steps) =>
      mapi (fun index step =>
              {| instruction :=
                   or_else (step_instruction step)
                     (or_else (step_text step) (JSON_stringify step));
                 (* Attach all ingredients to first step *)
                 ingredients :=
                   match index with
                   | O => ingredients
                   | S _ => []
                   end;
                 show_ingredients_table := None |}) steps
  | _ =>
      (* Create dummy step for ingredients if no steps provided *)
      if (0 <? List.length ingredients)%nat then
        [ {| instruction := lit "Prepare ingredients";
             ingredients := ingredients;
             show_ingredients_table := None |} ]
      else []
  end.

(** [buildTandoorPayload(data)] *)
Definition buildTandoorPayload (data : RecipePayload) : TandoorRecipePayload :=
  let mappedIngredients := mapIngredients (ingredients_of data) in
  let mappedSteps := mapSteps (steps data) mappedIngredients in
  let workingTime := parseDuration (prepTime data) in
  let waitingTime := parseDuration (cookTime data) in
  let s := parseServings (recipeYield data) in
  {| p_name := name data;
     p_description := or_else (description data) DEFAULT_RECIPE_DESCRIPTION;
     p_steps := mappedSteps;
     source_url := url data;
     working_time := workingTime;
     waiting_time := waitingTime;
     servings := amount s;
     servings_text := text s;
     internal := true |}.

End Adapter.

End TandoorRoute.

(* ================================================================== *)
(** * [src/app/api/extract/route.ts]: the extraction orchestrator *)

Module ExtractRoute.

Local Open Scope Z_scope.

(** ** The values [JSON.parse] produces *)

Inductive JSON :=
| JNull
| JBool (b : bool)
| JNumber (n : integer)
| JString (s : jsstring)
| JArray (items : list JSON)
| JObject (fields : list (jsstring * JSON)).

(** [!!v] *)
Definition truthy (v : JSON) : bool :=
  match v with
  | JNull => false
  | JBool b => b
  | JNumber n => truthy_integer n
  | JString s => truthy_string s
  | JArray _ | JObject _ => true
  end.

(** [!!v] when [v] may be [undefined]. *)
Definition truthy_opt (v : option JSON) : bool :=
  match v with
  | Some v => truthy v
  | None => false
  end.

(** [fields[key]]: the own property of a parsed object. *)
Fixpoint lookup (key : jsstring) (fields : list (jsstring * JSON))
  : option JSON :=
  match fields with
  | [] => None
  | (k, v) :: fields' => if str_eqb k key then Some v else lookup key fields'
  end.

(** [fields[key] = v] *)
Fixpoint assign (key : jsstring) (v : JSON) (fields : list (jsstring * JSON))
  : list (jsstring * JSON) :=
  match fields with
  | [] => [(key, v)]
  | (k, v') :: fields' =>
      if str_eqb k key then (k, v) :: fields'
      else (k, v') :: assign key v fields'
  end.

(** [parts.join(sep)] on strings. *)
Fixpoint join (sep : jsstring) (parts : list jsstring) : jsstring :=
  match parts with
  | [] => []
  | [p] => p
  | p :: parts' => p ++ sep ++ join sep parts'
  end.

(** [String(v)], as a template literal and [Array.prototype.join]
    apply it; [join] renders [null] as the empty string.  An integer
    is printed in decimal, as [Number::toString] prints one below
    10^21, and an object as one that has no property [toString] of its
    own. *)
Fixpoint ToString (v : JSON) : jsstring :=
  match v with
  | JNull => lit "null"
  | JBool true => lit "true"
  | JBool false => lit "false"
  | JNumber n => integer_to_string n
  | JString s => s
  | JArray items =>
      join (lit ",")
        ((fix elements (l : list JSON) : list jsstring :=
            match l with
            | [] => []
            | JNull :: l' => [] :: elements l'
            | x :: l' => ToString x :: elements l'
            end) items)
  | JObject _ => lit "[object Object]"
  end.

Definition join_element (v : JSON) : jsstring :=
  match v with
  | JNull => []
  | _ => ToString v
  end.

(** ** encodeURIComponent *)

Local Open Scope N_scope.

Definition is_unreserved (c : char) : bool :=
  ((65 <=? c) && (c <=? 90)) || ((97 <=? c) && (c <=? 122))
  || is_digit c
  || existsb (char_eqb c) (lit "-_.!~*'()").

Definition hex_digit (n : N) : char :=
  if n <? 10 then 48 + n else 55 + n.

Definition percent (byte : N) : jsstring :=
  [37; hex_digit (byte / 16); hex_digit (byte mod 16)].

Definition utf8 (cp : N) : list N :=
  if cp <? 128 then [cp]
  else if cp <? 2048 then [192 + cp / 64; 128 + cp mod 64]
  else if cp <? 65536 then
    [224 + cp / 4096; 128 + (cp / 64) mod 64; 128 + cp mod 64]
  else
    [240 + cp / 262144; 128 + (cp / 4096) mod 64;
     128 + (cp / 64) mod 64; 128 + cp mod 64].

Definition is_high_surrogate (c : char) : bool := (55296 <=? c) && (c <=? 56319).
Definition is_low_surrogate (c : char) : bool := (56320 <=? c) && (c <=? 57343).

Definition percent_encode (cp : N) : jsstring := flat_map percent (utf8 cp).

Definition URI_malformed : jsstring := lit "URI malformed".

(** [encodeURIComponent(s)]; throws a [URIError] on a lone surrogate. *)
Fixpoint encodeURIComponent (s : jsstring) : Outcome jsstring :=
  let cons_after (p : jsstring) (o : Outcome jsstring) :=
    match o with
    | Returned t => Returned (p ++ t)
    | Thrown e => Thrown e
    end in
  match s with
  | [] => Returned []
  | c :: r =>
      if is_unreserved c then cons_after [c] (encodeURIComponent r)
      else if is_low_surrogate c then Thrown URI_malformed
      else if is_high_surrogate c then
        match r with
        | d :: r' =>
            if is_low_surrogate d then
              cons_after
                (percent_encode ((c - 55296) * 1024 + (d - 56320) + 65536))
                (encodeURIComponent r')
            else Thrown URI_malformed
        | [] => Thrown URI_malformed
        end
      else cons_after (percent_encode c) (encodeURIComponent r)
  end.

Local Close Scope N_scope.

(** ** cleanJsonResponse *)

Definition json_fence : jsstring := lit "```json".
Definition fence : jsstring := lit "```".
Definition open_brace : char := 123%N.
Definition close_brace : char := 125%N.

(** [/^[\s\S]*?\{/] *)
Definition leadingText : regex :=
  Seq Bos (Seq (Rep true false any) (Chr (is_char open_brace))).

(** [/\}[^}]*$/] *)
Definition trailingText : regex :=
  Seq (Chr (is_char close_brace))
    (Seq (Rep false false (not_char close_brace)) Eos).

(** [cleanJsonResponse(text)] *)
Definition cleanJsonResponse (text : jsstring) : jsstring :=
  trim
    (replace trailingText (lit "}")          (* Find last } *)
       (replace leadingText (lit "{")        (* Find first { *)
          (replace_all (literal char_eqb fence) []
             (replace_all (literal char_eqb json_fence) [] text)))).


(** ** The JSON grammar

    [JSON.parse] throws a [SyntaxError] exactly on the texts that are
    not a JSON value (ECMA-404) between optional white space.
    [json_syntax_ok] recognises those texts; it builds no value. *)

Local Open Scope N_scope.

Definition is_json_whitespace (c : char) : bool :=
  (c =? 32) || (c =? 9) || (c =? 10) || (c =? 13).

Fixpoint skip_ws (s : jsstring) : jsstring :=
  match s with
  | c :: r => if is_json_whitespace c then skip_ws r else s
  | [] => []
  end.

Definition is_hex (c : char) : bool :=
  is_digit c || ((65 <=? c) && (c <=? 70)) || ((97 <=? c) && (c <=? 102)).

(** After the opening quote of a string: the input after its closing
    quote. *)
Fixpoint json_string_rest (s : jsstring) : option jsstring :=
  match s with
  | [] => None
  | c :: r =>
      if c =? 34 then Some r
      else if c =? 92 then
        match r with
        | e :: r' =>
            if (e =? 34) || existsb (char_eqb e) (lit "\/bfnrt")
            then json_string_rest r'
            else if e =? 117 then
              match r' with
              | h1 :: h2 :: h3 :: h4 :: r'' =>
                  if is_hex h1 && is_hex h2 && is_hex h3 && is_hex h4
                  then json_string_rest r''
                  else None
              | _ => None
              end
            else None
        | [] => None
        end
      else if c <? 32 then None
      else json_string_rest r
  end.

Definition json_exponent (s : jsstring) : option jsstring :=
  match s with
  | c :: r =>
      if (c =? 101) || (c =? 69) then
        let r' := match r with
                  | sign :: x => if (sign =? 43) || (sign =? 45) then x else r
                  | [] => r
                  end in
        match span_digits r' with
        | ([], _) => None
        | (_, rest) => Some rest
        end
      else Some s
  | [] => Some s
  end.

Definition json_fraction (s : jsstring) : option jsstring :=
  match s with
  | c :: r =>
      if c =? 46 then
        match span_digits r with
        | ([], _) => None
        | (_, rest) => json_exponent rest
        end
      else json_exponent s
  | [] => Some s
  end.

Definition json_number (s : jsstring) : option jsstring :=
  let s1 := match s with
            | c :: r => if c =? 45 then r else s
            | [] => s
            end in
  match s1 with
  | c :: r =>
      if c =? 48 then json_fraction r
      else if is_digit c then json_fraction (snd (span_digits s1))
      else None
  | [] => None
  end.

Local Close Scope N_scope.

Inductive Expect := Value | Members | Elements.

(** The input after one value, after the members of an object up to
    its closing brace, or after the elements of an array up to its
    closing bracket. *)
Fixpoint json_rest (fuel : nat) (e : Expect) (s : jsstring)
  : option jsstring :=
  match fuel with
  | O => None
  | S fuel =>
      let after_value (close : char) (next : Expect) (r : option jsstring) :=
        match r with
        | Some r3 =>
            match skip_ws r3 with
            | c :: r4 =>
                if char_eqb c 44%N then json_rest fuel next (skip_ws r4)
                else if char_eqb c close then Some r4
                else None
            | [] => None
            end
        | None => None
        end in
      match e with
      | Value =>
          match s with
          | c :: r =>
              if char_eqb c open_brace then
                match skip_ws r with
                | c' :: r' =>
                    if char_eqb c' close_brace then Some r'
                    else json_rest fuel Members (c' :: r')
                | [] => None
                end
              else if char_eqb c 91%N then
                match skip_ws r with
                | c' :: r' =>
                    if char_eqb c' 93%N then Some r'
                    else json_rest fuel Elements (c' :: r')
                | [] => None
                end
              else if char_eqb c 34%N then json_string_rest r
              else if startsWith (lit "true") s then Some (skipn 4 s)
              else if startsWith (lit "false") s then Some (skipn 5 s)
              else if startsWith (lit "null") s then Some (skipn 4 s)
              else json_number s
          | [] => None
          end
      | Members =>
          match s with
          | c :: r =>
              if char_eqb c 34%N then
                match json_string_rest r with
                | Some r1 =>
                    match skip_ws r1 with
                    | c' :: r2 =>
                        if char_eqb c' 58%N then
                          after_value close_brace Members
                            (json_rest fuel Value (skip_ws r2))
                        else None
                    | [] => None
                    end
                | None => None
                end
              else None
          | [] => None
          end
      | Elements =>
          after_value 93%N Elements (json_rest fuel Value s)
      end
  end.

Definition json_syntax_ok (txt : jsstring) : bool :=
  match json_rest (2 * List.length txt + 2) Value (skip_ws txt) with
  | Some r => match skip_ws r with [] => true | _ => false end
  | None => false
  end.

(** ** The route handler *)

(** [POLLINATIONS_BASE_URL] of [src/lib/constants.ts] *)
Definition POLLINATIONS_BASE_URL : jsstring := lit "https://pollinations.ai/p".

Record HttpResponse := {
  status : Z;
  body_text : Outcome jsstring      (* [await response.text()] *)
}.

(** [response.ok] *)
Definition ok (r : HttpResponse) : bool :=
  (200 <=? status r) && (status r <=? 299).

Inductive PromptPart :=
| TextPart (text : jsstring)
| InlineData (data mimeType : jsstring).

(** What the handler does to the outside world, in order. *)
Inductive Effect :=
| GET (url : jsstring)
| GENERATE (parts : list PromptPart)
| HEAD (url : jsstring).

(** The outside world: the page server ([fetch] with a [User-Agent]),
    the image server ([fetch] with [method: 'HEAD'] and a two-second
    abort signal), the Gemini model, cheerio ([$('body').text()] after
    the [script], [style], [nav] and [footer] elements are removed) and
    [JSON.parse].  A rejected promise or a thrown exception is
    [Thrown]; a timeout is a rejection. *)
Record World := {
  http_get : jsstring -> Outcome HttpResponse;
  http_head : jsstring -> Outcome HttpResponse;
  generateContent : list PromptPart -> Outcome jsstring;
  cheerio_body_text : jsstring -> jsstring;
  JSON_parse : jsstring -> Outcome JSON
}.

Definition M := Eff.M (list Effect).

Definition perform {A} (e : Effect) (answer : Outcome A) : M A :=
  fun trace => (answer, trace ++ [e]).

(** [{ content, type }] of the JSON body, or the uploaded file. *)
Record ExtractRequestBody := { content : jsstring; type : jsstring }.

Record File := { base64Data : jsstring; file_type : jsstring }.

Inductive RequestBody :=
| Multipart (file : option File)
| Json (body : Outcome ExtractRequestBody).  (* [await req.json()] *)

Record Request := {
  x_gemini_api_key : option jsstring;
  request_body : RequestBody
}.

(** [createErrorResponse(message, status, details)] and
    [NextResponse.json(recipe)] *)
Inductive ApiResponse :=
| ErrorResponse (message : jsstring) (status : Z) (details : option jsstring)
| RecipeResponse (recipe : JSON).

Definition createErrorResponse (message : jsstring) (status : Z)
  (details : option jsstring) : ApiResponse :=
  ErrorResponse message status details.

Section Handler.

Variable world : World.
Variable EXTRACTION_PROMPT : jsstring.

(** [fetchUrlContent(url)] *)
Definition fetchUrlContent (url : jsstring) : M jsstring :=
  response <- perform (GET url) (http_get world url) ;;
  html <- lift (body_text response) ;;
  (* Extract and clean body text *)
  ret (trim (replace_all whitespace (lit " ")
              (cheerio_body_text world html))).

(** [normalizeImage(image)]; [None] is [null].  The candidate
    [imageUrl] holds whatever value the field had: the casts of the
    source do not check it. *)
Definition normalizeImage (image : option JSON) : M (option jsstring) :=
  if negb (truthy_opt image) then ret None
  else
    let imageUrl : option JSON :=
      match image with
      | Some (JString s) => Some (JString s)
      | Some (JArray items) =>
          match items with
          | JString first :: _ => Some (JString first)
          | JObject first :: _ =>
              if truthy_opt (lookup (lit "url") first)
              then lookup (lit "url") first
              else None
          | _ => None
          end
      | Some (JObject fields) =>
          if truthy_opt (lookup (lit "url") fields)
          then lookup (lit "url") fields
          else None
      | _ => None
      end in
    (* Validate it looks like a URL and is reachable *)
    match imageUrl with
    | Some (JString imageUrl) =>
        if truthy_string imageUrl && startsWith (lit "http") imageUrl then
          try_catch
            (check <- perform (HEAD imageUrl) (http_head world imageUrl) ;;
             if ok check then ret (Some imageUrl) else ret None)
            (fun _ => (* Image not accessible *) ret None)
        else ret None
    | Some v =>
        if truthy v then throw (lit "imageUrl.startsWith is not a function")
        else ret None
    | None => ret None
    end.

(** [generateFallbackImageUrl(recipe)], on the fields of the record. *)
Definition generateFallbackImageUrl (recipe : list (jsstring * JSON))
  : Outcome jsstring :=
  let ingredients :=
    match lookup (lit "recipeIngredient") recipe with
    | Some (JArray items) => join (lit ", ") (map join_element (firstn 3 items))
    | _ => []
    end in
  let name :=
    match lookup (lit "name") recipe with
    | Some v => if truthy v then ToString v else lit "delicious food"
    | None => lit "delicious food"
    end in
  match encodeURIComponent
          (lit "Professional food photography of " ++ name ++ lit ", "
             ++ ingredients ++ lit ", high quality, lush lighting") with
  | Returned prompt =>
      Returned (POLLINATIONS_BASE_URL ++ lit "/" ++ prompt
                  ++ lit "?model=flux&width=1024&height=1024")
  | Thrown e => Thrown e
  end.

(** The body of the inner [try] of [POST] after [JSON.parse]: inject
    the source URL, normalise the image, fall back to a generated one,
    answer with the record.  A property cannot be read from [null] nor
    (the module being strict code) written to a primitive; a property
    written to an array is not part of its JSON. *)
Definition finish (sourceUrl : jsstring) (recipe : JSON) : M ApiResponse :=
  match recipe with
  | JObject fields =>
      (* Inject source URL if available *)
      let fields :=
        if truthy_string sourceUrl
           && negb (truthy_opt (lookup (lit "url") fields))
        then assign (lit "url") (JString sourceUrl) fields
        else fields in
      (* Normalize image field *)
      image <- normalizeImage (lookup (lit "image") fields) ;;
      let fields :=
        assign (lit "image")
          (match image with
           | Some imageUrl => JString imageUrl
           | None => JNull
           end) fields in
      (* Generate fallback image if needed *)
      fields <-
        (if negb (truthy_opt (lookup (lit "image") fields)) then
           fallback <- lift (generateFallbackImageUrl fields) ;;
           ret (assign (lit "image") (JString fallback) fields)
         else ret fields) ;;
      ret (RecipeResponse (JObject fields))
  | JArray items => ret (RecipeResponse (JArray items))
  | JNull => throw (lit "Cannot read properties of null")
  | _ => throw (lit "Cannot create property on a primitive")
  end.

(** The first half of [POST]: the prompt parts and the source URL, or
    an early error response. *)
Definition prepare (req : Request)
  : M (ApiResponse + list PromptPart * jsstring) :=
  match request_body req with
  | Multipart file =>
      (* Handle multipart form data (image uploads) *)
      match file with
      | None => ret (inl (createErrorResponse (lit "No file provided") 400 None))
      | Some file =>
          ret (inr ([InlineData (base64Data file) (file_type file)], []))
      end
  | Json body =>
      (* Handle JSON body (URL or text content) *)
      body <- lift body ;;
      if str_eqb (type body) (lit "url") then
        let sourceUrl := content body in
        try_catch
          (textToAnalyze <- fetchUrlContent (content body) ;;
           ret (inr ([TextPart textToAnalyze], sourceUrl)))
          (fun _ =>
             ret (inl (createErrorResponse (lit "Failed to fetch URL") 400 None)))
      else ret (inr ([TextPart (content body)], []))
  end.

(** [POST(req)] *)
Definition POST (req : Request) : M ApiResponse :=
  try_catch
    (match x_gemini_api_key req with
     | None => ret (createErrorResponse (lit "Missing Gemini API Key") 401 None)
     | Some apiKey =>
         if negb (truthy_string apiKey) then
           ret (createErrorResponse (lit "Missing Gemini API Key") 401 None)
         else
           prepared <- prepare req ;;
           match prepared with
           | inl response => ret response
           | inr (promptParts, sourceUrl) =>
               (* Call Gemini for extraction *)
               let parts := TextPart EXTRACTION_PROMPT :: promptParts in
               text <- perform (GENERATE parts) (generateContent world parts) ;;
               (* Parse and normalize the response *)
               let cleanJson := cleanJsonResponse text in
               try_catch
                 (recipe <- lift (JSON_parse world cleanJson) ;;
                  finish sourceUrl recipe)
                 (fun _ =>
                    ret (createErrorResponse
                           (lit "Failed to parse API response") 500 (Some text)))
           end
     end)
    (fun message =>
       ret (createErrorResponse (lit "Extraction failed") 500 (Some message))).

End Handler.

End ExtractRoute.

(* ================================================================== *)
(** * [src/lib/api-helpers.ts] *)

Module ApiHelpers.

Local Open Scope Z_scope.

(** A response with a JSON body. *)
Record NextResponse (B : Type) := { body : B; status : Z }.

Arguments body {B}.
Arguments status {B}.

(** The conversion of [init.status] to an unsigned short. *)
Definition ToUint16 (n : Z) : Z := n mod 65536.

(** The statuses of responses that have no body. *)
Definition null_body_status (status : Z) : bool :=
  (status =? 204) || (status =? 205) || (status =? 304).

(** [NextResponse.json(body, { status })], which is [Response.json]:
    a [RangeError] for a status outside 200..599, a [TypeError] for a
    status that allows no body. *)
Definition NextResponse_json {B} (body : B) (status : Z)
  : Outcome (NextResponse B) :=
  let status := ToUint16 status in
  if (status <? 200) || (599 <? status) then
    Thrown (lit "The status provided is outside the range [200, 599].")
  else if null_body_status status then
    Thrown (lit "Invalid response status code")
  else Returned {| body := body; status := status |}.

(** [{ error: string; details?: string | object }] *)
Record ErrorBody := { error : jsstring; details : option jsstring }.

(** [createErrorResponse(message, status, details)]; [inject] places
    the error body among the bodies a route answers with. *)
Definition createErrorResponse {B} (inject : ErrorBody -> B)
  (message : jsstring) (status : Z) (details : option jsstring)
  : Outcome (NextResponse B) :=
  (* [details] is set only when it is not [undefined] *)
  let body := {| error := message; details := details |} in
  NextResponse_json (inject body) status.

(** [req.headers.get(name)]: [None] is [null], and a name that is not
    a header name is a [TypeError]. *)
Definition Headers := jsstring -> Outcome (option jsstring).

(** The own properties of a [Record<string, string>]. *)
Definition Record_ := list (jsstring * jsstring).

(** [headers[name] = value] on an object made by [{}]: the name
    [__proto__] reaches the setter of [Object.prototype], which
    ignores a string. *)
Definition set_property (name value : jsstring) (headers : Record_)
  : Record_ :=
  if str_eqb name (lit "__proto__") then headers
  else Client.set_header name value headers.

(** [return { error: createErrorResponse(...) }] *)
Definition error_result {T} (response : Outcome (NextResponse ErrorBody))
  : Outcome (T + NextResponse ErrorBody) :=
  match response with
  | Returned response => Returned (inr response)
  | Thrown e => Thrown e
  end.

(** The [for] loop of [validateRequiredHeaders]. *)
Fixpoint validate_each (get : Headers) (headerNames : list jsstring)
  (headers : Record_)
  : Outcome (Record_ + NextResponse ErrorBody) :=
  match headerNames with
  | [] => Returned (inl headers)
  | name :: headerNames' =>
      match get name with
      | Thrown e => Thrown e
      | Returned None =>
          error_result
            (createErrorResponse (fun body => body)
               (lit "Missing required header: " ++ name) 401 None)
      | Returned (Some value) =>
          if negb (truthy_string value) then
            error_result
              (createErrorResponse (fun body => body)
                 (lit "Missing required header: " ++ name) 401 None)
          else validate_each get headerNames' (set_property name value headers)
      end
  end.

(** [validateRequiredHeaders(req, headerNames)]: [{ headers }] or
    [{ error }]. *)
Definition validateRequiredHeaders (get : Headers)
  (headerNames : list jsstring)
  : Outcome (Record_ + NextResponse ErrorBody) :=
  validate_each get headerNames [].

(** [safeParseJson(req)]: [{ data }] or [{ error }]; [json] is
    [await req.json()]. *)
Definition safeParseJson {T} (json : Outcome T)
  : Outcome (T + NextResponse ErrorBody) :=
  match json with
  | Returned data => Returned (inl data)
  | Thrown _ =>
      error_result
        (createErrorResponse (fun body => body) (lit "Invalid JSON body") 400
           None)
  end.

End ApiHelpers.

(* ================================================================== *)
(** * [src/app/api/tandoor/route.ts]: the route handler *)

Module TandoorPost.

Import ApiHelpers.

Local Open Scope Z_scope.

(** The handler talks to the network through a client object of its
    own: its state is the log of the requests sent. *)
Definition M := Eff.M (list Client.Request).

(** The methods of [client], called one after the other by [m]. *)
Definition with_client {A} (client : Client.TandoorClient) (m : Client.M A)
  : M A :=
  fun log =>
    let (outcome, state) := m (client, log) in
    (outcome, snd state).

(** [!!s] for a string that may be [null] or [undefined]. *)
Definition truthy_header (s : option jsstring) : bool :=
  match s with
  | Some s => truthy_string s
  | None => false
  end.

Section Handler.

Variables Quantity Amount Created : Type.

(** The world outside the handler, as for the client and the adapter.
    [Created] is [TandoorRecipeResponse], an object of which the
    handler reads the [id].  [response.json()] gives whatever value
    the body of the answer spells: [JSON_parse] gives [None] for a
    body that spells a falsy value ([null], [false], [0] or the empty
    string), which [!createdRecipe] takes for no recipe. *)
Record World := {
  network : Client.Network;
  URL_resolve : jsstring -> jsstring -> Outcome jsstring;
  amount_of_quantity : option Quantity -> Amount;
  zero : Amount;
  JSON_stringify_step : TandoorRoute.SourceStep -> jsstring;
  id : Created -> integer;
  JSON_stringify : TandoorRoute.TandoorRecipePayload Amount -> jsstring;
  JSON_parse : jsstring -> Outcome (option Created)
}.

Variable world : World.

(** The request: its two headers and [await req.json()]. *)
Record Request := {
  x_tandoor_url : option jsstring;
  x_tandoor_token : option jsstring;
  json : Outcome (TandoorRoute.RecipePayload Quantity)
}.

(** What the route answers with: an error body or the created
    recipe. *)
Inductive ResponseBody :=
| Error (body : ErrorBody)
| CreatedRecipe (data : Created).

(** [POST(req)] *)
Definition POST (req : Request) : M (NextResponse ResponseBody) :=
  try_catch
    (let tandoorUrl := x_tandoor_url req in
     let token := x_tandoor_token req in
     match tandoorUrl, token with
     | Some tandoorUrl, Some token =>
         if negb (truthy_string tandoorUrl) || negb (truthy_string token) then
           lift (createErrorResponse Error
                   (lit "Missing Tandoor configuration") 401 None)
         else
           let client :=
             Client.new_TandoorClient
               {| Client.config_baseUrl := tandoorUrl;
                  Client.config_token := token |} in
           with_client client
             (payload <- lift (json req) ;;
              let tandoorPayload :=
                TandoorRoute.buildTandoorPayload (amount_of_quantity world)
                  (zero world) (JSON_stringify_step world) payload in
              (* Create recipe *)
              result <- Client.createRecipe (network world) (URL_resolve world)
                          (JSON_stringify world) (JSON_parse world)
                          tandoorPayload ;;
              (* [if (!createdRecipe)]: [data] is [null] after an
                 answer that is not 2xx, and whatever the body spells
                 after one that is *)
              match Client.data result with
              | Some (Some createdRecipe) =>
                  (* Upload image if available *)
                  (if truthy_header (TandoorRoute.image payload)
                      && truthy_integer (id world createdRecipe)
                   then
                     Client.uploadImageFromUrl (network world)
                       (URL_resolve world) (id world createdRecipe)
                       (match TandoorRoute.image payload with
                        | Some image => image
                        | None => []
                        end) ;;;
                     ret tt
                   else ret tt) ;;;
                  lift (NextResponse_json (CreatedRecipe createdRecipe) 201)
              | _ =>
                  lift (createErrorResponse Error (lit "Tandoor API Error")
                          (Client.result_status result) (Client.error result))
              end)
     | _, _ =>
         lift (createErrorResponse Error
                 (lit "Missing Tandoor configuration") 401 None)
     end)
    (fun _ =>
       lift (createErrorResponse Error (lit "Failed to send to Tandoor") 500
               None)).

End Handler.

Arguments Error {Created}.
Arguments CreatedRecipe {Created}.

End TandoorPost.

(* ================================================================== *)
(** * [src/app/api/tandoor/import/route.ts] *)

Module ImportRoute.

Import ApiHelpers.

Local Open Scope Z_scope.

Definition M := TandoorPost.M.

(** The hint given when Tandoor's own scraper fails. *)
Definition scraper_hint : jsstring :=
  lit "The Tandoor server returned an internal error (500). This often means its internal scraper couldn't parse the website. Please try unchecking 'Use Tandoor Importer' to use VibeRecipe's AI extraction instead.".

Section Handler.

(** [I] and [R] are the ingredients and the other fields of a step,
    [O] the other fields of a parsed recipe, [P] those of the answer
    of the parser, [Created] is [TandoorRecipeResponse]. *)
Variables I R O P Created : Type.

(** [TandoorParsedRecipe] *)
Record ParsedRecipe := {
  name : jsstring;
  image : option jsstring;
  steps : option (list (Client.Step I R));
  recipe_other : O
}.

(** [TandoorParseResponse] *)
Record ParseResponse := {
  recipe_json : option ParsedRecipe;
  response_other : P
}.

(** The world outside the handler: the network, the [URL]
    constructor, [JSON.stringify({ url, data: '' })], [response.json()]
    on the answer of the parser, [JSON.stringify] on a recipe and
    [response.json()] on the answer of the creation.  Both readings
    of a body give [None] when it spells a falsy value ([null],
    [false], [0] or the empty string): such a value has no
    [recipe_json], and [!parseResult.data] and [!createResult.data]
    take it for no data. *)
Record World := {
  network : Client.Network;
  URL_resolve : jsstring -> jsstring -> Outcome jsstring;
  id : Created -> integer;
  JSON_stringify_source : jsstring -> jsstring;
  JSON_parse_source : jsstring -> Outcome (option ParseResponse);
  JSON_stringify : ParsedRecipe -> jsstring;
  JSON_parse : jsstring -> Outcome (option Created)
}.

Variable world : World.

(** [ImportRequestBody]; the handler tests that [url] is there. *)
Record ImportRequestBody := { url : option jsstring }.

Record Request := {
  x_tandoor_url : option jsstring;
  x_tandoor_token : option jsstring;
  json : Outcome ImportRequestBody
}.

(** What the route answers with: an error body, the body
    [{ error: "Import parsed but failed to save.", details, parsed }],
    or the created recipe. *)
Inductive ResponseBody :=
| Error (body : ErrorBody)
| SaveFailed (details : option jsstring) (parsed : ParseResponse)
| Imported (data : Created).

(** [recipeJson.steps = refineTandoorSteps(recipeJson.steps)] *)
Definition with_refined_steps (recipeJson : ParsedRecipe) : ParsedRecipe :=
  match steps recipeJson with
  | Some steps =>
      {| name := name recipeJson;
         image := image recipeJson;
         steps := Some (Client.refineTandoorSteps steps);
         recipe_other := recipe_other recipeJson |}
  | None => recipeJson
  end.

(** The block under [if (!parseResult.data?.recipe_json)]. *)
Definition no_recipe_data (parseResult : Client.Result (option ParseResponse))
  : Client.M (NextResponse ResponseBody) :=
  (* Handle specific error cases *)
  if Client.result_status parseResult =? 500 then
    lift (createErrorResponse Error
            (lit "Tandoor failed to import this URL directly.") 502
            (Some scraper_hint))
  else
    (* [if (!parseResult.data)] *)
    match Client.data parseResult with
    | Some (Some _) =>
        lift (createErrorResponse Error
                (lit "No recipe data found in Tandoor response") 422 None)
    | _ =>
        lift (createErrorResponse Error (lit "Tandoor Import Failed")
                (Client.result_status parseResult)
                (Client.error parseResult))
    end.

(** The rest of [POST] once there is a [recipe_json]; [data] is
    [parseResult.data], whose [recipe_json] is the object that the
    refinement writes to. *)
Definition save_recipe (data : ParseResponse) (recipeJson : ParsedRecipe)
  : Client.M (NextResponse ResponseBody) :=
  (* Refine steps if needed (split single giant steps) *)
  let recipeJson := with_refined_steps recipeJson in
  let data :=
    {| recipe_json := Some recipeJson;
       response_other := response_other data |} in
  (* Step 2: Create the recipe *)
  createResult <- Client.createRecipe (network world) (URL_resolve world)
                    (JSON_stringify world) (JSON_parse world) recipeJson ;;
  (* [if (!createResult.data)] *)
  match Client.data createResult with
  | Some (Some created) =>
      (* Step 3: Upload image if available *)
      (if TandoorPost.truthy_header (image recipeJson)
          && truthy_integer (id world created)
       then
         Client.uploadImageFromUrl (network world) (URL_resolve world)
           (id world created)
           (match image recipeJson with Some image => image | None => [] end)
         ;;; ret tt
       else ret tt) ;;;
      lift (NextResponse_json (Imported created) 201)
  | _ =>
      lift (NextResponse_json
              (SaveFailed (Client.error createResult) data)
              (Client.result_status createResult))
  end.

(** [POST(req)] *)
Definition POST (req : Request) : M (NextResponse ResponseBody) :=
  try_catch
    (let tandoorUrl := x_tandoor_url req in
     let token := x_tandoor_token req in
     match tandoorUrl, token with
     | Some tandoorUrl, Some token =>
         if negb (truthy_string tandoorUrl) || negb (truthy_string token) then
           lift (createErrorResponse Error
                   (lit "Missing Tandoor configuration") 401 None)
         else
           body <- lift (json req) ;;
           if negb (TandoorPost.truthy_header (url body)) then
             lift (createErrorResponse Error (lit "Missing URL to import") 400
                     None)
           else
             let url := match url body with Some url => url | None => [] end in
             let client :=
               Client.new_TandoorClient
                 {| Client.config_baseUrl := tandoorUrl;
                    Client.config_token := token |} in
             TandoorPost.with_client client
               ((* Step 1: Parse the recipe URL *)
                parseResult <- Client.parseRecipeFromUrl (network world)
                                 (URL_resolve world)
                                 (JSON_stringify_source world)
                                 (JSON_parse_source world) url ;;
                (* [if (!parseResult.data?.recipe_json)] *)
                match Client.data parseResult with
                | Some (Some data) =>
                    match recipe_json data with
                    | Some recipeJson => save_recipe data recipeJson
                    | None => no_recipe_data parseResult
                    end
                | _ => no_recipe_data parseResult
                end)
     | _, _ =>
         lift (createErrorResponse Error
                 (lit "Missing Tandoor configuration") 401 None)
     end)
    (fun _ =>
       lift (createErrorResponse Error (lit "Failed to connect to Tandoor") 500
               None)).

End Handler.

Arguments Error {I R O P Created}.
Arguments SaveFailed {I R O P Created}.
Arguments Imported {I R O P Created}.
Arguments no_recipe_data {I R O P} Created.

End ImportRoute.

(* ================================================================== *)
(** * Vocabulary of the properties *)

Local Open Scope Z_scope.

(** ** Closed forms of the regular expressions

    What each regular expression of the source does to a string,
    written as a plain function; the properties show that the matcher
    computes exactly this on every input. *)

(** The literal [p] at the head of [s], compared with [eq]: the rest
    of the input after it. *)
Fixpoint match_literal (eq : char -> char -> bool) (p s : jsstring)
  : option jsstring :=
  match p, s with
  | [], _ => Some s
  | a :: p', b :: s' => if eq a b then match_literal eq p' s' else None
  | _ :: _, [] => None
  end.

(** [s] without its longest prefix in the class [p]. *)
Fixpoint drop_while (p : char -> bool) (s : jsstring) : jsstring :=
  match s with
  | c :: r => if p c then drop_while p r else s
  | [] => []
  end.

(** One optional group [(?:(\d+)X)?] tried at the head of [s]: the
    capture (if the group took part in the match) and the rest of the
    input.  The group matches exactly when the longest digit run is
    non-empty and is followed by [x]. *)
Definition optional_digits_then (x : char) (s : jsstring)
  : option jsstring * jsstring :=
  let (ds, r) := span_digits s in
  match ds, r with
  | _ :: _, c :: r' => if char_eqb c x then (Some ds, r') else (None, s)
  | _, _ => (None, s)
  end.

(** [isoDuration.match(/PT(?:(\d+)H)?(?:(\d+)M)?/)]: the match starts
    at the first occurrence of [PT].  The result is the pair of
    captures [(match[1], match[2])], or [None] for [null]. *)
Fixpoint match_durationRegex (s : jsstring)
  : option (option jsstring * option jsstring) :=
  match s with
  | [] => None
  | _ :: r =>
      if startsWith (lit "PT") s then
        let (h, r1) := optional_digits_then 72%N (skipn 2 s) in
        let (m, _) := optional_digits_then 77%N r1 in
        Some (h, m)
      else match_durationRegex r
  end.

(** [yieldValue.match(/(\d+)/)]: the first digit run, taken whole. *)
Fixpoint match_digits (s : jsstring) : option jsstring :=
  match s with
  | [] => None
  | c :: r =>
      if is_digit c then Some (fst (span_digits s)) else match_digits r
  end.

(** The literal [p] matched case-insensitively at the head of [s]:
    the rest of the input after it. *)
Fixpoint match_literal_ci (p s : jsstring) : option jsstring :=
  match p, s with
  | [], _ => Some s
  | a :: p', b :: s' => if char_eqb_ci a b then match_literal_ci p' s' else None
  | _ :: _, [] => None
  end.

(** [/^(Bearer|Token)\s+/i] at the start of [s]: the rest of the input
    after the match, when there is one. *)
Definition match_schemePrefix (s : jsstring) : option jsstring :=
  let after_name :=
    match match_literal_ci (lit "Bearer") s with
    | Some r => Some r
    | None => match_literal_ci (lit "Token") s
    end in
  match after_name with
  | Some (c :: r) => if is_whitespace c then Some (trimStart r) else None
  | _ => None
  end.

(** [token.replace(/^(Bearer|Token)\s+/i, '')] *)
Definition strip_schemePrefix (s : jsstring) : jsstring :=
  match match_schemePrefix s with
  | Some r => r
  | None => s
  end.

(** [baseUrl.replace(/\/$/, '')]: one trailing slash removed. *)
Definition remove_trailing_slash (s : jsstring) : jsstring :=
  match rev s with
  | c :: r => if char_eqb c 47%N then rev r else s
  | [] => s
  end.

(** [s.replace(/p/g, '')] for a literal, non-empty [p]: all its
    occurrences, found from left to right without overlap, are
    removed.  [skip] counts the characters of the current occurrence
    still to be dropped. *)
Fixpoint remove_all_from (p : jsstring) (skip : nat) (s : jsstring)
  : jsstring :=
  match s with
  | [] => []
  | c :: r =>
      match skip with
      | S k => remove_all_from p k r
      | O =>
          if startsWith p s then remove_all_from p (List.length p - 1) r
          else c :: remove_all_from p O r
      end
  end.

Definition remove_all (p s : jsstring) : jsstring := remove_all_from p O s.

(** The suffix of [s] that starts at the first [x]. *)
Fixpoint from_first (x : char) (s : jsstring) : option jsstring :=
  match s with
  | [] => None
  | c :: r => if char_eqb c x then Some s else from_first x r
  end.

(** [s.replace(/^[\s\S]*?\{/, '{')]: what precedes the first brace is
    dropped. *)
Definition drop_before_first_brace (s : jsstring) : jsstring :=
  match from_first ExtractRoute.open_brace s with
  | Some t => t
  | None => s
  end.

(** [s.replace(/\}[^}]*$/, '}')]: what follows the last brace is
    dropped. *)
Definition drop_after_last_brace (s : jsstring) : jsstring :=
  match from_first ExtractRoute.close_brace (rev s) with
  | Some t => rev t
  | None => s
  end.

(** [s.replace(/\s+/g, ' ')]: every run of white space becomes one
    space.  [in_run] tells that the previous character was white
    space. *)
Fixpoint collapse_whitespace (in_run : bool) (s : jsstring) : jsstring :=
  match s with
  | [] => []
  | c :: r =>
      if is_whitespace c then
        if in_run then collapse_whitespace true r
        else 32%N :: collapse_whitespace true r
      else c :: collapse_whitespace false r
  end.

(** ** Digits *)

Definition all_digits (ds : jsstring) : Prop := forallb is_digit ds = true.

Definition no_digit (s : jsstring) : Prop :=
  forallb (fun c => negb (is_digit c)) s = true.

(** The string does not go on with a digit. *)
Definition stops_digits (r : jsstring) : Prop :=
  match r with
  | [] => True
  | c :: _ => is_digit c = false
  end.

(** The integer a string of decimal digits denotes. *)
Fixpoint decimal_value (ds : jsstring) : Z :=
  match ds with
  | [] => 0
  | c :: r => digit_value c * 10 ^ Z.of_nat (List.length r) + decimal_value r
  end.

(** ** Numbers *)

(** [Number.MAX_SAFE_INTEGER], 2^53 - 1: up to it every integer is a
    number of its own. *)
Definition MAX_SAFE_INTEGER : Z := 9007199254740991.

(** The integer a number is, when it is one. *)
Definition integer_value (x : number) : option Z :=
  match x with
  | S754_zero _ => Some 0
  | S754_finite s m e =>
      let magnitude :=
        if 0 <=? e then Some (Zpos m * 2 ^ e)
        else if Zpos m mod 2 ^ (- e) =? 0 then Some (Zpos m / 2 ^ (- e))
        else None in
      match magnitude with
      | Some z => Some (if s then - z else z)
      | None => None
      end
  | _ => None
  end.

(** Zero or more, possibly infinite; never [NaN]. *)
Definition nonnegative (x : number) : Prop :=
  match x with
  | S754_zero false | S754_infinity false | S754_finite false _ _ => True
  | _ => False
  end.

(** The double that is the integer [v], for [v] of at most 53 bits:
    the mantissa has 53 bits. *)
Definition canonical (v : Z) : number :=
  S754_finite false (Z.to_pos (v * 2 ^ (52 - Z.log2 v))) (Z.log2 v - 52).

(** ** Durations *)

(** One component of a [PT#H#M] string: digits and a designator, or
    nothing. *)
Definition duration_component (ds : option jsstring) (designator : char)
  : jsstring :=
  match ds with
  | Some ds => ds ++ [designator]
  | None => []
  end.

Definition component_ok (ds : option jsstring) : Prop :=
  match ds with
  | Some ds => ds <> [] /\ all_digits ds
  | None => True
  end.

Definition component_value (ds : option jsstring) : Z :=
  match ds with
  | Some ds => decimal_value ds
  | None => 0
  end.

Definition duration_string (hours minutes : option jsstring) : jsstring :=
  lit "PT" ++ duration_component hours 72%N ++ duration_component minutes 77%N.

(** ** Tokens *)

(** The token begins with a scheme name and white space:
    [/^(Bearer|Token)\s+/i.test(token)]. *)
Definition has_schemePrefix (token : jsstring) : bool :=
  match exec schemePrefix token with
  | Some _ => true
  | None => false
  end.

(** ** Steps *)

(** [step.instruction || step.text || JSON.stringify(step)] *)
Definition step_body (JSON_stringify : TandoorRoute.SourceStep -> jsstring)
  (step : TandoorRoute.SourceStep) : jsstring :=
  TandoorRoute.or_else (TandoorRoute.step_instruction step)
    (TandoorRoute.or_else (TandoorRoute.step_text step) (JSON_stringify step)).

(** The line feed, U+000A. *)
Definition line_feed : char := 10%N.

(** White space of a line: white space other than the line feed. *)
Definition blank (ws : jsstring) : Prop :=
  forallb (fun c => is_whitespace c && negb (char_eqb c line_feed)) ws
  = true.

(** The string does not start with white space. *)
Definition starts_tight (l : jsstring) : Prop :=
  match l with
  | [] => True
  | c :: _ => is_whitespace c = false
  end.

(** A line with no line feed inside and no white space at either
    end. *)
Definition tight (l : jsstring) : Prop :=
  ~ In line_feed l /\ starts_tight l /\ starts_tight (rev l).

(** A line as it stands in a text: white space, the line itself,
    white space. *)
Record Piece := { before : jsstring; line : jsstring; after : jsstring }.

Definition padded (p : Piece) : jsstring := before p ++ line p ++ after p.

Definition piece_ok (p : Piece) : Prop :=
  blank (before p) /\ tight (line p) /\ blank (after p).

(** The lines put together, a line feed between each two. *)
Fixpoint unlines (ls : list jsstring) : jsstring :=
  match ls with
  | [] => []
  | [l] => l
  | l :: ls' => l ++ line_feed :: unlines ls'
  end.

(** The lines of the pieces that are not empty. *)
Definition kept_lines (pieces : list Piece) : list jsstring :=
  filter (fun l => match l with [] => false | _ :: _ => true end)
    (map line pieces).

(** The instruction of the step is two or more lines, separated by
    line feeds, each with white space around it, and more than one of
    them is not empty: [lines] are those. *)
Definition splittable {I R} (step : Client.Step I R) (lines : list jsstring)
  : Prop :=
  exists pieces,
    Client.instruction step = Some (unlines (map padded pieces))
    /\ Forall piece_ok pieces
    /\ (2 <= List.length pieces)%nat
    /\ lines = kept_lines pieces
    /\ (1 < List.length lines)%nat.

Definition flag_or_true (flag : option bool) : bool :=
  match flag with
  | Some b => b
  | None => true
  end.

(** ** Requests of the client *)

Section Client_vocabulary.

Import Client.

(** The request [makeRequest(scheme)] sends. *)
Definition attempt (scheme : AuthScheme) (c : TandoorClient)
  (url : jsstring) (options : RequestInit) : Request :=
  {| url := url;
     init := {| method := method options;
                headers := set_header (lit "Authorization")
                             (with_space (scheme_name scheme) (token c))
                             (headers options);
                body := body options |} |}.

Definition with_scheme (c : TandoorClient) (scheme : AuthScheme)
  : TandoorClient :=
  {| baseUrl := baseUrl c; token := token c; authScheme := scheme |}.

(** The options [createRecipe] passes on. *)
Definition createRecipe_options {Payload} (JSON_stringify : Payload -> jsstring)
  (recipe : Payload) : RequestInit :=
  {| method := lit "POST";
     headers := [ (lit "Content-Type", lit "application/json");
                  (lit "Accept", lit "application/json") ];
     body := TextBody (JSON_stringify recipe) |}.

(** What [createRecipe] does with the response. *)
Definition createRecipe_result {Data} (JSON_parse : jsstring -> Outcome Data)
  (r : Response * AuthScheme) : M (Result Data) :=
  let response := fst r in
  if ok response || (status response =? 201) then
    data <- lift (JSON_parse (payload response)) ;;
    ret {| data := Some data; error := None;
           result_status := status response |}
  else
    ret {| data := None; error := Some (payload response);
           result_status := status response |}.

(** The two requests of [uploadImageFromUrl]. *)
Definition download_request (imageUrl : jsstring) : Request :=
  {| url := imageUrl;
     init := {| method := lit "GET"; headers := []; body := NoBody |} |}.

Definition upload_request (c : TandoorClient) (uploadUrl : jsstring)
  (image : Response) : Request :=
  {| url := uploadUrl;
     init := {| method := lit "PUT";
                headers := [ (lit "Authorization", getAuthHeader c) ];
                body := FormBody (lit "image") (payload image)
                          (lit "recipe_image.jpg") |} |}.

(** A service that rejects the scheme [Token] and accepts [Bearer]. *)
Definition bearer_only : Network :=
  fun _ request =>
    match authorization request with
    | Some value =>
        if startsWith (lit "Bearer ") value
        then Returned {| status := 201; payload := lit "created" |}
        else Returned {| status := 401; payload := lit "denied" |}
    | None => Returned {| status := 401; payload := lit "denied" |}
    end.

(** [new URL(path, base).toString()] for a base without a path. *)
Definition test_resolve (path base : jsstring) : Outcome jsstring :=
  Returned (base ++ path).

Definition test_client : TandoorClient :=
  new_TandoorClient
    {| config_baseUrl := lit "http://tandoor.test/";
       config_token := lit "abc123" |}.

Definition test_createRecipe : M (Result jsstring) :=
  createRecipe bearer_only test_resolve
    (fun recipe : jsstring => recipe)
    (fun text => Returned text)
    (lit "recipe").

End Client_vocabulary.

(** ** Requests and answers of the extract route *)

Definition quoted (s : jsstring) : jsstring := 34%N :: s ++ [34%N].

Section Extract_vocabulary.

Import ExtractRoute.

(** A request to extract from a URL. *)
Definition url_request (key url : jsstring) : Request :=
  {| x_gemini_api_key := Some key;
     request_body := Json (Returned {| content := url; type := lit "url" |}) |}.

(** A request to extract from pasted text. *)
Definition text_request (key pasted : jsstring) : Request :=
  {| x_gemini_api_key := Some key;
     request_body :=
       Json (Returned {| content := pasted; type := lit "text" |}) |}.

Definition FetchError : ApiResponse :=
  ErrorResponse (lit "Failed to fetch URL") 400 None.

Definition ParseError (raw : jsstring) : ApiResponse :=
  ErrorResponse (lit "Failed to parse API response") 500 (Some raw).

(** The GET rejects (network failure, abort) or its body cannot be
    read. *)
Definition retrieval_rejects (world : World) (url : jsstring) : bool :=
  match http_get world url with
  | Thrown _ => true
  | Returned response =>
      match body_text response with
      | Thrown _ => true
      | Returned _ => false
      end
  end.

(** [POST] after [prepare] has produced the prompt parts. *)
Definition extract (world : World) (EXTRACTION_PROMPT : jsstring)
  (promptParts : list PromptPart) (sourceUrl : jsstring) : M ApiResponse :=
  let parts := TextPart EXTRACTION_PROMPT :: promptParts in
  text <- perform (GENERATE parts) (generateContent world parts) ;;
  let cleanJson := cleanJsonResponse text in
  try_catch
    (recipe <- lift (JSON_parse world cleanJson) ;;
     finish world sourceUrl recipe)
    (fun _ => ret (ParseError text)).

Definition extraction_failed (message : jsstring) : M ApiResponse :=
  ret (createErrorResponse (lit "Extraction failed") 500 (Some message)).

(** What the two fence removals leave of a string. *)
Definition unfenced (s : jsstring) : jsstring :=
  remove_all fence (remove_all json_fence s).

(** The text [s] between code-fence markers, with prose around. *)
Definition wrap_fenced (before s after : jsstring) : jsstring :=
  before ++ json_fence ++ [10%N] ++ s ++ [10%N] ++ fence ++ after.

(** An object text: an opening brace, anything, a closing brace. *)
Definition object_text (inner : jsstring) : jsstring :=
  open_brace :: inner ++ [close_brace].

(** *** Worlds to run the handler in *)

Definition test_key : jsstring := lit "key".
Definition test_prompt : jsstring := lit "You are a recipe extraction machine.".
Definition test_url : jsstring := lit "https://example.test/recipe".

(** A [JSON.parse] that knows one text. *)
Definition parses_only (text : jsstring) (value : JSON) (input : jsstring)
  : Outcome JSON :=
  if str_eqb input text then Returned value
  else Thrown (lit "Unexpected token").

(** The page server is unreachable. *)
Definition offline : World :=
  {| http_get := fun _ => Thrown (lit "fetch failed");
     http_head := fun _ => Thrown (lit "fetch failed");
     generateContent := fun _ => Thrown (lit "fetch failed");
     cheerio_body_text := fun html => html;
     JSON_parse := fun _ => Thrown (lit "Unexpected token") |}.

Definition not_a_recipe_text : jsstring :=
  lit "{" ++ quoted (lit "error") ++ lit ": "
    ++ quoted (lit "Not a recipe") ++ lit "}".

(** The page server answers 404 with an error page; the model says
    that the page is not a recipe. *)
Definition page_not_found : World :=
  {| http_get := fun _ =>
       Returned {| status := 404; body_text := Returned (lit "Not Found") |};
     http_head := fun _ => Thrown (lit "fetch failed");
     generateContent := fun _ => Returned not_a_recipe_text;
     cheerio_body_text := fun html => html;
     JSON_parse :=
       parses_only not_a_recipe_text
         (JObject [(lit "error", JString (lit "Not a recipe"))]) |}.

(** A record whose image is an object with a numeric [url]. *)
Definition soup_with_numeric_image_url : JSON :=
  JObject [ (lit "name", JString (lit "Soup"));
            (lit "image", JObject [(lit "url", JNumber 5)]) ].

Definition numeric_image_url_text : jsstring :=
  lit "{" ++ quoted (lit "name") ++ lit ":" ++ quoted (lit "Soup") ++ lit ","
    ++ quoted (lit "image") ++ lit ":{" ++ quoted (lit "url") ++ lit ":5}}".

(** The model answers with a record whose image is [{"url":5}]; every
    image is reachable. *)
Definition numeric_image_url_world : World :=
  {| http_get := fun _ => Thrown (lit "fetch failed");
     http_head := fun _ =>
       Returned {| status := 200; body_text := Returned [] |};
     generateContent := fun _ => Returned numeric_image_url_text;
     cheerio_body_text := fun html => html;
     JSON_parse :=
       parses_only numeric_image_url_text soup_with_numeric_image_url |}.

(** The scenario of the specification: the page is fetched, the model
    answers with a fenced record without image. *)
Definition pasta_text : jsstring :=
  lit "{" ++ quoted (lit "name") ++ lit ":" ++ quoted (lit "Pasta") ++ lit ","
    ++ quoted (lit "recipeIngredient") ++ lit ":["
    ++ quoted (lit "pasta") ++ lit "," ++ quoted (lit "salt") ++ lit "]}".

Definition pasta : JSON :=
  JObject [ (lit "name", JString (lit "Pasta"));
            (lit "recipeIngredient",
             JArray [JString (lit "pasta"); JString (lit "salt")]) ].

Definition pasta_world : World :=
  {| http_get := fun _ =>
       Returned {| status := 200;
                   body_text := Returned (lit "  Pasta:  cook it. ") |};
     http_head := fun _ => Thrown (lit "fetch failed");
     generateContent := fun _ => Returned (wrap_fenced [] pasta_text []);
     cheerio_body_text := fun html => html;
     JSON_parse := parses_only pasta_text pasta |}.

Definition a_is_1 : jsstring := lit "{" ++ quoted (lit "a") ++ lit ":1}".

(** The record the handler answers with in that scenario. *)
Definition pasta_finished : JSON :=
  JObject
    [ (lit "name", JString (lit "Pasta"));
      (lit "recipeIngredient",
       JArray [JString (lit "pasta"); JString (lit "salt")]);
      (lit "url", JString test_url);
      (lit "image",
       JString
         (lit "https://pollinations.ai/p/Professional%20food%20photography%20of%20Pasta%2C%20pasta%2C%20salt%2C%20high%20quality%2C%20lush%20lighting?model=flux&width=1024&height=1024")) ].

(** A record without image whose name ends in a lone surrogate, as
    [JSON.parse] makes of the escape [\ud83d]. *)
Definition lone_surrogate_name : JSON :=
  JObject [ (lit "name", JString (lit "Soup " ++ [55357%N])) ].

Definition lone_surrogate_world : World :=
  {| http_get := fun _ => Thrown (lit "fetch failed");
     http_head := fun _ => Thrown (lit "fetch failed");
     generateContent := fun _ => Returned (lit "{}");
     cheerio_body_text := fun html => html;
     JSON_parse := fun _ => Returned lone_surrogate_name |}.

End Extract_vocabulary.

(** ** Durations and tokens in running text *)

(** What may follow a duration for it to be read whole: anything after
    a minutes component, no digit otherwise. *)
Definition after_duration (minutes : option jsstring) (post : jsstring)
  : Prop :=
  match minutes with
  | Some _ => True
  | None => stops_digits post
  end.

(** [name] spells [scheme] in some mixture of upper and lower case. *)
Definition spells (scheme name : jsstring) : Prop :=
  map ascii_upper name = map ascii_upper scheme.

Definition all_whitespace (ws : jsstring) : Prop :=
  forallb is_whitespace ws = true.

(** ** Results of the client and ingredients of the adapter *)



Section Adapter_vocabulary.

Import TandoorRoute.

Variables Quantity Amount : Type.

(** The name of a source ingredient. *)
Definition ingredient_name (ing : Ingredient Quantity) : jsstring :=
  match ing with
  | IString _ s => s
  | IObject o => food o
  end.

(** The array of an optional field, empty when the field is absent. *)
Definition or_empty {A} (xs : option (list A)) : list A :=
  match xs with
  | Some xs => xs
  | None => []
  end.

End Adapter_vocabulary.

(** ** Answers of the extract route *)

Section Extract_vocabulary_more.

Import ExtractRoute.

(** The error responses of the extract route. *)
Definition extract_errors : list (jsstring * Z) :=
  [ (lit "Missing Gemini API Key", 401);
    (lit "No file provided", 400);
    (lit "Failed to fetch URL", 400);
    (lit "Failed to parse API response", 500);
    (lit "Extraction failed", 500) ].

(** The effect is a HEAD request to a URL that starts with [http]. *)
Definition is_image_check (e : Effect) : Prop :=
  match e with
  | HEAD u => startsWith (lit "http") u = true
  | _ => False
  end.

End Extract_vocabulary_more.

(** ** Single-spaced text *)

(** No two white-space characters in a row. *)
Fixpoint no_double_space (t : jsstring) : Prop :=
  match t with
  | a :: (b :: _) as r =>
      (is_whitespace a = false \/ is_whitespace b = false)
      /\ no_double_space r
  | _ => True
  end.

(** Words separated by single spaces: no white space at either end,
    none but the space character, no two in a row. *)
Definition single_spaced (t : jsstring) : Prop :=
  trim t = t
  /\ Forall (fun c => is_whitespace c = true -> c = 32%N) t
  /\ no_double_space t.

(** A page server that answers every GET with the same page. *)
Definition serves (html : jsstring) : ExtractRoute.World :=
  {| ExtractRoute.http_get := fun _ =>
       Returned {| ExtractRoute.status := 200;
                   ExtractRoute.body_text := Returned html |};
     ExtractRoute.http_head := fun _ => Thrown (lit "fetch failed");
     ExtractRoute.generateContent := fun _ => Thrown (lit "fetch failed");
     ExtractRoute.cheerio_body_text := fun html => html;
     ExtractRoute.JSON_parse := fun _ => Thrown (lit "Unexpected token") |}.

(** ** URL-safe text *)

(** UTF-16 code units. *)
Definition code_units (s : jsstring) : Prop :=
  Forall (fun c => (c < 65536)%N) s.

(** The strings of a value are sequences of code units. *)
Fixpoint well_formed (v : ExtractRoute.JSON) : Prop :=
  match v with
  | ExtractRoute.JString s => code_units s
  | ExtractRoute.JArray items =>
      (fix all (l : list ExtractRoute.JSON) : Prop :=
         match l with
         | [] => True
         | x :: l' => well_formed x /\ all l'
         end) items
  | ExtractRoute.JObject fields =>
      (fix all (l : list (jsstring * ExtractRoute.JSON)) : Prop :=
         match l with
         | [] => True
         | (_, x) :: l' => well_formed x /\ all l'
         end) fields
  | _ => True
  end.

(** The characters [encodeURIComponent] writes: the unreserved ones
    and the percent sign of an escape. *)
Definition url_safe (c : char) : Prop :=
  ExtractRoute.is_unreserved c = true \/ c = 37%N.

(** The first three elements of the array [recipeIngredient]. *)
Definition leading_ingredients (fields : list (jsstring * ExtractRoute.JSON))
  : option (list ExtractRoute.JSON) :=
  match ExtractRoute.lookup (lit "recipeIngredient") fields with
  | Some (ExtractRoute.JArray items) => Some (firstn 3 items)
  | _ => None
  end.

(** ** Answers of the Tandoor routes *)

(** The client a route handler makes from its two headers. *)
Definition client_of (tandoorUrl token : jsstring) : Client.TandoorClient :=
  Client.new_TandoorClient
    {| Client.config_baseUrl := tandoorUrl; Client.config_token := token |}.

(** The two headers are there and not empty. *)
Definition configured (x_tandoor_url x_tandoor_token : option jsstring)
  (tandoorUrl token : jsstring) : Prop :=
  x_tandoor_url = Some tandoorUrl /\ x_tandoor_token = Some token
  /\ truthy_string tandoorUrl = true /\ truthy_string token = true.

(** A status with which a response may carry a body. *)
Definition body_status (status : Z) : Prop :=
  200 <= status <= 599 /\ ApiHelpers.null_body_status status = false.

(** The response [{ error: message, details }] with [status]. *)
Definition error_response {B} (inject : ApiHelpers.ErrorBody -> B)
  (message : jsstring) (status : Z) (details : option jsstring)
  : ApiHelpers.NextResponse B :=
  {| ApiHelpers.body :=
       inject {| ApiHelpers.error := message; ApiHelpers.details := details |};
     ApiHelpers.status := status |}.

(** A method leaves the address and the token of the client alone and
    only adds to the requests sent. *)
Definition keeps_configuration {A} (m : Client.M A) : Prop :=
  forall (c : Client.TandoorClient) (log : list Client.Request),
    let after := snd (m (c, log)) in
    Client.baseUrl (fst after) = Client.baseUrl c
    /\ Client.token (fst after) = Client.token c
    /\ exists sent, snd after = log ++ sent.

(** The requests a handler makes for the image between [before] and
    [after]: none without an image or with the identifier 0, else the
    download and at most one more. *)
Definition image_requests (image : option jsstring) (id : integer)
  (before after : list Client.Request) : Prop :=
  match image with
  | Some image =>
      if truthy_string image && truthy_integer id then
        exists sent,
          after = before ++ download_request image :: sent
          /\ (List.length sent <= 1)%nat
      else after = before
  | None => after = before
  end.

Section Tandoor_vocabulary.

Import TandoorPost.

Variables Quantity Amount Created : Type.
Variable world : World Quantity Amount Created.

(** [buildTandoorPayload(payload)] in the world of the handler. *)
Definition adapted (payload : TandoorRoute.RecipePayload Quantity)
  : TandoorRoute.TandoorRecipePayload Amount :=
  TandoorRoute.buildTandoorPayload (amount_of_quantity world) (zero world)
    (JSON_stringify_step world) payload.

(** [client.createRecipe(tandoorPayload)] *)
Definition create_adapted (payload : TandoorRoute.RecipePayload Quantity)
  : Client.M (Client.Result (option Created)) :=
  Client.createRecipe (network world) (URL_resolve world)
    (JSON_stringify world) (JSON_parse world) (adapted payload).

End Tandoor_vocabulary.

Section Import_vocabulary.

Import ImportRoute.

Variables I R O P Created : Type.
Variable world : World I R O P Created.

(** [client.parseRecipeFromUrl(url)] *)
Definition parse_source (url : jsstring)
  : Client.M (Client.Result (option (ParseResponse I R O P))) :=
  Client.parseRecipeFromUrl (network world) (URL_resolve world)
    (JSON_stringify_source world) (JSON_parse_source world) url.

(** [client.createRecipe(recipeJson)] *)
Definition create_parsed (recipeJson : ParsedRecipe I R O)
  : Client.M (Client.Result (option Created)) :=
  Client.createRecipe (network world) (URL_resolve world)
    (JSON_stringify world) (JSON_parse world) recipeJson.

(** [parseResult.data?.recipe_json] *)
Definition parsed_recipe
  (parseResult : Client.Result (option (ParseResponse I R O P)))
  : option (ParsedRecipe I R O) :=
  match Client.data parseResult with
  | Some (Some data) => recipe_json data
  | _ => None
  end.

(** The answer of the parser once the handler has refined the steps
    of its recipe. *)
Definition with_refined_recipe (data : ParseResponse I R O P)
  : ParseResponse I R O P :=
  {| recipe_json := option_map (@with_refined_steps I R O) (recipe_json data);
     response_other := response_other data |}.

(** The request is complete: both headers and a URL to import. *)
Definition import_of (req : Request) (tandoorUrl token url : jsstring)
  : Prop :=
  configured (x_tandoor_url req) (x_tandoor_token req) tandoorUrl token
  /\ json req = Returned {| ImportRoute.url := Some url |}
  /\ truthy_string url = true.

End Import_vocabulary.

(** *** Worlds to run the Tandoor routes in *)

(** A Tandoor that answers every request with 201. *)
Definition accepts_all : Client.Network :=
  fun _ _ =>
    Returned {| Client.status := 201; Client.payload := lit "created" |}.

(** A Tandoor that answers every request with 400. *)
Definition rejects_all : Client.Network :=
  fun _ _ =>
    Returned {| Client.status := 400; Client.payload := lit "bad request" |}.

(** A Tandoor that answers its first request with 200 and every
    later one with 400. *)
Definition accepts_first : Client.Network :=
  fun log _ =>
    match log with
    | [] => Returned {| Client.status := 200; Client.payload := lit "parsed" |}
    | _ :: _ =>
        Returned {| Client.status := 400; Client.payload := lit "bad request" |}
    end.

(** A Tandoor that answers every request with 200 and the body
    [null]. *)
Definition answers_null : Client.Network :=
  fun _ _ =>
    Returned {| Client.status := 200; Client.payload := lit "null" |}.

(** A Tandoor that answers its first request with 200 and every
    later one with 200 and the body [null]. *)
Definition null_after_first : Client.Network :=
  fun log _ =>
    match log with
    | [] => Returned {| Client.status := 200; Client.payload := lit "parsed" |}
    | _ :: _ =>
        Returned {| Client.status := 200; Client.payload := lit "null" |}
    end.

(** [response.json()] for the worlds below: the body [null] is
    [null], any other body stands for an object. *)
Definition test_parse {A} (object : jsstring -> A) (text : jsstring)
  : Outcome (option A) :=
  if str_eqb text (lit "null") then Returned None
  else Returned (Some (object text)).


Definition tandoor_world (network : Client.Network)
  : TandoorPost.World Z Z jsstring :=
  {| TandoorPost.network := network;
     TandoorPost.URL_resolve := test_resolve;
     TandoorPost.amount_of_quantity :=
       fun quantity => match quantity with Some q => q | None => 0 end;
     TandoorPost.zero := 0;
     TandoorPost.JSON_stringify_step := fun _ => lit "{}";
     TandoorPost.id := fun _ => 7;
     TandoorPost.JSON_stringify := fun recipe => TandoorRoute.p_name recipe;
     TandoorPost.JSON_parse := test_parse (fun text => text) |}.

Definition soup_payload : TandoorRoute.RecipePayload Z :=
  {| TandoorRoute.name := lit "Soup";
     TandoorRoute.description := None;
     TandoorRoute.steps := None;
     TandoorRoute.ingredients_of := None;
     TandoorRoute.url := None;
     TandoorRoute.image := Some (lit "http://img.test/soup.jpg");
     TandoorRoute.prepTime := None;
     TandoorRoute.cookTime := None;
     TandoorRoute.recipeYield := YUndefined |}.

Definition soup_request : TandoorPost.Request Z :=
  {| TandoorPost.x_tandoor_url := Some (lit "http://tandoor.test/");
     TandoorPost.x_tandoor_token := Some (lit "abc123");
     TandoorPost.json := Returned soup_payload |}.

(** A parsed recipe with one step of two lines. *)
Definition stew : ImportRoute.ParsedRecipe unit unit unit :=
  {| ImportRoute.name := lit "Stew";
     ImportRoute.image := None;
     ImportRoute.steps :=
       Some [ {| Client.instruction := Some (lit "Chop." ++ [10%N] ++ lit "Boil.");
                 Client.ingredients := Some [tt];
                 Client.show_ingredients_table := None;
                 Client.other := tt |} ];
     ImportRoute.recipe_other := tt |}.

Definition import_world (network : Client.Network)
  (parsed : option (ImportRoute.ParsedRecipe unit unit unit))
  : ImportRoute.World unit unit unit unit jsstring :=
  {| ImportRoute.network := network;
     ImportRoute.URL_resolve := test_resolve;
     ImportRoute.id := fun _ => 7;
     ImportRoute.JSON_stringify_source := fun url => url;
     ImportRoute.JSON_parse_source :=
       test_parse (fun _ => {| ImportRoute.recipe_json := parsed;
                               ImportRoute.response_other := tt |});
     ImportRoute.JSON_stringify :=
       fun recipe =>
         ImportRoute.name recipe ++ lit ":"
           ++ flat_map (fun step =>
                          match Client.instruction step with
                          | Some text => text ++ lit ";"
                          | None => []
                          end)
                (match ImportRoute.steps recipe with
                 | Some steps => steps
                 | None => []
                 end);
     ImportRoute.JSON_parse := test_parse (fun text => text) |}.

Definition import_request : ImportRoute.Request :=
  {| ImportRoute.x_tandoor_url := Some (lit "http://tandoor.test/");
     ImportRoute.x_tandoor_token := Some (lit "abc123");
     ImportRoute.json :=
       Returned {| ImportRoute.url := Some (lit "https://example.test/stew") |} |}.

(** ** Required headers *)

(** The header [name] is there and not empty. *)
Definition present (get : ApiHelpers.Headers) (name : jsstring) : bool :=
  match get name with
  | Returned (Some value) => truthy_string value
  | _ => false
  end.

(** An own property of a record of headers. *)
Definition own_property (name : jsstring) (headers : ApiHelpers.Record_)
  : option jsstring :=
  Client.get_header name headers.

(** Request headers for the worlds below: only [x-tandoor-url] is
    there. *)
Definition only_url : ApiHelpers.Headers :=
  fun name =>
    if str_eqb name (lit "x-tandoor-url")
    then Returned (Some (lit "http://tandoor.test"))
    else Returned None.

(* ================================================================== *)
(** * Properties *)

(** ** Strings *)

Lemma char_eqb_refl (c : char) : char_eqb c c = true.
Proof. apply N.eqb_refl. Qed.

Lemma char_eqb_eq (a b : char) : char_eqb a b = true <-> a = b.
Proof. apply N.eqb_eq. Qed.

Lemma str_eqb_refl (s : jsstring) : str_eqb s s = true.
Proof.
  induction s as [|c s IH]; simpl; [reflexivity|].
  now rewrite char_eqb_refl, IH.
Qed.

Lemma str_eqb_eq (s t : jsstring) : str_eqb s t = true <-> s = t.
Proof.
  split.
  - revert t; induction s as [|a s IH]; intros [|b t]; simpl; try easy.
    intros H. apply andb_true_iff in H as [Hc Hs].
    apply char_eqb_eq in Hc. apply IH in Hs. now subst.
  - intros ->. apply str_eqb_refl.
Qed.

(** ** Numbers *)

Lemma digits2_pos_size (p : positive) : digits2_pos p = Pos.size p.
Proof. induction p; simpl; now rewrite ?IHp. Qed.

Lemma digits2_log2 (p : positive) :
  Zpos (digits2_pos p) = Z.log2 (Zpos p) + 1.
Proof.
  rewrite digits2_pos_size. destruct p; simpl; try reflexivity; lia.
Qed.

Lemma iter_pos_nat {A} (f : A -> A) (p : positive) (x : A) :
  iter_pos f p x = Nat.iter (Pos.to_nat p) f x.
Proof.
  revert x. induction p as [p IH|p IH|]; intros x; cbn [iter_pos].
  - rewrite !IH, Pos2Nat.inj_xI.
    replace (S (2 * Pos.to_nat p))%nat
      with (Pos.to_nat p + (Pos.to_nat p + 1))%nat by lia.
    rewrite !Nat.iter_add. reflexivity.
  - rewrite !IH, Pos2Nat.inj_xO.
    replace (2 * Pos.to_nat p)%nat with (Pos.to_nat p + Pos.to_nat p)%nat
      by lia.
    now rewrite Nat.iter_add.
  - reflexivity.
Qed.

Lemma shr_1_half (x : shr_record) :
  0 <= shr_m x -> shr_m (shr_1 x) = shr_m x / 2.
Proof.
  destruct x as [m r s]. cbn [shr_m]. intros H.
  destruct m as [|[p|p|]|p]; cbn [shr_1 shr_m]; try lia; try reflexivity.
  - rewrite Pos2Z.inj_xI. apply Z.div_unique with (r := 1); lia.
  - rewrite Pos2Z.inj_xO. apply Z.div_unique with (r := 0); lia.
Qed.

Lemma iter_shr_1_div (n : nat) (x : shr_record) :
  0 <= shr_m x ->
  shr_m (Nat.iter n shr_1 x) = shr_m x / 2 ^ Z.of_nat n.
Proof.
  intros H. induction n as [|n IH].
  - simpl. now rewrite Z.div_1_r.
  - change (Nat.iter (S n) shr_1 x) with (shr_1 (Nat.iter n shr_1 x)).
    rewrite shr_1_half.
    + rewrite IH, Nat2Z.inj_succ, Z.pow_succ_r by lia.
      rewrite Z.div_div by (try apply Z.pow_pos_nonneg; lia).
      f_equal. lia.
    + rewrite IH. apply Z.div_pos; [exact H | apply Z.pow_pos_nonneg; lia].
Qed.

Lemma shr_div (x : shr_record) (e k : Z) :
  0 <= shr_m x ->
  shr_m (fst (shr x e k)) = shr_m x / 2 ^ Z.max 0 k
  /\ snd (shr x e k) = e + Z.max 0 k.
Proof.
  intros H. destruct k as [|p|p]; cbn [shr fst snd Z.max Z.compare].
  - split; [now rewrite Z.div_1_r | lia].
  - rewrite iter_pos_nat, iter_shr_1_div by exact H.
    rewrite positive_nat_Z. split; [reflexivity | lia].
  - split; [now rewrite Z.div_1_r | lia].
Qed.

Lemma shr_1_exact (y : positive) :
  shr_1 {| shr_m := Zpos y~0; shr_r := false; shr_s := false |}
  = {| shr_m := Zpos y; shr_r := false; shr_s := false |}.
Proof. reflexivity. Qed.

Lemma iter_shr_1_exact (n r : nat) (q : positive) :
  Nat.iter n shr_1
    {| shr_m := Zpos q * 2 ^ Z.of_nat (n + r); shr_r := false; shr_s := false |}
  = {| shr_m := Zpos q * 2 ^ Z.of_nat r; shr_r := false; shr_s := false |}.
Proof.
  revert r. induction n as [|n IH]; intros r; [reflexivity|].
  change (Nat.iter (S n) shr_1 ?x) with (shr_1 (Nat.iter n shr_1 x)).
  replace (S n + r)%nat with (n + S r)%nat by lia.
  rewrite IH, Nat2Z.inj_succ, Z.pow_succ_r by lia.
  assert (P : 0 < Zpos q * 2 ^ Z.of_nat r)
    by (apply Z.mul_pos_pos; [lia | apply Z.pow_pos_nonneg; lia]).
  destruct (Zpos q * 2 ^ Z.of_nat r) as [|y|y] eqn:E; try lia.
  replace (Zpos q * (2 * 2 ^ Z.of_nat r)) with (2 * (Zpos q * 2 ^ Z.of_nat r))
    by lia.
  rewrite E. reflexivity.
Qed.

Lemma shr_exact (q : positive) (e j k : Z) :
  0 <= k <= j ->
  shr {| shr_m := Zpos q * 2 ^ j; shr_r := false; shr_s := false |} e k
  = ({| shr_m := Zpos q * 2 ^ (j - k); shr_r := false; shr_s := false |},
     e + k).
Proof.
  intros [Hk Hj]. destruct k as [|p|p]; cbn [shr]; try lia.
  - now rewrite Z.sub_0_r, Z.add_0_r.
  - rewrite iter_pos_nat.
    replace j with (Z.of_nat (Pos.to_nat p + Z.to_nat (j - Zpos p))) at 1
      by lia.
    rewrite iter_shr_1_exact. rewrite Z2Nat.id by lia. reflexivity.
Qed.

Lemma round_exact (p : positive) (v j : Z) :
  Zpos p = v * 2 ^ j -> 0 < v -> Z.log2 v <= 52 -> 52 - Z.log2 v <= j ->
  binary_round_aux 53 1024 false (Zpos p) (- j) loc_Exact = canonical v.
Proof.
  intros Hp Hv Hd Hj.
  assert (Hl : 0 <= Z.log2 v) by apply Z.log2_nonneg.
  unfold binary_round_aux, shr_fexp, fexp, emin.
  cbn [Zdigits2 shr_record_of_loc]. rewrite digits2_log2, Hp.
  rewrite Z.log2_mul_pow2 by lia.
  replace (Z.max (j + Z.log2 v + 1 + - j - 53) (3 - 1024 - 53) - - j)
    with (j - (52 - Z.log2 v)) by lia.
  destruct v as [|q|q]; try lia.
  rewrite shr_exact by lia.
  replace (j - (j - (52 - Z.log2 (Zpos q)))) with (52 - Z.log2 (Zpos q)) by lia.
  replace (- j + (j - (52 - Z.log2 (Zpos q)))) with (Z.log2 (Zpos q) - 52)
    by lia.
  cbn [shr_m loc_of_shr_record round_nearest_even].
  assert (P : 0 < Zpos q * 2 ^ (52 - Z.log2 (Zpos q)))
    by (apply Z.mul_pos_pos; [lia | apply Z.pow_pos_nonneg; lia]).
  destruct (Zpos q * 2 ^ (52 - Z.log2 (Zpos q))) as [|m|m] eqn:E; try lia.
  cbn [Zdigits2 shr_record_of_loc]. rewrite digits2_log2, <- E.
  rewrite Z.log2_mul_pow2 by lia.
  replace (Z.max (52 - Z.log2 (Zpos q) + Z.log2 (Zpos q) + 1
                  + (Z.log2 (Zpos q) - 52) - 53) (3 - 1024 - 53)
           - (Z.log2 (Zpos q) - 52)) with 0 by lia.
  cbn [shr shr_m]. rewrite E.
  replace (Z.log2 (Zpos q) - 52 <=? 1024 - 53) with true
    by (symmetry; apply Z.leb_le; lia).
  unfold canonical. rewrite E. reflexivity.
Qed.

Lemma iter_xO_pow2 (m d : positive) :
  Zpos (Pos.iter xO m d) = Zpos m * 2 ^ Zpos d.
Proof.
  induction d as [|d IH] using Pos.peano_ind.
  - cbn [Pos.iter]. rewrite Pos2Z.inj_xO. lia.
  - rewrite Pos.iter_succ, Pos2Z.inj_xO, IH, Pos2Z.inj_succ.
    rewrite Z.pow_succ_r by lia. ring.
Qed.

Lemma safe_log2 (v : Z) : 0 < v <= MAX_SAFE_INTEGER -> 0 <= Z.log2 v <= 52.
Proof.
  intros H. split; [apply Z.log2_nonneg|].
  assert (Z.log2 v < 53); [|lia].
  apply Z.log2_lt_pow2; [lia|]. unfold MAX_SAFE_INTEGER in H.
  change (2 ^ 53) with 9007199254740992. lia.
Qed.

(** A safe integer is a number as it is. *)
Lemma Num_safe (v : Z) :
  0 < v <= MAX_SAFE_INTEGER -> Num v = canonical v.
Proof.
  intros H. pose proof (safe_log2 H) as Hl.
  destruct v as [|p|p]; try lia.
  unfold Num, binary_normalize, binary_round, shl_align, fexp, emin.
  rewrite digits2_log2.
  replace (Z.max (Z.log2 (Zpos p) + 1 + 0 - 53) (3 - 1024 - 53) - 0)
    with (Z.log2 (Zpos p) - 52) by lia.
  destruct (Z.log2 (Zpos p) - 52) as [|d|d] eqn:E; try lia.
  - change 0 with (- 0) at 1. apply round_exact; lia.
  - replace (Z.max (Z.log2 (Zpos p) + 1 + 0 - 53) (3 - 1024 - 53))
      with (- Zpos d) by lia.
    apply round_exact; try lia. apply iter_xO_pow2.
Qed.

Lemma integer_value_canonical (v : Z) :
  0 < v -> Z.log2 v <= 52 -> integer_value (canonical v) = Some v.
Proof.
  intros Hv Hl. pose proof (Z.log2_nonneg v) as Hn.
  unfold canonical, integer_value.
  assert (P : 0 < 2 ^ (52 - Z.log2 v)) by (apply Z.pow_pos_nonneg; lia).
  rewrite Z2Pos.id by nia.
  destruct (0 <=? Z.log2 v - 52) eqn:E.
  - apply Z.leb_le in E. replace (Z.log2 v) with 52 by lia.
    cbn. f_equal. lia.
  - replace (- (Z.log2 v - 52)) with (52 - Z.log2 v) by lia.
    rewrite Z.mod_mul by lia. cbn [Z.eqb].
    now rewrite Z.div_mul by lia.
Qed.

(** The value of a safe integer is kept. *)
Lemma integer_value_Num (v : Z) :
  0 <= v <= MAX_SAFE_INTEGER -> integer_value (Num v) = Some v.
Proof.
  intros H. destruct (Z.eq_dec v 0) as [->|Hv]; [reflexivity|].
  rewrite Num_safe by lia. apply integer_value_canonical; [lia|].
  apply safe_log2. lia.
Qed.

Lemma canonical_mantissa_exponent (v : Z) :
  0 < v -> Z.log2 v <= 52 ->
  exists m, canonical v = S754_finite false m (Z.log2 v - 52)
            /\ Zpos m = v * 2 ^ (52 - Z.log2 v).
Proof.
  intros Hv Hl. pose proof (Z.log2_nonneg v) as Hn.
  assert (P : 0 < 2 ^ (52 - Z.log2 v)) by (apply Z.pow_pos_nonneg; lia).
  eexists. split; [reflexivity|]. rewrite Z2Pos.id by nia. reflexivity.
Qed.

Lemma number_mul_canonical (a b : Z) :
  0 < a -> 0 < b -> a * b <= MAX_SAFE_INTEGER ->
  number_mul (canonical a) (canonical b) = canonical (a * b).
Proof.
  intros Ha Hb Hab.
  assert (La : 0 <= Z.log2 a <= 52) by (apply safe_log2; nia).
  assert (Lb : 0 <= Z.log2 b <= 52) by (apply safe_log2; nia).
  assert (Lab : 0 <= Z.log2 (a * b) <= 52) by (apply safe_log2; nia).
  pose proof (Z.log2_mul_below a b Ha Hb) as Hbelow.
  destruct (@canonical_mantissa_exponent a) as (ma & -> & Ea); try lia.
  destruct (@canonical_mantissa_exponent b) as (mb & -> & Eb); try lia.
  unfold number_mul, SFmul. cbn [xorb].
  replace (Z.log2 a - 52 + (Z.log2 b - 52))
    with (- (104 - Z.log2 a - Z.log2 b)) by lia.
  apply round_exact; try nia; try lia.
  rewrite Pos2Z.inj_mul, Ea, Eb.
  replace (104 - Z.log2 a - Z.log2 b)
    with ((52 - Z.log2 a) + (52 - Z.log2 b)) by lia.
  rewrite Z.pow_add_r by lia. ring.
Qed.

Lemma shl_align_value (m : positive) (e e' : Z) :
  e' <= e ->
  Zpos (fst (shl_align m e e')) = Zpos m * 2 ^ (e - e').
Proof.
  intros H. unfold shl_align.
  destruct (e' - e) as [|d|d] eqn:E; cbn [fst]; try lia.
  - replace (e - e') with 0 by lia. lia.
  - rewrite iter_xO_pow2. f_equal. f_equal. lia.
Qed.

Lemma number_add_canonical (a b : Z) :
  0 < a -> 0 < b -> a + b <= MAX_SAFE_INTEGER ->
  number_add (canonical a) (canonical b) = canonical (a + b).
Proof.
  intros Ha Hb Hab.
  assert (La : 0 <= Z.log2 a <= 52) by (apply safe_log2; lia).
  assert (Lb : 0 <= Z.log2 b <= 52) by (apply safe_log2; lia).
  assert (Lab : 0 <= Z.log2 (a + b) <= 52) by (apply safe_log2; lia).
  assert (Ma : Z.log2 a <= Z.log2 (a + b)) by (apply Z.log2_le_mono; lia).
  assert (Mb : Z.log2 b <= Z.log2 (a + b)) by (apply Z.log2_le_mono; lia).
  destruct (@canonical_mantissa_exponent a) as (ma & -> & Ea); try lia.
  destruct (@canonical_mantissa_exponent b) as (mb & -> & Eb); try lia.
  unfold number_add, SFadd. cbn [cond_Zopp].
  set (ez := Z.min (Z.log2 a - 52) (Z.log2 b - 52)).
  rewrite !shl_align_value by lia. rewrite Ea, Eb.
  assert (Pa : 0 < 2 ^ (52 - Z.log2 a)) by (apply Z.pow_pos_nonneg; lia).
  assert (Pb : 0 < 2 ^ (52 - Z.log2 b)) by (apply Z.pow_pos_nonneg; lia).
  assert (Ez : 0 < 2 ^ (- ez)) by (apply Z.pow_pos_nonneg; lia).
  assert (Sa : a * 2 ^ (52 - Z.log2 a) * 2 ^ (Z.log2 a - 52 - ez)
               = a * 2 ^ (- ez)).
  { rewrite <- Z.mul_assoc, <- Z.pow_add_r by lia. f_equal. f_equal. lia. }
  assert (Sb : b * 2 ^ (52 - Z.log2 b) * 2 ^ (Z.log2 b - 52 - ez)
               = b * 2 ^ (- ez)).
  { rewrite <- Z.mul_assoc, <- Z.pow_add_r by lia. f_equal. f_equal. lia. }
  rewrite Sa, Sb.
  replace (a * 2 ^ (- ez) + b * 2 ^ (- ez)) with ((a + b) * 2 ^ (- ez))
    by ring.
  assert (P : 0 < (a + b) * 2 ^ (- ez)) by nia.
  destruct ((a + b) * 2 ^ (- ez)) as [|p|p] eqn:E; try lia.
  unfold binary_normalize, binary_round, shl_align, fexp, emin.
  rewrite digits2_log2, <- E, Z.log2_mul_pow2 by lia.
  destruct (Z.max (- ez + Z.log2 (a + b) + 1 + ez - 53) (3 - 1024 - 53) - ez)
    as [|d|d] eqn:F; try lia.
  - replace ez with (- - ez) at 1 by lia. apply round_exact; lia.
  - replace ez with (- - ez) at 1 by lia. apply round_exact; lia.
Qed.

Lemma Num_0 : Num 0 = S754_zero false.
Proof. reflexivity. Qed.

(** On safe integers the product and the sum are exact. *)
Lemma number_mul_Num (a b : Z) :
  0 <= a -> 0 <= b -> a * b <= MAX_SAFE_INTEGER -> b <= MAX_SAFE_INTEGER ->
  a <= MAX_SAFE_INTEGER ->
  number_mul (Num a) (Num b) = Num (a * b).
Proof.
  intros Ha Hb Hab Hbs Has.
  destruct (Z.eq_dec a 0) as [->|Na], (Z.eq_dec b 0) as [->|Nb];
    try reflexivity.
  - rewrite Num_0, (Num_safe (v := b)) by lia. reflexivity.
  - rewrite Z.mul_0_r, Num_0, (Num_safe (v := a)) by lia. reflexivity.
  - rewrite !Num_safe by nia. apply number_mul_canonical; lia.
Qed.

Lemma number_add_Num (a b : Z) :
  0 <= a -> 0 <= b -> a + b <= MAX_SAFE_INTEGER ->
  number_add (Num a) (Num b) = Num (a + b).
Proof.
  intros Ha Hb Hab.
  destruct (Z.eq_dec a 0) as [->|Na], (Z.eq_dec b 0) as [->|Nb];
    try reflexivity.
  - rewrite Z.add_0_l, Num_0, (Num_safe (v := b)) by lia. reflexivity.
  - rewrite Z.add_0_r, Num_0, (Num_safe (v := a)) by lia. reflexivity.
  - rewrite !Num_safe by lia. apply number_add_canonical; lia.
Qed.

Lemma shr_record_of_loc_m (m : Z) (l : location) :
  shr_m (shr_record_of_loc m l) = m.
Proof. now destruct l as [|[]]. Qed.

Lemma round_nearest_even_near (m : Z) (l : location) :
  m <= round_nearest_even m l <= m + 1.
Proof.
  unfold round_nearest_even. destruct l as [|[]]; try lia.
  destruct (Z.even m); lia.
Qed.

(** What rounding makes of a mantissa and an exponent: the mantissa
    loses its low bits, goes up by one or stays, and loses one more
    bit if that made it too long. *)
Lemma binary_round_aux_shape (s : bool) (m e : Z) (l : location) :
  0 <= m ->
  exists m2,
    let k1 := Z.max 0 (fexp 53 1024 (Zdigits2 m + e) - e) in
    let k2 := Z.max 0 (fexp 53 1024 (Zdigits2 m2 + (e + k1)) - (e + k1)) in
    m / 2 ^ k1 <= m2 <= m / 2 ^ k1 + 1
    /\ binary_round_aux 53 1024 s m e l
       = match m2 / 2 ^ k2 with
         | Z0 => S754_zero s
         | Zpos m3 =>
             if e + k1 + k2 <=? 1024 - 53 then S754_finite s m3 (e + k1 + k2)
             else S754_infinity s
         | Zneg _ => S754_nan
         end.
Proof.
  intros Hm. unfold binary_round_aux, shr_fexp.
  set (x1 := shr_record_of_loc m l).
  assert (H1 : 0 <= shr_m x1) by (unfold x1; now rewrite shr_record_of_loc_m).
  destruct (shr_div x1 e (fexp 53 1024 (Zdigits2 m + e) - e) H1) as [D1 E1].
  destruct (shr x1 e _) as [mrs' e']. cbn [fst snd] in D1, E1.
  unfold x1 in D1. rewrite shr_record_of_loc_m in D1.
  set (m2 := round_nearest_even (shr_m mrs') (loc_of_shr_record mrs')).
  exists m2. cbv zeta.
  pose proof (round_nearest_even_near (shr_m mrs') (loc_of_shr_record mrs'))
    as Hnear. fold m2 in Hnear. rewrite D1 in Hnear.
  split; [exact Hnear|].
  assert (P : 0 <= m / 2 ^ Z.max 0 (fexp 53 1024 (Zdigits2 m + e) - e)).
  { apply Z.div_pos; [exact Hm | apply Z.pow_pos_nonneg; lia]. }
  set (x2 := shr_record_of_loc m2 loc_Exact).
  assert (H2 : 0 <= shr_m x2) by (cbn; lia).
  destruct (shr_div x2 e' (fexp 53 1024 (Zdigits2 m2 + e') - e') H2)
    as [D2 E2].
  destruct (shr x2 e' _) as [mrs'' e'']. cbn [fst snd] in D2, E2.
  cbn [x2 shr_record_of_loc shr_m] in D2. subst e' e''. rewrite D2.
  now rewrite Z.add_assoc.
Qed.

Lemma binary_round_aux_sign (s : bool) (m e : Z) (l : location) :
  0 <= m ->
  match binary_round_aux 53 1024 s m e l with
  | S754_zero s' | S754_infinity s' | S754_finite s' _ _ => s' = s
  | S754_nan => False
  end.
Proof.
  intros Hm. destruct (binary_round_aux_shape s e l Hm) as (m2 & Hn & ->).
  cbv zeta in Hn.
  assert (P : 0 <= m / 2 ^ Z.max 0 (fexp 53 1024 (Zdigits2 m + e) - e)).
  { apply Z.div_pos; [exact Hm | apply Z.pow_pos_nonneg; lia]. }
  match goal with
  | |- context [m2 / ?d] =>
      assert (Q : 0 <= m2 / d)
        by (apply Z.div_pos; [lia | apply Z.pow_pos_nonneg; lia]);
      destruct (m2 / d)
  end; try lia; try reflexivity.
  now destruct (_ <=? _).
Qed.

Lemma binary_round_sign (s : bool) (m : positive) (e : Z) :
  match binary_round 53 1024 s m e with
  | S754_zero s' | S754_infinity s' | S754_finite s' _ _ => s' = s
  | S754_nan => False
  end.
Proof.
  unfold binary_round. destruct (shl_align _ _ _) as [mz ez].
  now apply binary_round_aux_sign.
Qed.

Lemma Num_nonnegative (n : Z) : 0 <= n -> nonnegative (Num n).
Proof.
  intros H. unfold Num, binary_normalize.
  destruct n as [|p|p]; try lia; [exact I|].
  pose proof (binary_round_sign false p 0) as S.
  destruct (binary_round 53 1024 false p 0) as [[]|[]| |[] m e];
    cbn; congruence || exact I || contradiction.
Qed.

Lemma number_mul_nonnegative (x y : number) (m : positive) (e : Z) :
  nonnegative x -> y = S754_finite false m e ->
  nonnegative (number_mul x y).
Proof.
  intros Hx ->. destruct x as [[]|[]| |[] mx ex]; try contradiction;
    try exact I.
  unfold number_mul, SFmul. cbn [xorb].
  pose proof (@binary_round_aux_sign false (Zpos (mx * m)) (ex + e) loc_Exact)
    as S.
  destruct (binary_round_aux _ _ _ _ _ _) as [[]|[]| |[] m' e'];
    cbn; try exact I; exfalso; (discriminate S + apply S); lia.
Qed.

Lemma number_add_nonnegative (x y : number) :
  nonnegative x -> nonnegative y -> nonnegative (number_add x y).
Proof.
  intros Hx Hy.
  destruct x as [[]|[]| |[] mx ex]; try contradiction;
    destruct y as [[]|[]| |[] my ey]; try contradiction; try exact I.
  unfold number_add, SFadd. cbn [cond_Zopp].
  destruct (Zpos _ + Zpos _) as [|p|p] eqn:E; try lia.
  unfold binary_normalize.
  pose proof (binary_round_sign false p (Z.min ex ey)) as S.
  destruct (binary_round _ _ _ _ _) as [[]|[]| |[] m' e'];
    cbn; congruence || exact I || contradiction.
Qed.

(** Only the integer 0 becomes the number 0; no integer becomes
    [NaN]. *)
Lemma Num_truthy (n : Z) : 0 < n -> truthy_number (Num n) = true.
Proof.
  intros Hn. destruct (Z_le_gt_dec n MAX_SAFE_INTEGER) as [Hs|Hs].
  { rewrite Num_safe by lia. reflexivity. }
  destruct n as [|p|p]; try lia.
  assert (Hl : 53 <= Z.log2 (Zpos p)).
  { apply Z.log2_le_pow2; [lia|]. unfold MAX_SAFE_INTEGER in Hs.
    change (2 ^ 53) with 9007199254740992. lia. }
  unfold Num, binary_normalize, binary_round, shl_align, fexp, emin.
  rewrite digits2_log2.
  destruct (Z.max (Z.log2 (Zpos p) + 1 + 0 - 53) (3 - 1024 - 53) - 0)
    as [|d|d] eqn:E; try lia.
  destruct (@binary_round_aux_shape false (Zpos p) 0 loc_Exact)
    as (m2 & Hnear & ->); [lia|].
  cbv zeta in Hnear. revert Hnear. unfold fexp, emin.
  cbn [Zdigits2]. rewrite digits2_log2.
  replace (Z.max 0 (Z.max (Z.log2 (Zpos p) + 1 + 0 - 53) (3 - 1024 - 53) - 0))
    with (Z.log2 (Zpos p) - 52) by lia.
  set (k := Z.log2 (Zpos p) - 52). intros Hnear.
  pose proof (Z.log2_spec (Zpos p) ltac:(lia)) as [Lo Hi].
  assert (Pk : 0 < 2 ^ k) by (apply Z.pow_pos_nonneg; lia).
  assert (Lo1 : 2 ^ 52 <= Zpos p / 2 ^ k).
  { apply Z.div_le_lower_bound; [lia|].
    rewrite <- Z.pow_add_r by lia. now replace (k + 52) with (Z.log2 (Zpos p))
      by lia. }
  assert (Hi1 : Zpos p / 2 ^ k < 2 ^ 53).
  { apply Z.div_lt_upper_bound; [lia|].
    rewrite <- Z.pow_add_r by lia.
    now replace (k + 53) with (Z.succ (Z.log2 (Zpos p))) by lia. }
  assert (M2 : 2 ^ 52 <= m2 <= 2 ^ 53) by lia.
  assert (L2 : 52 <= Z.log2 m2 <= 53).
  { split; [apply Z.log2_le_pow2; lia|].
    assert (Z.log2 m2 <= Z.log2 (2 ^ 53)) by (apply Z.log2_le_mono; lia).
    now rewrite Z.log2_pow2 in H by lia. }
  destruct m2 as [|q|q]; try lia. cbn [Zdigits2]. rewrite digits2_log2.
  match goal with
  | |- context [Zpos q / 2 ^ ?k2] =>
      assert (K2 : 0 <= k2 <= 1) by lia;
      assert (Q : 0 < Zpos q / 2 ^ k2)
  end.
  { apply Z.div_str_pos. split; [apply Z.pow_pos_nonneg; lia|].
    match goal with
    | |- 2 ^ ?k2 <= _ =>
        assert (2 ^ k2 <= 2 ^ 1) by (apply Z.pow_le_mono_r; lia)
    end.
    change (2 ^ 1) with 2 in *. change (2 ^ 52) with 4503599627370496 in *.
    lia. }
  match goal with
  | |- context [Zpos q / ?d] => destruct (Zpos q / d)
  end; try lia.
  now destruct (_ <=? _).
Qed.

(** ** Digits *)

Lemma mathInt_from (ds : jsstring) (acc : Z) :
  fold_left (fun a c => 10 * a + digit_value c) ds acc
  = acc * 10 ^ Z.of_nat (List.length ds) + decimal_value ds.
Proof.
  revert acc; induction ds as [|c r IH]; intros acc; cbn [fold_left].
  - simpl. lia.
  - rewrite IH. cbn [decimal_value List.length].
    rewrite Nat2Z.inj_succ, Z.pow_succ_r by lia. ring.
Qed.

Lemma mathInt_decimal (ds : jsstring) : mathInt ds = decimal_value ds.
Proof. unfold mathInt. rewrite mathInt_from. lia. Qed.

Lemma span_digits_run (ds r : jsstring) :
  all_digits ds -> stops_digits r -> span_digits (ds ++ r) = (ds, r).
Proof.
  unfold all_digits. induction ds as [|c ds IH]; simpl; intros Hd Hr.
  - destruct r as [|c r]; [reflexivity|]. simpl in *. now rewrite Hr.
  - apply andb_true_iff in Hd as [Hc Hd]. rewrite Hc, IH by assumption.
    reflexivity.
Qed.

Lemma digit_is_plain (c : char) :
  is_digit c = true ->
  is_whitespace c = false /\ (c =? 45)%N = false /\ (c =? 43)%N = false.
Proof.
  unfold is_digit. intros H. apply andb_true_iff in H as [H1 H2].
  apply N.leb_le in H1, H2.
  assert (E : (c = 48 \/ c = 49 \/ c = 50 \/ c = 51 \/ c = 52 \/ c = 53
               \/ c = 54 \/ c = 55 \/ c = 56 \/ c = 57)%N) by lia.
  repeat destruct E as [E|E]; subst c; repeat split.
Qed.

(** On a string of digits [parseInt] gives the number for the integer
    they denote. *)
Lemma parseInt10_decimal (ds : jsstring) :
  ds <> [] -> all_digits ds -> parseInt10 ds = Num (decimal_value ds).
Proof.
  intros Hne Hd. unfold parseInt10.
  destruct ds as [|c ds]; [congruence|].
  pose proof Hd as Hc. unfold all_digits in Hc. cbn [forallb] in Hc.
  apply andb_true_iff in Hc as [Hc _].
  destruct (digit_is_plain c Hc) as (Hw & Hm & Hp).
  cbn [trimStart]. rewrite Hw, Hm, Hp.
  rewrite <- (app_nil_r (c :: ds)) at 1.
  rewrite span_digits_run by (assumption || exact I).
  cbn [fst]. now rewrite mathInt_decimal.
Qed.

Lemma match_digits_none (s : jsstring) :
  no_digit s -> match_digits s = None.
Proof.
  unfold no_digit. induction s as [|c s IH]; simpl; [reflexivity|].
  intros H. apply andb_true_iff in H as [Hc Hs].
  apply negb_true_iff in Hc. rewrite Hc. auto.
Qed.

Lemma match_digits_first_run (pre ds post : jsstring) :
  no_digit pre -> ds <> [] -> all_digits ds -> stops_digits post ->
  match_digits (pre ++ ds ++ post) = Some ds.
Proof.
  unfold no_digit. intros Hpre Hne Hds Hpost.
  induction pre as [|c pre IH]; simpl.
  - destruct ds as [|d ds]; [congruence|].
    pose proof Hds as Hds'. unfold all_digits in Hds'. simpl in Hds'.
    apply andb_true_iff in Hds' as [Hd _].
    change ((d :: ds) ++ post) with (d :: (ds ++ post)).
    cbn [match_digits]. rewrite Hd.
    change (d :: ds ++ post) with ((d :: ds) ++ post).
    now rewrite span_digits_run.
  - simpl in Hpre. apply andb_true_iff in Hpre as [Hc Hpre].
    apply negb_true_iff in Hc. rewrite Hc. auto.
Qed.

Lemma string_digit_decomposition (s : jsstring) :
  no_digit s \/
  exists pre ds post,
    s = pre ++ ds ++ post /\ no_digit pre /\ ds <> [] /\ all_digits ds
    /\ stops_digits post.
Proof.
  induction s as [|c s IH].
  - now left.
  - destruct (is_digit c) eqn:Hc.
    + right. exists [], (c :: fst (span_digits s)), (snd (span_digits s)).
      assert (Hspan : forall t, t = fst (span_digits t) ++ snd (span_digits t)
                        /\ all_digits (fst (span_digits t))
                        /\ stops_digits (snd (span_digits t))).
      { clear. unfold all_digits. induction t as [|d t [E [A S]]]; simpl.
        - repeat split; reflexivity.
        - destruct (is_digit d) eqn:Hd.
          + destruct (span_digits t) as [ds rest]. simpl in *.
            repeat split; [now f_equal | now rewrite Hd | assumption].
          + simpl. repeat split; try reflexivity. exact Hd. }
      destruct (Hspan s) as [E [A S]].
      repeat split; try easy.
      * simpl. now f_equal.
      * unfold all_digits in *. simpl. now rewrite Hc.
    + destruct IH as [IH | (pre & ds & post & -> & Hp & Hne & Hd & Hs)].
      * left. unfold no_digit in *. simpl. now rewrite Hc.
      * right. exists (c :: pre), ds, post.
        repeat split; try assumption.
        unfold no_digit in *. simpl. now rewrite Hc.
Qed.

(** ** The regular expressions

    On every input the matcher, run on a regular expression of the
    source, computes the closed form given for it. *)

Section Regular_expressions.

Import ExtractRoute.

Lemma orelse_None_r {A} (a : option A) : orelse a None = a.
Proof. now destruct a. Qed.

Lemma orelse_not_None {A} (a b : option A) : a <> None -> orelse a b = a.
Proof. destruct a; [reflexivity | congruence]. Qed.

Lemma run_Seq n r1 r2 s caps k :
  run n (Seq r1 r2) s caps k
  = run n r1 s caps (fun s' caps' => run n r2 s' caps' k).
Proof. reflexivity. Qed.

Lemma run_Alt n r1 r2 s caps k :
  run n (Alt r1 r2) s caps k = orelse (run n r1 s caps k) (run n r2 s caps k).
Proof. reflexivity. Qed.

Lemma run_Group n i r s caps k :
  run n (Group i r) s caps k
  = run n r s caps
      (fun s' caps' =>
         k s' ((i, firstn (List.length s - List.length s') s) :: caps')).
Proof. reflexivity. Qed.

Lemma run_Bos s caps k : run (List.length s) Bos s caps k = k s caps.
Proof. cbn [run]. now rewrite Nat.eqb_refl. Qed.

Lemma run_literal n eq p s caps k :
  run n (literal eq p) s caps k
  = match match_literal eq p s with
    | Some r => k r caps
    | None => None
    end.
Proof.
  revert s caps k. induction p as [|c p IH]; intros s caps k; [reflexivity|].
  destruct p as [|c2 p].
  - destruct s as [|b s]; simpl; [reflexivity|]. now destruct (eq c b).
  - change (literal eq (c :: c2 :: p))
      with (Seq (Chr (eq c)) (literal eq (c2 :: p))).
    cbn [run]. destruct s as [|b s]; [reflexivity|].
    cbn [match_literal]. destruct (eq c b); [apply IH | reflexivity].
Qed.

(** A greedy star takes the longest run when the continuation accepts
    what follows it, or when the continuation accepts nothing that
    starts with a character of the class: giving characters back does
    not help then. *)
Lemma rep_greedy p s caps (k : Cont) :
  k (drop_while p s) caps <> None
  \/ (forall c r, p c = true -> k (c :: r) caps = None) ->
  rep false p s caps k = k (drop_while p s) caps.
Proof.
  induction s as [|c s IH]; intros H; [reflexivity|]. simpl in *.
  destruct (p c) eqn:Hc; [|reflexivity].
  rewrite IH by exact H.
  destruct H as [H|H].
  - destruct (k (drop_while p s) caps); [reflexivity | congruence].
  - rewrite (H c s Hc). apply orelse_None_r.
Qed.

(** A pattern that begins with [^] matches at the start only. *)
Lemma search_Bos_fails n r b s :
  (List.length s < n)%nat -> search n (Seq Bos r) b s = None.
Proof.
  revert b. induction s as [|c s IH]; intros b Hn; simpl.
  - unfold match_at. cbn [run List.length].
    destruct n; [lia | reflexivity].
  - unfold match_at. cbn [run].
    assert (E : Nat.eqb (List.length (c :: s)) n = false)
      by (apply Nat.eqb_neq; lia).
    rewrite E. apply IH. simpl in Hn. lia.
Qed.

Lemma drop_while_digit s : drop_while is_digit s = snd (span_digits s).
Proof.
  induction s as [|c s IH]; simpl; [reflexivity|].
  destruct (is_digit c); [|reflexivity].
  rewrite IH. now destruct (span_digits s).
Qed.

Lemma drop_while_whitespace s : drop_while is_whitespace s = trimStart s.
Proof.
  induction s as [|c s IH]; simpl; [reflexivity|].
  now destruct (is_whitespace c).
Qed.

Lemma span_digits_app s : s = fst (span_digits s) ++ snd (span_digits s).
Proof.
  induction s as [|c s IH]; simpl; [reflexivity|].
  destruct (is_digit c); [|reflexivity].
  destruct (span_digits s) as [ds r]. simpl in *. now f_equal.
Qed.

Lemma firstn_span_digits s :
  firstn (List.length s - List.length (snd (span_digits s))) s
  = fst (span_digits s).
Proof.
  pose proof (span_digits_app s) as E.
  destruct (span_digits s) as [ds r]. simpl in *. subst s.
  rewrite length_app.
  replace (List.length ds + List.length r - List.length r)%nat
    with (List.length ds + 0)%nat by lia.
  rewrite firstn_app_2. simpl. apply app_nil_r.
Qed.

(** *** [/(\d+)/] *)

Lemma match_at_yieldRegex n s :
  match_at n yieldRegex s
  = match s with
    | c :: _ =>
        if is_digit c
        then Some (snd (span_digits s), [(1%nat, fst (span_digits s))])
        else None
    | [] => None
    end.
Proof.
  unfold match_at, yieldRegex, digits. cbn [run].
  destruct s as [|c s]; [reflexivity|].
  destruct (is_digit c) eqn:Hc; [|reflexivity].
  rewrite rep_greedy by (left; discriminate).
  rewrite drop_while_digit.
  pose proof (firstn_span_digits (c :: s)) as E.
  cbn [span_digits] in *. rewrite Hc in *.
  destruct (span_digits s) as [ds r]. cbn [fst snd] in *.
  now rewrite E.
Qed.

Lemma exec_yieldRegex s :
  match exec yieldRegex s with
  | Some m => group 1 m
  | None => None
  end = match_digits s.
Proof.
  unfold exec. generalize (List.length s) as n. generalize (@nil char) as b.
  induction s as [|c s IH]; intros b n.
  - reflexivity.
  - cbn [search]. rewrite match_at_yieldRegex. cbn [match_digits].
    destruct (is_digit c); [reflexivity | apply IH].
Qed.

(** The group of [/(\d+)/] takes part in every match. *)
Lemma yieldRegex_group_1 s m :
  exec yieldRegex s = Some m -> exists ds, group 1 m = Some ds.
Proof.
  unfold exec. generalize (List.length s) as n. generalize (@nil char) as b.
  induction s as [|c s IH]; intros b n; cbn [search];
    rewrite match_at_yieldRegex.
  - discriminate.
  - destruct (is_digit c); [|apply IH].
    intros H. injection H as <-. unfold group. cbn. eauto.
Qed.

(** *** [/PT(?:(\d+)H)?(?:(\d+)M)?/] *)

Lemma match_literal_startsWith p s :
  match_literal char_eqb p s
  = if startsWith p s then Some (skipn (List.length p) s) else None.
Proof.
  revert s; induction p as [|a p IH]; intros s; [reflexivity|].
  destruct s as [|b s]; [reflexivity|]. simpl.
  destruct (char_eqb a b); [apply IH | reflexivity].
Qed.

Lemma run_Opt_total n r s caps (k : Cont) :
  k s caps <> None -> run n (Opt r) s caps k <> None.
Proof.
  intros H. cbn [run]. destruct (run n r s caps k); [discriminate | exact H].
Qed.

(** [(?:(\d+)X)?] before a continuation that cannot fail.  [\d+] is
    greedy; giving digits back never helps, because what would then
    follow is a digit and not the letter [x]. *)
Lemma run_optional_digits_then n i x s caps (k : Cont) :
  is_digit x = false ->
  (forall s' caps', k s' caps' <> None) ->
  run n (Opt (Seq (Group i digits) (Chr (is_char x)))) s caps k
  = let (capture, rest) := optional_digits_then x s in
    k rest (match capture with
            | Some ds => (i, ds) :: caps
            | None => caps
            end).
Proof.
  intros Hx Hk. unfold optional_digits_then, digits. cbn [run].
  destruct s as [|c s1]; [reflexivity|].
  pose proof (firstn_span_digits (c :: s1)) as Hcap.
  cbn [span_digits] in *.
  destruct (is_digit c) eqn:Hc; [|reflexivity].
  rewrite rep_greedy.
  2:{ right. intros c' r' Hc'. unfold is_char, char_eqb.
      destruct (c' =? x)%N eqn:E; [|reflexivity].
      apply N.eqb_eq in E. subst. congruence. }
  rewrite drop_while_digit.
  destruct (span_digits s1) as [ds r]. cbn [fst snd] in *.
  destruct r as [|c' r']; [reflexivity|].
  unfold is_char. destruct (char_eqb c' x); [|reflexivity].
  rewrite Hcap. cbv beta iota. apply orelse_not_None, Hk.
Qed.

Lemma match_at_durationRegex n s :
  match match_at n durationRegex s with
  | Some (_, caps) => Some (lookup_capture 1 caps, lookup_capture 2 caps)
  | None => None
  end
  = if startsWith (lit "PT") s then
      let (h, r1) := optional_digits_then 72%N (skipn 2 s) in
      let (m, _) := optional_digits_then 77%N r1 in
      Some (h, m)
    else None.
Proof.
  unfold match_at, durationRegex.
  rewrite run_Seq, run_literal, match_literal_startsWith.
  destruct (startsWith (lit "PT") s); [|reflexivity].
  change (List.length (lit "PT")) with 2%nat.
  rewrite run_Seq, run_optional_digits_then; [|reflexivity|].
  2:{ intros s' caps'. now apply run_Opt_total. }
  destruct (optional_digits_then 72%N (skipn 2 s)) as [h r1].
  rewrite run_optional_digits_then; [|reflexivity|discriminate].
  destruct (optional_digits_then 77%N r1) as [m r2].
  destruct h, m; reflexivity.
Qed.

(** The expression is not anchored, so the match starts at the first
    occurrence of [PT]; both groups being optional, the rest of the
    pattern cannot fail there. *)
Lemma exec_durationRegex s :
  match exec durationRegex s with
  | Some m => Some (group 1 m, group 2 m)
  | None => None
  end = match_durationRegex s.
Proof.
  unfold exec, group.
  generalize (List.length s) as n. generalize (@nil char) as b.
  induction s as [|c s IH]; intros b n.
  - reflexivity.
  - cbn [search match_durationRegex].
    pose proof (match_at_durationRegex n (c :: s)) as E.
    destruct (match_at n durationRegex (c :: s)) as [[rest caps]|].
    + cbn [captures]. rewrite E.
      destruct (startsWith (lit "PT") (c :: s)); [reflexivity|discriminate].
    + destruct (startsWith (lit "PT") (c :: s)).
      * destruct (optional_digits_then 72%N (skipn 2 (c :: s))) as [h r1].
        destruct (optional_digits_then 77%N r1); discriminate.
      * apply IH.
Qed.

(** *** [/^(Bearer|Token)\s+/i] *)

Lemma match_literal_ci_generic p s :
  match_literal_ci p s = match_literal char_eqb_ci p s.
Proof.
  revert s; induction p as [|a p IH]; intros [|b s]; simpl; try reflexivity.
  now rewrite IH.
Qed.

Lemma Bearer_is_not_Token s r :
  match_literal char_eqb_ci (lit "Bearer") s = Some r ->
  match_literal char_eqb_ci (lit "Token") s = None.
Proof.
  destruct s as [|b s]; [discriminate|].
  change (lit "Token") with (84%N :: lit "oken").
  change (lit "Bearer") with (66%N :: lit "earer").
  cbn [match_literal]. unfold char_eqb_ci, char_eqb.
  destruct (ascii_upper 66 =? ascii_upper b)%N eqn:E; [|discriminate].
  apply N.eqb_eq in E. intros _.
  destruct (ascii_upper 84 =? ascii_upper b)%N eqn:E'; [|reflexivity].
  apply N.eqb_eq in E'. rewrite <- E in E'. discriminate E'.
Qed.

(** [\s+] is greedy and nothing follows it. *)
Lemma run_whitespace_last n r caps :
  match run n whitespace r caps (fun rest caps' => Some (rest, caps')) with
  | Some (rest, _) => Some rest
  | None => None
  end
  = match r with
    | c :: r' => if is_whitespace c then Some (trimStart r') else None
    | [] => None
    end.
Proof.
  destruct r as [|c r']; [reflexivity|]. unfold whitespace. cbn [run].
  destruct (is_whitespace c); [|reflexivity].
  rewrite rep_greedy by (left; discriminate).
  now rewrite drop_while_whitespace.
Qed.

Lemma match_at_schemePrefix s :
  match match_at (List.length s) schemePrefix s with
  | Some (rest, _) => Some rest
  | None => None
  end = match_schemePrefix s.
Proof.
  unfold match_at, schemePrefix, match_schemePrefix.
  rewrite !match_literal_ci_generic.
  rewrite run_Seq, run_Bos, run_Seq, run_Group, run_Alt, !run_literal.
  destruct (match_literal char_eqb_ci (lit "Bearer") s) as [r|] eqn:EB.
  - rewrite (Bearer_is_not_Token _ EB), orelse_None_r.
    apply run_whitespace_last.
  - cbn [orelse].
    destruct (match_literal char_eqb_ci (lit "Token") s) as [r|];
      [apply run_whitespace_last | reflexivity].
Qed.

Lemma exec_schemePrefix s :
  match exec schemePrefix s with
  | Some m => Some (leftContext m, rightContext m)
  | None => None
  end
  = match match_schemePrefix s with
    | Some rest => Some ([], rest)
    | None => None
    end.
Proof.
  unfold exec. rewrite <- match_at_schemePrefix.
  destruct s as [|c s]; cbn [search].
  - now destruct (match_at _ schemePrefix []) as [[rest caps]|].
  - destruct (match_at _ schemePrefix (c :: s)) as [[rest caps]|];
      [reflexivity|].
    unfold schemePrefix. rewrite search_Bos_fails; [reflexivity|].
    simpl. lia.
Qed.

Lemma replace_schemePrefix s :
  replace schemePrefix [] s = strip_schemePrefix s.
Proof.
  unfold replace, strip_schemePrefix.
  pose proof (exec_schemePrefix s) as E.
  destruct (exec schemePrefix s) as [m|], (match_schemePrefix s) as [rest|];
    try discriminate E; [|reflexivity].
  injection E as -> ->. reflexivity.
Qed.

Lemma has_schemePrefix_closed s :
  has_schemePrefix s
  = match match_schemePrefix s with
    | Some _ => true
    | None => false
    end.
Proof.
  unfold has_schemePrefix. pose proof (exec_schemePrefix s) as E.
  now destruct (exec schemePrefix s), (match_schemePrefix s).
Qed.

(** *** [/^[\s\S]*?\{/] *)

(** The lazy star stops at the first brace. *)
Lemma rep_lazy_until x s caps :
  rep true any s caps
    (fun s' caps' =>
       match s' with
       | c :: r => if is_char x c then Some (r, caps') else None
       | [] => None
       end)
  = match from_first x s with
    | Some (_ :: r) => Some (r, caps)
    | _ => None
    end.
Proof.
  induction s as [|c s IH]; [reflexivity|].
  cbn [rep any from_first]. unfold is_char at 1.
  destruct (char_eqb c x); [reflexivity|]. cbn [orelse]. exact IH.
Qed.

Lemma from_first_head x s t : from_first x s = Some t -> exists r, t = x :: r.
Proof.
  induction s as [|c s IH]; [discriminate|]. simpl.
  destruct (char_eqb c x) eqn:E; [|exact IH].
  intros H. injection H as <-. apply N.eqb_eq in E. subst. eauto.
Qed.

Lemma replace_leadingText s :
  replace leadingText (lit "{") s = drop_before_first_brace s.
Proof.
  unfold replace, exec, drop_before_first_brace.
  assert (E : match_at (List.length s) leadingText s
              = match from_first open_brace s with
                | Some (_ :: r) => Some (r, [])
                | _ => None
                end).
  { unfold match_at, leadingText. rewrite run_Seq, run_Bos.
    cbn [run]. apply rep_lazy_until. }
  destruct s as [|c s]; cbn [search]; rewrite E.
  - reflexivity.
  - destruct (from_first open_brace (c :: s)) as [t|] eqn:F.
    + destruct (from_first_head _ _ F) as [r ->]. reflexivity.
    + unfold leadingText. rewrite search_Bos_fails; [reflexivity|].
      simpl. lia.
Qed.

(** *** [/\}[^}]*$/] *)

Lemma drop_while_not_char_nil x s :
  ~ In x s -> drop_while (not_char x) s = [].
Proof.
  induction s as [|c s IH]; intros H; [reflexivity|]. simpl.
  unfold not_char, is_char at 1.
  destruct (char_eqb c x) eqn:E.
  - apply N.eqb_eq in E. subst. exfalso. apply H. now left.
  - apply IH. intros H'. apply H. now right.
Qed.

Lemma drop_while_not_char_cons x s :
  In x s -> exists r, drop_while (not_char x) s = x :: r.
Proof.
  induction s as [|c s IH]; intros H; [destruct H|]. simpl.
  unfold not_char, is_char at 1.
  destruct (char_eqb c x) eqn:E.
  - apply N.eqb_eq in E. subst. simpl. eauto.
  - simpl. apply IH. destruct H as [H|H]; [|exact H].
    subst. unfold char_eqb in E. now rewrite N.eqb_refl in E.
Qed.

Lemma match_at_trailingText n s :
  match_at n trailingText s
  = match s with
    | c :: r =>
        if is_char close_brace c then
          match drop_while (not_char close_brace) r with
          | [] => Some ([], [])
          | _ :: _ => None
          end
        else None
    | [] => None
    end.
Proof.
  unfold match_at, trailingText. rewrite run_Seq. cbn [run].
  destruct s as [|c r]; [reflexivity|].
  destruct (is_char close_brace c); [|reflexivity].
  rewrite rep_greedy by (right; reflexivity).
  now destruct (drop_while (not_char close_brace) r).
Qed.

Lemma search_trailingText_none n b s :
  ~ In close_brace s -> search n trailingText b s = None.
Proof.
  revert b. induction s as [|c s IH]; intros b H; [reflexivity|].
  cbn [search]. rewrite match_at_trailingText.
  unfold is_char. destruct (char_eqb c close_brace) eqn:E.
  - apply N.eqb_eq in E. subst. exfalso. apply H. now left.
  - apply IH. intros H'. apply H. now right.
Qed.

(** The leftmost brace that no other brace follows is the last one. *)
Lemma search_trailingText_last n b a t :
  ~ In close_brace t ->
  search n trailingText b (a ++ close_brace :: t)
  = Some {| leftContext := rev b ++ a;
            matched := close_brace :: t;
            rightContext := [];
            captures := [] |}.
Proof.
  intros Ht. revert b. induction a as [|c a IH]; intros b.
  - cbn [app search]. rewrite match_at_trailingText.
    change (is_char close_brace close_brace) with true. cbv iota.
    rewrite drop_while_not_char_nil by exact Ht.
    rewrite app_nil_r. cbn [List.length]. rewrite Nat.sub_0_r.
    change (S (List.length t)) with (List.length (close_brace :: t)).
    now rewrite firstn_all.
  - cbn [app search]. rewrite match_at_trailingText.
    destruct (drop_while_not_char_cons close_brace (a ++ close_brace :: t))
      as [r ->]; [apply in_or_app; right; now left|].
    rewrite IH. cbn [rev]. rewrite <- app_assoc.
    now destruct (is_char close_brace c).
Qed.

(** The last occurrence of [x] in [s], if there is one. *)
Lemma last_occurrence (x : char) (s : jsstring) :
  ~ In x s \/ exists a t, s = a ++ x :: t /\ ~ In x t.
Proof.
  induction s as [|c s IH]; [left; intros []|].
  destruct IH as [H | (a & t & -> & Ht)].
  - destruct (char_eqb c x) eqn:E.
    + apply N.eqb_eq in E. subst. right. exists [], s. now split.
    + left. intros [H'|H']; [|now apply H].
      subst. unfold char_eqb in E. now rewrite N.eqb_refl in E.
  - right. exists (c :: a), t. now split.
Qed.

Lemma from_first_none x s : ~ In x s -> from_first x s = None.
Proof.
  induction s as [|c s IH]; intros H; [reflexivity|]. simpl.
  destruct (char_eqb c x) eqn:E.
  - apply N.eqb_eq in E. subst. exfalso. apply H. now left.
  - apply IH. intros H'. apply H. now right.
Qed.

Lemma from_first_at (x : char) (a b : jsstring) :
  ~ In x a -> from_first x (a ++ x :: b) = Some (x :: b).
Proof.
  induction a as [|c a IH]; intros Hx; simpl.
  - now rewrite char_eqb_refl.
  - destruct (char_eqb c x) eqn:E.
    + apply char_eqb_eq in E. subst. exfalso. apply Hx. now left.
    + apply IH. intros H. apply Hx. now right.
Qed.

Lemma replace_trailingText s :
  replace trailingText (lit "}") s = drop_after_last_brace s.
Proof.
  unfold replace, exec, drop_after_last_brace.
  destruct (last_occurrence close_brace s) as [H | (a & t & -> & Ht)].
  - rewrite search_trailingText_none by exact H.
    rewrite from_first_none; [reflexivity|].
    intros H'. apply H. now apply in_rev.
  - rewrite search_trailingText_last by exact Ht.
    rewrite rev_app_distr. cbn [rev]. rewrite <- app_assoc. cbn [app].
    rewrite from_first_at by (intros H'; apply Ht; now apply in_rev).
    cbn [leftContext rightContext rev]. now rewrite rev_involutive.
Qed.

(** *** [/\/$/] *)

Lemma match_at_trailingSlash n s :
  match_at n Client.trailingSlash s
  = match s with
    | [c] => if char_eqb c 47%N then Some ([], []) else None
    | _ => None
    end.
Proof.
  unfold match_at, Client.trailingSlash. rewrite run_Seq. cbn [run].
  destruct s as [|c [|d r]]; try reflexivity.
  now destruct (is_char 47%N c).
Qed.

Lemma search_trailingSlash n b a c :
  search n Client.trailingSlash b (a ++ [c])
  = if char_eqb c 47%N
    then Some {| leftContext := rev b ++ a; matched := [c];
                 rightContext := []; captures := [] |}
    else None.
Proof.
  revert b. induction a as [|d a IH]; intros b.
  - cbn [app search]. rewrite !match_at_trailingSlash.
    rewrite app_nil_r. now destruct (char_eqb c 47%N).
  - assert (E : match_at n Client.trailingSlash ((d :: a) ++ [c]) = None)
      by (rewrite match_at_trailingSlash; now destruct a).
    cbn [app search] in *. rewrite E, IH. cbn [rev].
    now rewrite <- app_assoc.
Qed.

Lemma replace_trailingSlash s :
  replace Client.trailingSlash [] s = remove_trailing_slash s.
Proof.
  unfold replace, exec, remove_trailing_slash.
  destruct (rev s) as [|c r] eqn:E.
  - apply (f_equal (@rev char)) in E. rewrite rev_involutive in E.
    now subst.
  - apply (f_equal (@rev char)) in E. rewrite rev_involutive in E.
    cbn [rev] in E. subst s. rewrite search_trailingSlash.
    destruct (char_eqb c 47%N); [|reflexivity].
    cbn [leftContext rightContext rev app]. apply app_nil_r.
Qed.

(** *** A literal with the [g] flag *)

Lemma startsWith_length (p s : jsstring) :
  startsWith p s = true -> (List.length p <= List.length s)%nat.
Proof.
  revert s; induction p as [|a p IH]; intros [|b s]; simpl; try lia; try easy.
  intros H. apply andb_true_iff in H as [_ H]. apply IH in H. lia.
Qed.

Lemma match_at_literal n p s :
  match_at n (literal char_eqb p) s
  = if startsWith p s then Some (skipn (List.length p) s, []) else None.
Proof.
  unfold match_at. rewrite run_literal, match_literal_startsWith.
  now destruct (startsWith p s).
Qed.

Lemma replace_all_from_literal n p skip s :
  p <> [] ->
  replace_all_from n (literal char_eqb p) [] skip s
  = remove_all_from p skip s.
Proof.
  intros Hp. revert skip.
  induction s as [|c s IH]; intros skip.
  - cbn [replace_all_from remove_all_from].
    destruct skip; [|reflexivity]. now destruct (match_at _ _ _).
  - cbn [replace_all_from remove_all_from].
    destruct skip as [|k]; [|apply IH].
    rewrite match_at_literal.
    destruct (startsWith p (c :: s)) eqn:E; [|now rewrite IH].
    pose proof (startsWith_length _ _ E) as Hl.
    rewrite length_skipn.
    destruct p as [|a p]; [congruence|].
    cbn [List.length] in *.
    replace (S (List.length s) - (S (List.length s) - S (List.length p)))%nat
      with (S (List.length p)) by lia.
    cbn [app]. rewrite IH. f_equal. lia.
Qed.

Lemma replace_all_literal p s :
  p <> [] -> replace_all (literal char_eqb p) [] s = remove_all p s.
Proof.
  intros. unfold replace_all, remove_all. now apply replace_all_from_literal.
Qed.

(** *** [/\s+/g] *)

Lemma trimStart_length s : (List.length (trimStart s) <= List.length s)%nat.
Proof.
  induction s as [|c s IH]; simpl; [lia|].
  destruct (is_whitespace c); simpl; lia.
Qed.

Lemma match_at_whitespace n s :
  match_at n whitespace s
  = match s with
    | c :: r => if is_whitespace c then Some (trimStart r, []) else None
    | [] => None
    end.
Proof.
  unfold match_at, whitespace. cbn [run].
  destruct s as [|c r]; [reflexivity|].
  destruct (is_whitespace c); [|reflexivity].
  rewrite rep_greedy by (left; discriminate).
  now rewrite drop_while_whitespace.
Qed.

Lemma replace_all_from_whitespace n s :
  replace_all_from n whitespace (lit " ") 0 s
  = collapse_whitespace false s
  /\ replace_all_from n whitespace (lit " ")
       (List.length s - List.length (trimStart s)) s
     = collapse_whitespace true s.
Proof.
  induction s as [|c s [IH0 IH1]]; [now split|].
  pose proof (trimStart_length s) as Hl.
  assert (H0 : replace_all_from n whitespace (lit " ") 0 (c :: s)
               = collapse_whitespace false (c :: s)).
  { cbn [replace_all_from collapse_whitespace].
    rewrite match_at_whitespace.
    destruct (is_whitespace c).
    - cbn [List.length].
      replace (S (List.length s) - List.length (trimStart s))%nat
        with (S (List.length s - List.length (trimStart s))) by lia.
      cbn [app lit]. now rewrite IH1.
    - now rewrite IH0. }
  split; [exact H0|].
  cbn [trimStart collapse_whitespace].
  destruct (is_whitespace c) eqn:Hc.
  - cbn [List.length].
    replace (S (List.length s) - List.length (trimStart s))%nat
      with (S (List.length s - List.length (trimStart s))) by lia.
    cbn [replace_all_from]. exact IH1.
  - rewrite Nat.sub_diag, H0. cbn [collapse_whitespace]. now rewrite Hc.
Qed.

Lemma replace_all_whitespace s :
  replace_all whitespace (lit " ") s = collapse_whitespace false s.
Proof. apply replace_all_from_whitespace. Qed.

(** *** The functions in closed form *)

Lemma parseDuration_closed (isoDuration : option jsstring) :
  parseDuration isoDuration
  = match isoDuration with
    | None => Num 0
    | Some s =>
        if negb (truthy_string s) then Num 0
        else
          match match_durationRegex s with
          | None => Num 0
          | Some (m1, m2) =>
              number_add (number_mul (parseInt10 (or_zero m1)) (Num 60))
                (parseInt10 (or_zero m2))
          end
    end.
Proof.
  unfold parseDuration. destruct isoDuration as [s|]; [|reflexivity].
  destruct (negb (truthy_string s)); [reflexivity|].
  rewrite <- exec_durationRegex. now destruct (exec durationRegex s).
Qed.

Lemma parseServings_closed (yieldValue : YieldValue) :
  parseServings yieldValue
  = if negb (truthy_yield yieldValue) then {| amount := Num 1; text := [] |}
    else
      match yieldValue with
      | YNumber n => {| amount := n; text := [] |}
      | YString s =>
          {| amount := match match_digits s with
                       | Some m1 => parseInt10 m1
                       | None => Num 1
                       end;
             text := trim s |}
      | YUndefined => {| amount := Num 1; text := [] |}
      end.
Proof.
  unfold parseServings. destruct (negb (truthy_yield yieldValue));
    [reflexivity|].
  destruct yieldValue as [|n|s]; try reflexivity.
  rewrite <- exec_yieldRegex.
  destruct (exec yieldRegex s) as [m|]; [|reflexivity].
  now destruct (group 1 m).
Qed.

Lemma cleanAuthToken_closed (token : jsstring) :
  cleanAuthToken token = trim (strip_schemePrefix token).
Proof. unfold cleanAuthToken. now rewrite replace_schemePrefix. Qed.

Lemma cleanJsonResponse_closed (text : jsstring) :
  cleanJsonResponse text
  = trim
      (drop_after_last_brace
         (drop_before_first_brace
            (remove_all fence (remove_all json_fence text)))).
Proof.
  unfold cleanJsonResponse.
  rewrite !replace_all_literal by discriminate.
  now rewrite replace_leadingText, replace_trailingText.
Qed.

End Regular_expressions.

(** ** parseDuration *)

Lemma optional_digits_then_hit (x : char) (ds r : jsstring) :
  ds <> [] -> all_digits ds -> is_digit x = false ->
  optional_digits_then x (ds ++ x :: r) = (Some ds, r).
Proof.
  intros Hne Hd Hx. unfold optional_digits_then.
  rewrite span_digits_run by (assumption || exact Hx).
  destruct ds; [congruence|]. now rewrite char_eqb_refl.
Qed.

Lemma optional_digits_then_miss (x : char) (ds r : jsstring) :
  all_digits ds -> stops_digits r ->
  match r with [] => True | c :: _ => char_eqb c x = false end ->
  optional_digits_then x (ds ++ r) = (None, ds ++ r).
Proof.
  intros Hd Hs Hx. unfold optional_digits_then.
  rewrite span_digits_run by assumption.
  destruct ds, r; try reflexivity. now rewrite Hx.
Qed.

Lemma or_zero_digits (ds : jsstring) : ds <> [] -> or_zero (Some ds) = ds.
Proof. destruct ds; [congruence | reflexivity]. Qed.

Lemma match_durationRegex_none (s : jsstring) :
  includes (lit "PT") s = false -> match_durationRegex s = None.
Proof.
  induction s as [|c s IH]; [reflexivity|].
  intros H. cbn [includes] in H. apply orb_false_iff in H as [H1 H2].
  cbn [match_durationRegex]. rewrite H1. auto.
Qed.

Lemma match_durationRegex_PT (r : jsstring) :
  match_durationRegex (lit "PT" ++ r)
  = let (h, r1) := optional_digits_then 72%N r in
    let (m, _) := optional_digits_then 77%N r1 in
    Some (h, m).
Proof. reflexivity. Qed.

Lemma digit_value_nonneg (c : char) : 0 <= digit_value c.
Proof. unfold digit_value. lia. Qed.

Lemma decimal_value_nonneg (ds : jsstring) : 0 <= decimal_value ds.
Proof.
  induction ds as [|c r IH]; cbn [decimal_value]; [lia|].
  pose proof (digit_value_nonneg c).
  assert (0 <= 10 ^ Z.of_nat (List.length r)) by (apply Z.pow_nonneg; lia).
  nia.
Qed.

Lemma component_value_nonneg (ds : option jsstring) : 0 <= component_value ds.
Proof. destruct ds; [apply decimal_value_nonneg | reflexivity]. Qed.

(** What [parseInt] makes of a capture, or of ['0'] in its place. *)
Lemma parseInt10_component (ds : option jsstring) :
  component_ok ds -> parseInt10 (or_zero ds) = Num (component_value ds).
Proof.
  destruct ds as [ds|]; [|reflexivity]. intros [Hne Hd].
  rewrite or_zero_digits by assumption. now apply parseInt10_decimal.
Qed.

(** Hours and minutes within the safe integers add up exactly. *)
Lemma minutes_exact (hours minutes : Z) :
  0 <= hours -> 0 <= minutes -> hours * 60 + minutes <= MAX_SAFE_INTEGER ->
  number_add (number_mul (Num hours) (Num 60)) (Num minutes)
  = Num (hours * 60 + minutes).
Proof.
  intros Hh Hm Hs. unfold MAX_SAFE_INTEGER in Hs.
  rewrite number_mul_Num by (unfold MAX_SAFE_INTEGER; lia).
  apply number_add_Num; unfold MAX_SAFE_INTEGER; lia.
Qed.

Lemma duration_minutes (hours minutes : option jsstring) :
  component_ok hours -> component_ok minutes ->
  component_value hours * 60 + component_value minutes <= MAX_SAFE_INTEGER ->
  number_add (number_mul (parseInt10 (or_zero hours)) (Num 60))
    (parseInt10 (or_zero minutes))
  = Num (component_value hours * 60 + component_value minutes).
Proof.
  intros Hh Hm Hs. rewrite !parseInt10_component by assumption.
  apply minutes_exact; auto using component_value_nonneg.
Qed.

(** C7, as the code has it.  A string [PT], then optionally digits
    and [H], then optionally digits and [M], parses to
    hours * 60 + minutes, a missing component counting for 0, as long
    as that total is a safe integer: the result is the number that is
    exactly this integer.  Absent input and input without [PT] parse
    to 0; the four examples of the specification. *)
Theorem parseDuration_total_minutes (hours minutes : option jsstring) :
  component_ok hours -> component_ok minutes ->
  component_value hours * 60 + component_value minutes <= MAX_SAFE_INTEGER ->
  parseDuration (Some (duration_string hours minutes))
  = Num (component_value hours * 60 + component_value minutes)
  /\ integer_value (parseDuration (Some (duration_string hours minutes)))
     = Some (component_value hours * 60 + component_value minutes)
  /\ parseDuration None = Num 0
  /\ (forall s, includes (lit "PT") s = false ->
                parseDuration (Some s) = Num 0)
  /\ parseDuration (Some (lit "PT1H30M")) = Num 90
  /\ parseDuration (Some (lit "PT45M")) = Num 45
  /\ parseDuration (Some (lit "garbage")) = Num 0.
Proof.
  intros Hh Hm Hs.
  assert (E : parseDuration (Some (duration_string hours minutes))
              = Num (component_value hours * 60 + component_value minutes)).
  { rewrite <- (duration_minutes hours minutes Hh Hm Hs).
    rewrite parseDuration_closed. unfold duration_string.
    change (negb (truthy_string (lit "PT" ++ ?r))) with false.
    cbn iota. rewrite match_durationRegex_PT.
    destruct hours as [hd|], minutes as [md|]; cbn [duration_component app];
      cbn [component_ok] in Hh, Hm.
    - destruct Hh as [Hh1 Hh2], Hm as [Hm1 Hm2].
      rewrite <- app_assoc. cbn [app].
      rewrite optional_digits_then_hit by easy.
      now rewrite optional_digits_then_hit by easy.
    - destruct Hh as [Hh1 Hh2]. rewrite app_nil_r.
      now rewrite optional_digits_then_hit by easy.
    - destruct Hm as [Hm1 Hm2].
      rewrite optional_digits_then_miss by (assumption || reflexivity).
      now rewrite optional_digits_then_hit by easy.
    - reflexivity. }
  split; [exact E|]. split; [|split; [|split]].
  - rewrite E. apply integer_value_Num.
    pose proof (component_value_nonneg hours).
    pose proof (component_value_nonneg minutes). lia.
  - reflexivity.
  - intros s Hn. rewrite parseDuration_closed.
    rewrite match_durationRegex_none by assumption.
    now destruct (negb (truthy_string s)).
  - repeat split.
Qed.

Lemma parseDuration_total_minutes_witness :
  integer_value (parseDuration (Some (lit "PT2H05M"))) = Some 125.
Proof.
  refine (proj1 (proj2 (@parseDuration_total_minutes
                          (Some (lit "2")) (Some (lit "05")) _ _ _))).
  - split; [discriminate | reflexivity].
  - split; [discriminate | reflexivity].
  - discriminate.
Defined.

(** C7 as stated fails beyond the safe integers: 9007199254740993
    minutes are one more than a number can tell from
    9007199254740992, which is what comes back. *)
Lemma parseDuration_rounds_large_minutes :
  let minutes := Some (lit "9007199254740993") in
  component_ok None /\ component_ok minutes
  /\ integer_value (parseDuration (Some (duration_string None minutes)))
     = Some 9007199254740992
  /\ integer_value (parseDuration (Some (duration_string None minutes)))
     <> Some (component_value None * 60 + component_value minutes).
Proof.
  cbv zeta. split; [exact I|]. split; [split; [discriminate|reflexivity]|].
  split; [vm_compute; reflexivity|]. vm_compute. discriminate.
Qed.

(** ** parseServings *)

Lemma match_digits_Some (s ds : jsstring) :
  match_digits s = Some ds -> ds <> [] /\ all_digits ds.
Proof.
  destruct (string_digit_decomposition s)
    as [Hn | (pre & ds' & post & -> & Hp & Hne & Hd & Hs)].
  - now rewrite match_digits_none.
  - rewrite match_digits_first_run by assumption.
    intros H. injection H as <-. now split.
Qed.

(** C6, as the code has it.  A number that is neither a zero nor
    [NaN] is returned as the serving count with empty text; a string
    gives its first run of digits as the count, exactly when they
    denote a safe integer, and 1 when it has no digit, with the whole
    trimmed string as text; absent input gives count 1 and empty
    text. *)
Theorem parseServings_spec (n : number) (pre ds post plain : jsstring) :
  truthy_number n = true ->
  no_digit pre -> ds <> [] -> all_digits ds -> stops_digits post ->
  decimal_value ds <= MAX_SAFE_INTEGER ->
  no_digit plain ->
  parseServings (YNumber n) = {| amount := n; text := [] |}
  /\ parseServings (YString (pre ++ ds ++ post))
     = {| amount := Num (decimal_value ds);
          text := trim (pre ++ ds ++ post) |}
  /\ integer_value (amount (parseServings (YString (pre ++ ds ++ post))))
     = Some (decimal_value ds)
  /\ parseServings (YString plain) = {| amount := Num 1; text := trim plain |}
  /\ parseServings YUndefined = {| amount := Num 1; text := [] |}.
Proof.
  intros Hn Hpre Hne Hds Hpost Hsafe Hplain.
  assert (E : parseServings (YString (pre ++ ds ++ post))
              = {| amount := Num (decimal_value ds);
                   text := trim (pre ++ ds ++ post) |}).
  { rewrite parseServings_closed. cbn [truthy_yield].
    assert (Ht : truthy_string (pre ++ ds ++ post) = true).
    { destruct pre; [destruct ds; [congruence|]|]; reflexivity. }
    rewrite Ht. cbn [negb].
    rewrite match_digits_first_run by assumption.
    now rewrite parseInt10_decimal. }
  split; [|split; [exact E|split; [|split]]].
  - rewrite parseServings_closed. cbn [truthy_yield]. now rewrite Hn.
  - rewrite E. cbn [amount]. apply integer_value_Num.
    pose proof (decimal_value_nonneg ds). lia.
  - rewrite parseServings_closed. cbn [truthy_yield].
    destruct plain as [|c plain]; [reflexivity|]. cbn [truthy_string negb].
    now rewrite match_digits_none.
  - reflexivity.
Qed.

Lemma parseServings_spec_witness :
  parseServings (YString (lit "serves 12 people"))
  = {| amount := Num 12; text := lit "serves 12 people" |}.
Proof.
  refine (proj1 (proj2 (@parseServings_spec (Num 6)
            (lit "serves ") (lit "12") (lit " people") (lit "a few")
            _ _ _ _ _ _ _)));
    solve [discriminate | reflexivity].
Defined.

(** C6 as stated fails at three inputs.  The number 0 is not
    returned, and neither is [NaN]: both are falsy and give the count
    1.  The digits of 9007199254740993 are an integer that no number
    is: the count is 9007199254740992. *)
Lemma parseServings_zero_NaN_and_large_digits :
  parseServings (YNumber (Num 0)) <> {| amount := Num 0; text := [] |}
  /\ parseServings (YNumber NaN) <> {| amount := NaN; text := [] |}
  /\ match_digits (lit "9007199254740993") = Some (lit "9007199254740993")
  /\ integer_value
       (amount (parseServings (YString (lit "9007199254740993"))))
     = Some 9007199254740992
  /\ decimal_value (lit "9007199254740993") = 9007199254740993.
Proof.
  split; [discriminate|]. split; [discriminate|].
  split; [reflexivity|]. split; [vm_compute; reflexivity | reflexivity].
Qed.

Example parseDuration_examples :
  map (fun s => parseDuration (Some (lit s)))
    [ "PT2H"; "PT"; "P1DT2H"; "PT30S"; "xxPT5Myy"; "PT1H30"; "PT1.5H";
      "PT10M5H"; "PT01H05M" ]%string
  = map Num [120; 0; 0; 0; 5; 60; 0; 10; 65].
Proof. vm_compute. reflexivity. Qed.

Example parseServings_examples :
  map (fun s => parseServings (YString (lit s)))
    [ "4 servings"; "6-8 portions"; "serves 4"; "a dozen"; "  4  " ]%string
  = [ {| amount := Num 4; text := lit "4 servings" |};
      {| amount := Num 6; text := lit "6-8 portions" |};
      {| amount := Num 4; text := lit "serves 4" |};
      {| amount := Num 1; text := lit "a dozen" |};
      {| amount := Num 4; text := lit "4" |} ]
  /\ parseServings (YNumber (Num 6)) = {| amount := Num 6; text := [] |}.
Proof. split; vm_compute; reflexivity. Qed.

Section Servings_in_payload.

Import TandoorRoute.

Variables Quantity Amount : Type.
Variable amount_of_quantity : option Quantity -> Amount.
Variable zero : Amount.
Variable JSON_stringify : SourceStep -> jsstring.

(** C10, as the code has it.  The number 0 and the empty string are
    falsy: both give serving count 1 and empty text, so a numeric
    yield never reaches the external payload as a zero serving count.
    A zero count can only come from a string yield whose first run of
    digits denotes zero.  The same holds of the negative zero and of
    [NaN], the other falsy numbers. *)
Theorem parseServings_falsy_yield :
  parseServings (YNumber (Num 0)) = {| amount := Num 1; text := [] |}
  /\ parseServings (YString []) = {| amount := Num 1; text := [] |}
  /\ (forall n, amount (parseServings (YNumber n)) <> Num 0)
  /\ (forall data n,
        recipeYield data = YNumber n ->
        servings (buildTandoorPayload amount_of_quantity zero JSON_stringify
                    data) <> Num 0)
  /\ (forall y,
        amount (parseServings y) = Num 0 ->
        exists s ds,
          y = YString s /\ match_digits s = Some ds /\ decimal_value ds = 0)
  /\ (forall n,
        truthy_number n = false ->
        parseServings (YNumber n) = {| amount := Num 1; text := [] |})
  /\ (forall n, truthy_number (amount (parseServings (YNumber n))) = true)
  /\ (forall y,
        truthy_number (amount (parseServings y)) = false ->
        exists s ds,
          y = YString s /\ match_digits s = Some ds /\ decimal_value ds = 0).
Proof.
  assert (Hfalsy : forall n,
            truthy_number n = false ->
            parseServings (YNumber n) = {| amount := Num 1; text := [] |}).
  { intros n Hn. rewrite parseServings_closed. cbn [truthy_yield].
    now rewrite Hn. }
  assert (Htruthy : forall n,
            truthy_number (amount (parseServings (YNumber n))) = true).
  { intros n. rewrite parseServings_closed. cbn [truthy_yield].
    destruct (truthy_number n) eqn:E; cbn [negb amount];
      [exact E | reflexivity]. }
  assert (Hzero : forall y,
            truthy_number (amount (parseServings y)) = false ->
            exists s ds,
              y = YString s /\ match_digits s = Some ds
              /\ decimal_value ds = 0).
  { intros [|n|s] H0.
    - discriminate H0.
    - now rewrite Htruthy in H0.
    - rewrite parseServings_closed in H0. cbn [truthy_yield] in H0.
      destruct s as [|c s]; [discriminate H0|].
      cbn [truthy_string negb amount] in H0.
      destruct (match_digits (c :: s)) as [ds|] eqn:E; [|discriminate H0].
      exists (c :: s), ds. split; [reflexivity|]. split; [exact E|].
      destruct (match_digits_Some _ E) as [Hne Hd].
      rewrite parseInt10_decimal in H0 by assumption.
      pose proof (decimal_value_nonneg ds) as Hnn.
      destruct (Z.eq_dec (decimal_value ds) 0) as [Hz|Hz]; [exact Hz|].
      rewrite Num_truthy in H0 by lia. discriminate H0. }
  assert (Hnum : forall n, amount (parseServings (YNumber n)) <> Num 0).
  { intros n E. pose proof (Htruthy n) as T. now rewrite E in T. }
  split; [reflexivity|]. split; [reflexivity|]. split; [exact Hnum|].
  split; [|split; [|split; [exact Hfalsy | split; [exact Htruthy|exact Hzero]]]].
  - intros data n Hy. unfold buildTandoorPayload.
    cbn [servings]. rewrite Hy. apply Hnum.
  - intros y E. apply Hzero. now rewrite E.
Qed.

End Servings_in_payload.

(** C10 as stated fails for the string yield ["0 servings"]: the
    payload carries the serving count 0. *)
Lemma zero_servings_passed_through :
  TandoorRoute.servings
    (TandoorRoute.buildTandoorPayload (fun _ : option unit => tt) tt
       (fun _ => [])
       {| TandoorRoute.name := lit "Soup";
          TandoorRoute.description := None;
          TandoorRoute.steps := None;
          TandoorRoute.ingredients_of := None;
          TandoorRoute.url := None;
          TandoorRoute.image := None;
          TandoorRoute.prepTime := None;
          TandoorRoute.cookTime := None;
          TandoorRoute.recipeYield := YString (lit "0 servings") |})
  = Num 0.
Proof. reflexivity. Qed.

(** ** cleanAuthToken *)

(** C9 fails on the code at a token with white space before its one
    scheme prefix: the expression is anchored at the start of the
    token and the trimming comes after it, so the prefix stays, a
    second cleaning changes the token again, and the header the client
    builds has two scheme names. *)
Theorem cleanAuthToken_leading_space_keeps_prefix :
  let token := lit " Bearer abc123" in
  let client := Client.new_TandoorClient
                  {| Client.config_baseUrl := lit "http://tandoor.test/";
                     Client.config_token := token |} in
  has_schemePrefix token = false
  /\ cleanAuthToken token = lit "Bearer abc123"
  /\ has_schemePrefix (cleanAuthToken token) = true
  /\ cleanAuthToken (cleanAuthToken token) = lit "abc123"
  /\ Client.getAuthHeader client = lit "Token Bearer abc123"
  /\ cleanAuthToken (160%N :: lit "Bearer abc123") = lit "Bearer abc123".
Proof. repeat split. Qed.

Example cleanAuthToken_examples :
  map (fun s => cleanAuthToken (lit s))
    [ "abc123"; "Bearer abc123"; "token   abc123 "; "BEARER abc123";
      "Bearerabc123"; "Bearer Token abc123" ]%string
  = map lit
      [ "abc123"; "abc123"; "abc123"; "abc123"; "Bearerabc123";
        "Token abc123" ]%string.
Proof. reflexivity. Qed.

(** ** mapSteps *)

Lemma mapi_from_length {A B} (f : nat -> A -> B) (i : nat) (xs : list A) :
  List.length (mapi_from f i xs) = List.length xs.
Proof.
  revert i; induction xs as [|x xs IH]; intros i; simpl; [reflexivity|].
  now rewrite IH.
Qed.

Lemma mapi_from_Forall {A B} (P : B -> Prop) (f : nat -> A -> B) (xs : list A) :
  forall i, (forall j x, (i <= j)%nat -> P (f j x)) ->
  Forall P (mapi_from f i xs).
Proof.
  induction xs as [|x xs IH]; intros i H; simpl; constructor.
  - apply H. lia.
  - apply IH. intros j y Hj. apply H. lia.
Qed.

Lemma mapi_from_map {A B C} (g : B -> C) (f : nat -> A -> B) (h : A -> C)
  (xs : list A) :
  forall i, (forall j x, g (f j x) = h x) ->
  map g (mapi_from f i xs) = map h xs.
Proof.
  induction xs as [|x xs IH]; intros i H; simpl; [reflexivity|].
  now rewrite H, IH.
Qed.

Section Ingredient_attachment.

Import TandoorRoute.

Variables Quantity Amount : Type.
Variable amount_of_quantity : option Quantity -> Amount.
Variable zero : Amount.
Variable JSON_stringify : SourceStep -> jsstring.

(** C2.  With at least one source step, the payload has one step per
    source step, in order; the first carries all mapped ingredients
    and every other one carries none.  With no steps and at least one
    ingredient, the payload has the single step "Prepare ingredients"
    carrying all mapped ingredients. *)
Theorem mapSteps_attaches_ingredients_to_first
  (data : RecipePayload Quantity) :
  let payload :=
    buildTandoorPayload amount_of_quantity zero JSON_stringify data in
  let mapped := mapIngredients amount_of_quantity zero in
  (forall step more,
      steps data = Some (step :: more) ->
      exists first rest,
        p_steps payload = first :: rest
        /\ List.length rest = List.length more
        /\ map (@instruction _) (first :: rest)
           = map (step_body JSON_stringify) (step :: more)
        /\ ingredients first = mapped (ingredients_of data)
        /\ Forall (fun s : TandoorStep Amount => ingredients s = []) rest)
  /\ (forall ing more,
        steps data = None \/ steps data = Some [] ->
        ingredients_of data = Some (ing :: more) ->
        p_steps payload
        = [ {| instruction := lit "Prepare ingredients";
               ingredients := mapped (Some (ing :: more));
               show_ingredients_table := None |} ]
        /\ List.length (mapped (Some (ing :: more))) = S (List.length more)).
Proof.
  cbv zeta. split.
  - intros step more Hs.
    unfold buildTandoorPayload. cbn [p_steps]. rewrite Hs.
    unfold mapSteps, mapi. cbn [mapi_from].
    eexists _, _. split; [reflexivity|].
    split; [apply mapi_from_length|].
    split; [|split; [reflexivity|]].
    + cbn [map]. f_equal. now apply mapi_from_map.
    + apply mapi_from_Forall. intros [|j] x Hj; [lia | reflexivity].
  - intros ing more Hs Hi.
    unfold buildTandoorPayload. cbn [p_steps]. rewrite Hi.
    assert (E : mapSteps JSON_stringify (steps data)
                  (mapIngredients amount_of_quantity zero (Some (ing :: more)))
                = [ {| instruction := lit "Prepare ingredients";
                       ingredients :=
                         mapIngredients amount_of_quantity zero
                           (Some (ing :: more));
                       show_ingredients_table := None |} ]).
    { destruct Hs as [-> | ->]; reflexivity. }
    split; [exact E|].
    unfold mapIngredients. cbn [map List.length].
    now rewrite length_map.
Qed.

End Ingredient_attachment.

Lemma mapSteps_attaches_ingredients_to_first_witness :
  let data :=
    {| TandoorRoute.name := lit "Soup";
       TandoorRoute.description := None;
       TandoorRoute.steps := None;
       TandoorRoute.ingredients_of :=
         Some [TandoorRoute.IString unit (lit "water")];
       TandoorRoute.url := None;
       TandoorRoute.image := None;
       TandoorRoute.prepTime := None;
       TandoorRoute.cookTime := None;
       TandoorRoute.recipeYield := YUndefined |} in
  map (@TandoorRoute.instruction unit)
    (TandoorRoute.p_steps
       (TandoorRoute.buildTandoorPayload (fun _ : option unit => tt) tt
          (fun _ => []) data))
  = [lit "Prepare ingredients"].
Proof.
  intros data.
  pose proof (@mapSteps_attaches_ingredients_to_first unit unit
                (fun _ => tt) tt (fun _ => []) data) as H.
  cbv zeta in H. destruct H as [_ H].
  destruct (H (TandoorRoute.IString unit (lit "water")) [])
    as [E _]; [left; reflexivity | reflexivity |].
  rewrite E. reflexivity.
Defined.

(** ** Trimming and splitting *)

Lemma trimStart_idempotent (s : jsstring) : trimStart (trimStart s) = trimStart s.
Proof.
  induction s as [|c s IH]; simpl; [reflexivity|].
  destruct (is_whitespace c) eqn:E; [exact IH|]. simpl. now rewrite E.
Qed.

Lemma trimStart_fixed (c : char) (s : jsstring) :
  trimStart (c :: s) = c :: s -> is_whitespace c = false.
Proof.
  simpl. destruct (is_whitespace c); [|reflexivity].
  intros H. pose proof (trimStart_length s) as L. rewrite H in L.
  simpl in L. lia.
Qed.

Lemma trimStart_suffix (s : jsstring) : exists w, s = w ++ trimStart s.
Proof.
  induction s as [|c s [w IH]]; [now exists []|]. simpl.
  destruct (is_whitespace c).
  - exists (c :: w). simpl. now f_equal.
  - now exists [].
Qed.

Lemma trimStart_app_last (s : jsstring) (c : char) :
  is_whitespace c = false -> trimStart (s ++ [c]) = trimStart s ++ [c].
Proof.
  intros Hc. induction s as [|d s IH]; simpl; [now rewrite Hc|].
  now destruct (is_whitespace d).
Qed.

Lemma trimEnd_prefix (s : jsstring) : exists w, s = trimEnd s ++ w.
Proof.
  unfold trimEnd. destruct (trimStart_suffix (rev s)) as [w H].
  exists (rev w). rewrite <- rev_app_distr, <- H. now rewrite rev_involutive.
Qed.

Lemma trimEnd_idempotent (s : jsstring) : trimEnd (trimEnd s) = trimEnd s.
Proof. unfold trimEnd. now rewrite rev_involutive, trimStart_idempotent. Qed.

Lemma trimStart_trimEnd (s : jsstring) :
  trimStart s = s -> trimStart (trimEnd s) = trimEnd s.
Proof.
  destruct s as [|c s]; [reflexivity|]. intros H.
  apply trimStart_fixed in H. unfold trimEnd. cbn [rev].
  rewrite trimStart_app_last by assumption.
  rewrite rev_app_distr. simpl. now rewrite H.
Qed.

Lemma trim_idempotent (s : jsstring) : trim (trim s) = trim s.
Proof.
  unfold trim.
  rewrite (trimStart_trimEnd (trimStart_idempotent s)).
  apply trimEnd_idempotent.
Qed.

Lemma trimStart_In (x : char) (s : jsstring) : In x (trimStart s) -> In x s.
Proof.
  destruct (trimStart_suffix s) as [w H]. intros Hx. rewrite H.
  apply in_or_app. now right.
Qed.

Lemma trim_In (x : char) (s : jsstring) : In x (trim s) -> In x s.
Proof.
  unfold trim, trimEnd. intros H.
  apply in_rev, trimStart_In, in_rev in H. now apply trimStart_In.
Qed.

Lemma split_pieces (sep : char) (s : jsstring) :
  split sep s <> [] /\ Forall (fun piece => ~ In sep piece) (split sep s).
Proof.
  induction s as [|c s [Hne IH]]; simpl.
  - split; [discriminate | repeat constructor; easy].
  - destruct (char_eqb c sep) eqn:E.
    + split; [discriminate | constructor; [easy | exact IH]].
    + destruct (split sep s) as [|l ls]; [congruence|].
      split; [discriminate|]. inversion IH as [|? ? Hl Hls]; subst.
      constructor; [|exact Hls].
      intros [H|H]; [|now apply Hl].
      subst. now rewrite char_eqb_refl in E.
Qed.

(** Every line kept is a trimmed, non-empty piece of the split. *)
Lemma instruction_lines_clean (text : jsstring) :
  Forall (fun line => line <> [] /\ trim line = line
                      /\ ~ In Client.newline line)
    (Client.instruction_lines text).
Proof.
  unfold Client.instruction_lines. apply Forall_forall. intros line Hin.
  apply filter_In in Hin as [Hin Ht]. apply in_map_iff in Hin as [piece [<- Hp]].
  split; [|split].
  - intros E. rewrite E in Ht. discriminate Ht.
  - apply trim_idempotent.
  - intros H. apply trim_In in H.
    destruct (split_pieces Client.newline text) as [_ Hall].
    rewrite Forall_forall in Hall. now apply (Hall piece Hp).
Qed.

(** ** The lines of an instruction *)

Lemma blank_spec (ws : jsstring) :
  blank ws <->
  forallb is_whitespace ws = true /\ ~ In Client.newline ws.
Proof.
  unfold blank. change line_feed with Client.newline.
  induction ws as [|c ws IH]; cbn [forallb In].
  - tauto.
  - rewrite !andb_true_iff, IH, negb_true_iff. split.
    + intros [[Hw Hn] [Ha Hi]]. repeat split; try assumption.
      intros [E|E]; [|contradiction].
      subst c. now rewrite char_eqb_refl in Hn.
    + intros [[Hw Ha] Hi]. repeat split; try assumption; [|tauto].
      destruct (char_eqb c Client.newline) eqn:E; [|reflexivity].
      apply char_eqb_eq in E. subst c. tauto.
Qed.

Lemma trimStart_whitespace_app (ws s : jsstring) :
  forallb is_whitespace ws = true -> trimStart (ws ++ s) = trimStart s.
Proof.
  induction ws as [|c ws IH]; [reflexivity|]. cbn [forallb app trimStart].
  intros H. apply andb_true_iff in H as [Hc Hw]. rewrite Hc. auto.
Qed.

Lemma trimStart_tight (l : jsstring) : starts_tight l -> trimStart l = l.
Proof. destruct l as [|c l]; [reflexivity|]. cbn. now intros ->. Qed.

Lemma starts_tight_trimStart (s : jsstring) : starts_tight (trimStart s).
Proof.
  induction s as [|c s IH]; [exact I|]. cbn [trimStart].
  destruct (is_whitespace c) eqn:E; [exact IH | exact E].
Qed.

Lemma trimStart_whitespace (ws : jsstring) :
  forallb is_whitespace ws = true -> trimStart ws = [].
Proof.
  intros H. rewrite <- (app_nil_r ws). now rewrite trimStart_whitespace_app.
Qed.

Lemma forallb_rev {A} (f : A -> bool) (l : list A) :
  forallb f (rev l) = forallb f l.
Proof.
  induction l as [|x l IH]; [reflexivity|]. cbn [rev forallb].
  rewrite forallb_app, IH. cbn [forallb]. rewrite andb_true_r.
  apply andb_comm.
Qed.

(** Trimming a piece leaves its line. *)
Lemma trim_padded (p : Piece) : piece_ok p -> trim (padded p) = line p.
Proof.
  intros (Hb & (Hn & Hs & He) & Ha).
  apply blank_spec in Hb as [Hb _]. apply blank_spec in Ha as [Ha _].
  unfold trim, padded. rewrite trimStart_whitespace_app by exact Hb.
  destruct (line p) as [|c l] eqn:E.
  - cbn [app]. now rewrite trimStart_whitespace.
  - rewrite trimStart_tight by exact Hs.
    unfold trimEnd. rewrite rev_app_distr.
    rewrite trimStart_whitespace_app by now rewrite forallb_rev.
    rewrite trimStart_tight by exact He. apply rev_involutive.
Qed.

Lemma split_line (sep : char) (l : jsstring) :
  ~ In sep l -> split sep l = [l].
Proof.
  induction l as [|c l IH]; [reflexivity|]. intros H. cbn [split].
  destruct (char_eqb c sep) eqn:E.
  - apply char_eqb_eq in E. subst c. exfalso. apply H. now left.
  - rewrite IH; [reflexivity|]. intros Hi. apply H. now right.
Qed.

Lemma split_app_sep (sep : char) (l r : jsstring) :
  ~ In sep l -> split sep (l ++ sep :: r) = l :: split sep r.
Proof.
  induction l as [|c l IH]; intros H.
  - cbn [app split]. now rewrite char_eqb_refl.
  - cbn [app split]. destruct (char_eqb c sep) eqn:E.
    + apply char_eqb_eq in E. subst c. exfalso. apply H. now left.
    + rewrite IH; [reflexivity|]. intros Hi. apply H. now right.
Qed.

Lemma split_unlines (ls : list jsstring) :
  ls <> [] -> Forall (fun l => ~ In Client.newline l) ls ->
  split Client.newline (unlines ls) = ls.
Proof.
  induction ls as [|l [|l' ls] IH]; [congruence| |]; intros _ H.
  - inversion H; subst. now apply split_line.
  - inversion H as [|? ? Hl Hls]; subst.
    change (unlines (l :: l' :: ls))
      with (l ++ Client.newline :: unlines (l' :: ls)).
    rewrite split_app_sep by exact Hl.
    rewrite IH; [reflexivity | discriminate | exact Hls].
Qed.

Lemma unlines_split (s : jsstring) : unlines (split Client.newline s) = s.
Proof.
  induction s as [|c s IH]; [reflexivity|]. cbn [split].
  destruct (split_pieces Client.newline s) as [Hne _].
  destruct (char_eqb c Client.newline) eqn:E.
  - apply char_eqb_eq in E. subst c.
    destruct (split Client.newline s) as [|l ls]; [congruence|].
    change (unlines ([] :: l :: ls)) with (Client.newline :: unlines (l :: ls)).
    now rewrite IH.
  - destruct (split Client.newline s) as [|l [|l' ls]]; [congruence| |].
    + cbn [unlines] in *. now rewrite IH.
    + change (unlines ((c :: l) :: l' :: ls))
        with (c :: unlines (l :: l' :: ls)).
      now rewrite IH.
Qed.

Lemma padded_no_newline (p : Piece) :
  piece_ok p -> ~ In Client.newline (padded p).
Proof.
  intros (Hb & (Hn & _) & Ha).
  apply blank_spec in Hb as [_ Hb]. apply blank_spec in Ha as [_ Ha].
  unfold padded. rewrite !in_app_iff. tauto.
Qed.

(** The lines the code makes of the pieces put together are the lines
    of the pieces that are not empty. *)
Lemma instruction_lines_pieces (pieces : list Piece) :
  pieces <> [] -> Forall piece_ok pieces ->
  Client.instruction_lines (unlines (map padded pieces)) = kept_lines pieces.
Proof.
  intros Hne Hok. unfold Client.instruction_lines, kept_lines.
  rewrite split_unlines.
  - rewrite map_map. f_equal. apply map_ext_Forall.
    eapply Forall_impl; [|exact Hok]. intros p Hp. now apply trim_padded.
  - now destruct pieces.
  - apply Forall_map. eapply Forall_impl; [|exact Hok].
    intros p Hp. now apply padded_no_newline.
Qed.

Lemma trimStart_cut (s : jsstring) :
  exists w, s = w ++ trimStart s /\ forallb is_whitespace w = true.
Proof.
  induction s as [|c s (w & E & H)]; [now exists []|]. cbn [trimStart].
  destruct (is_whitespace c) eqn:Hc.
  - exists (c :: w). cbn [app forallb]. rewrite Hc, H. split; [|reflexivity].
    now f_equal.
  - now exists [].
Qed.

(** Every string without a newline is a piece. *)
Lemma piece_of_string (s : jsstring) :
  ~ In Client.newline s ->
  exists p, piece_ok p /\ padded p = s /\ line p = trim s.
Proof.
  intros Hn.
  destruct (trimStart_cut s) as (b & Eb & Hb).
  destruct (trimStart_cut (rev (trimStart s))) as (a & Ea & Ha).
  assert (E : s = b ++ trim s ++ rev a).
  { unfold trim, trimEnd. rewrite Eb at 1. f_equal.
    rewrite <- rev_app_distr, <- Ea. now rewrite rev_involutive. }
  exists {| before := b; line := trim s; after := rev a |}.
  unfold piece_ok, padded. cbn [before line after].
  split; [|split; [now symmetry | reflexivity]].
  assert (Hin : forall x, In x b \/ In x (trim s) \/ In x (rev a) -> In x s).
  { intros x H. rewrite E, !in_app_iff. tauto. }
  split; [|split].
  - apply blank_spec. split; [exact Hb|]. intros H. apply Hn, Hin. tauto.
  - split; [intros H; apply Hn, Hin; tauto|]. split.
    + unfold trim. rewrite <- trimStart_trimEnd by apply trimStart_idempotent.
      apply starts_tight_trimStart.
    + unfold trim, trimEnd. rewrite rev_involutive.
      apply starts_tight_trimStart.
  - apply blank_spec. split; [now rewrite forallb_rev|].
    intros H. apply Hn, Hin. tauto.
Qed.

Lemma pieces_of_strings (ss : list jsstring) :
  Forall (fun s => ~ In Client.newline s) ss ->
  exists pieces,
    Forall piece_ok pieces /\ map padded pieces = ss
    /\ map line pieces = map trim ss.
Proof.
  induction 1 as [|s ss Hs _ (pieces & Hok & Hp & Hl)].
  - now exists [].
  - destruct (@piece_of_string s Hs) as (p & Hpo & Hpp & Hpl).
    exists (p :: pieces). cbn [map]. rewrite Hp, Hl, Hpp, Hpl.
    repeat split. now constructor.
Qed.

Lemma includes_split (s : jsstring) :
  includes [Client.newline] s = true <->
  (2 <= List.length (split Client.newline s))%nat.
Proof.
  induction s as [|c s IH].
  - cbn. split; [discriminate | lia].
  - destruct (split_pieces Client.newline s) as [Hne _].
    cbn [includes startsWith split]. rewrite andb_true_r.
    unfold char_eqb at 1. rewrite N.eqb_sym. fold (char_eqb c Client.newline).
    destruct (char_eqb c Client.newline).
    + cbn [orb List.length].
      destruct (split Client.newline s); [congruence|]. cbn. split; [lia|auto].
    + cbn [orb]. rewrite IH.
      destruct (split Client.newline s) as [|l ls]; [congruence|].
      reflexivity.
Qed.

(** ** refineTandoorSteps *)

Section Step_splitting.

Import Client.

Variables I R : Type.

(** A step can be split exactly when the code finds a newline in its
    instruction and more than one line to keep. *)
Lemma splittable_lines (step : Step I R) (lines : list jsstring) :
  splittable step lines <->
  exists text,
    instruction step = Some text
    /\ includes [newline] text = true
    /\ lines = instruction_lines text
    /\ (1 < List.length lines)%nat.
Proof.
  split.
  - intros (pieces & Hi & Hok & Hl & -> & Hk).
    exists (unlines (map padded pieces)).
    assert (Hne : pieces <> []) by (destruct pieces; [simpl in Hl; lia | discriminate]).
    split; [exact Hi|]. split; [|split].
    + apply includes_split. rewrite split_unlines.
      * now rewrite length_map.
      * now destruct pieces.
      * apply Forall_map. eapply Forall_impl; [|exact Hok].
        intros p Hp. now apply padded_no_newline.
    + symmetry. now apply instruction_lines_pieces.
    + exact Hk.
  - intros (text & Hi & Hn & -> & Hk).
    destruct (split_pieces newline text) as [_ Hall].
    destruct (@pieces_of_strings _ Hall) as (pieces & Hok & Hp & Hl).
    assert (Hk' : kept_lines pieces = instruction_lines text).
    { unfold kept_lines, instruction_lines. now rewrite Hl. }
    exists pieces. rewrite Hk'.
    split; [now rewrite Hp, unlines_split|]. split; [exact Hok|].
    split; [|split; [reflexivity | exact Hk]].
    apply includes_split in Hn. rewrite <- Hp, length_map in Hn. exact Hn.
Qed.

Lemma includes_nil_false (p : jsstring) : p <> [] -> includes p [] = false.
Proof. destruct p; [congruence | reflexivity]. Qed.

Lemma refine_single (step : Step I R) :
  (forall lines, splittable step lines ->
     refineTandoorSteps [step] = mapi (split_step step) lines)
  /\ ((forall lines, ~ splittable step lines) ->
      refineTandoorSteps [step] = [step]).
Proof.
  unfold refineTandoorSteps. split.
  - intros lines Hs. apply splittable_lines in Hs.
    destruct Hs as (text & Hi & Hn & -> & Hl). rewrite Hi, Hn.
    assert (Ht : truthy_string text = true).
    { destruct text; [discriminate Hn | reflexivity]. }
    rewrite Ht. cbn [negb orb].
    apply Nat.leb_gt in Hl. now rewrite Hl.
  - intros Hno. destruct (instruction step) as [text|] eqn:Hi; [|reflexivity].
    destruct (negb (truthy_string text) || negb (includes [newline] text))
      eqn:Hg; [reflexivity|].
    apply orb_false_iff in Hg as [_ Hn]. apply negb_false_iff in Hn.
    destruct (List.length (instruction_lines text) <=? 1)%nat eqn:Hl;
      [reflexivity|].
    apply Nat.leb_gt in Hl. exfalso.
    apply (Hno (instruction_lines text)). apply splittable_lines.
    now exists text.
Qed.

(** C3.  The list is replaced only when it is one step whose
    instruction has a newline and more than one non-empty trimmed
    line; then there is one step per such line, in order, the first
    with the ingredients of the original step and its flag (true when
    absent), the others with no ingredients and a false flag.  One
    step without a newline and two or more steps are returned as they
    are. *)
Theorem refineTandoorSteps_splits_single_step (steps : list (Step I R)) :
  (refineTandoorSteps steps <> steps ->
     exists step lines, steps = [step] /\ splittable step lines)
  /\ (forall step lines,
        steps = [step] -> splittable step lines ->
        exists line more first rest,
          lines = line :: more
          /\ refineTandoorSteps steps = first :: rest
          /\ map instruction (first :: rest) = map Some lines
          /\ ingredients first = ingredients step
          /\ show_ingredients_table first
             = Some (flag_or_true (show_ingredients_table step))
          /\ Forall (fun s : Step I R =>
                       ingredients s = Some []
                       /\ show_ingredients_table s = Some false) rest
          /\ Forall (fun s : Step I R => other s = other step) (first :: rest)
          /\ Forall (fun l => l <> [] /\ trim l = l /\ ~ In newline l) lines)
  /\ (forall step,
        steps = [step] ->
        (forall text, instruction step = Some text ->
                      includes [newline] text = false) ->
        refineTandoorSteps steps = steps)
  /\ ((2 <= List.length steps)%nat -> refineTandoorSteps steps = steps).
Proof.
  split; [|split; [|split]].
  - intros Hne. destruct steps as [|step [|step' more]];
      try (exfalso; apply Hne; reflexivity).
    destruct (instruction step) as [text|] eqn:Hi.
    2:{ exfalso. apply Hne. unfold refineTandoorSteps. now rewrite Hi. }
    exists step, (instruction_lines text). split; [reflexivity|].
    apply splittable_lines.
    exists text. unfold refineTandoorSteps in Hne. rewrite Hi in Hne.
    destruct (negb (truthy_string text) || negb (includes [newline] text))
      eqn:Hg; [congruence|].
    apply orb_false_iff in Hg as [_ Hn]. apply negb_false_iff in Hn.
    destruct (List.length (instruction_lines text) <=? 1)%nat eqn:Hl;
      [congruence|].
    apply Nat.leb_gt in Hl. auto.
  - intros step lines -> Hs.
    rewrite (proj1 (refine_single step) lines Hs).
    apply splittable_lines in Hs.
    destruct Hs as (text & Hi & Hn & -> & Hl).
    pose proof (instruction_lines_clean text) as Htrim.
    destruct (instruction_lines text) as [|line more]; [simpl in Hl; lia|].
    unfold mapi. cbn [mapi_from].
    eexists line, more, _, _.
    split; [reflexivity|]. split; [reflexivity|].
    split; [|split; [reflexivity|split; [reflexivity|split; [|split]]]].
    + cbn [map instruction split_step]. f_equal. now apply mapi_from_map.
    + apply mapi_from_Forall. intros [|j] x Hj; [lia | now split].
    + constructor; [reflexivity|].
      apply mapi_from_Forall. intros j x _. reflexivity.
    + exact Htrim.
  - intros step -> Hno. apply (proj2 (refine_single step)).
    intros lines Hs. apply splittable_lines in Hs.
    destruct Hs as (text & Hi & Hn & _). rewrite (Hno text Hi) in Hn.
    discriminate.
  - intros Hl. destruct steps as [|s1 [|s2 more]]; simpl in Hl; try lia.
    reflexivity.
Qed.

End Step_splitting.

Example refine_chop_fry_serve :
  let step :=
    {| Client.instruction := Some (lit "Chop onions" ++ [10%N]
                                     ++ lit "Fry onions" ++ [10%N]
                                     ++ lit "Serve");
       Client.ingredients := Some [lit "onions"];
       Client.show_ingredients_table := None;
       Client.other := tt |} in
  Client.refineTandoorSteps [step]
  = [ {| Client.instruction := Some (lit "Chop onions");
         Client.ingredients := Some [lit "onions"];
         Client.show_ingredients_table := Some true;
         Client.other := tt |};
      {| Client.instruction := Some (lit "Fry onions");
         Client.ingredients := Some [];
         Client.show_ingredients_table := Some false;
         Client.other := tt |};
      {| Client.instruction := Some (lit "Serve");
         Client.ingredients := Some [];
         Client.show_ingredients_table := Some false;
         Client.other := tt |} ].
Proof. reflexivity. Qed.

Lemma refineTandoorSteps_splits_single_step_witness :
  let step :=
    {| Client.instruction := Some (lit "Mix" ++ [10%N] ++ lit " Bake ");
       Client.ingredients := Some [lit "flour"];
       Client.show_ingredients_table := None;
       Client.other := tt |} in
  map (@Client.instruction jsstring unit) (Client.refineTandoorSteps [step])
  = [Some (lit "Mix"); Some (lit "Bake")].
Proof.
  intros step.
  destruct (@refineTandoorSteps_splits_single_step jsstring unit [step])
    as (_ & H & _).
  destruct (H step [lit "Mix"; lit "Bake"] eq_refl)
    as (line & more & first & rest & _ & -> & E & _).
  - exists [ {| before := []; line := lit "Mix"; after := [] |};
             {| before := lit " "; line := lit "Bake"; after := lit " " |} ].
    split; [reflexivity|]. split; [|split; [|split]].
    + apply Forall_cons; [|apply Forall_cons; [|apply Forall_nil]];
        (split; [exact eq_refl|]; split; [|exact eq_refl];
         split; [|split; exact eq_refl];
         intros Hin; cbv in Hin; repeat destruct Hin as [Hin|Hin];
         discriminate Hin || exact Hin).
    + simpl. lia.
    + reflexivity.
    + simpl. lia.
  - exact E.
Defined.

(** ** The authentication fallback *)

Lemma get_set_header (name value : jsstring) (hs : list (jsstring * jsstring)) :
  Client.get_header name (Client.set_header name value hs) = Some value.
Proof.
  induction hs as [|[k v] hs IH]; simpl.
  - now rewrite str_eqb_refl.
  - destruct (str_eqb k name) eqn:E; simpl; now rewrite E.
Qed.

Section Auth_fallback.

Import Client.

Variable network : Network.
Variable URL_resolve : jsstring -> jsstring -> Outcome jsstring.
Variables Payload Data : Type.
Variable JSON_stringify : Payload -> jsstring.
Variable JSON_parse : jsstring -> Outcome Data.

Lemma fetchWithAuthFallback_runs (c : TandoorClient) (log : list Request)
  (url : jsstring) (options : RequestInit) :
  fetchWithAuthFallback network url options (c, log)
  = match network log (attempt Token c url options) with
    | Thrown e => (Thrown e, (c, log ++ [attempt Token c url options]))
    | Returned r1 =>
        if unauthorized r1 then
          (match network (log ++ [attempt Token c url options])
                   (attempt Bearer c url options) with
           | Returned r2 => Returned (r2, Bearer)
           | Thrown e => Thrown e
           end,
           (with_scheme c Bearer,
            log ++ [attempt Token c url options; attempt Bearer c url options]))
        else
          (Returned (r1, Token),
           (with_scheme c Token, log ++ [attempt Token c url options]))
    end.
Proof.
  unfold fetchWithAuthFallback, makeRequest, fetch, bind, ret, this,
    set_authScheme, attempt, with_scheme.
  cbn [fst snd].
  destruct (network log _) as [r1|e]; [|reflexivity].
  destruct (unauthorized r1); cbn [fst snd token baseUrl authScheme];
    [|reflexivity].
  rewrite <- app_assoc. cbn [app].
  destruct (network _ _); reflexivity.
Qed.

Lemma createRecipe_runs (c : TandoorClient) (log : list Request)
  (recipe : Payload) (targetUrl : jsstring) :
  URL_resolve (lit "/api/recipe/") (baseUrl c) = Returned targetUrl ->
  createRecipe network URL_resolve JSON_stringify JSON_parse recipe (c, log)
  = bind (fetchWithAuthFallback network targetUrl
            (createRecipe_options JSON_stringify recipe))
      (createRecipe_result JSON_parse) (c, log).
Proof.
  intros Hurl. unfold createRecipe, buildUrl.
  unfold bind at 1. unfold bind at 1. unfold this at 1. cbn [fst].
  unfold lift at 1. rewrite Hurl. reflexivity.
Qed.

Lemma createRecipe_result_state (r : Response * AuthScheme) (st : State) :
  snd (createRecipe_result JSON_parse r st) = st.
Proof.
  unfold createRecipe_result.
  destruct (ok (fst r) || (status (fst r) =? 201)); [|reflexivity].
  unfold bind, lift, ret. now destruct (JSON_parse _).
Qed.

(** C1, as the code has it.  Whatever scheme the client remembers, a
    request that goes through the fallback is first sent with the
    scheme [Token].  If the answer is neither 401 nor 403 nothing else
    is sent and the client remembers [Token].  If it is 401 or 403 the
    same request is sent once more with [Bearer] and the client
    remembers [Bearer].  So it is for [createRecipe]: its first
    attempt carries [Token] on every call; when the second attempt
    succeeds it returns the data of that answer.  The token and the
    base URL never change. *)
Theorem createRecipe_tries_Token_first
  (c : TandoorClient) (log : list Request)
  (url : jsstring) (options : RequestInit)
  (recipe : Payload) (targetUrl : jsstring) :
  URL_resolve (lit "/api/recipe/") (baseUrl c) = Returned targetUrl ->
  (let first := attempt Token c url options in
   let second := attempt Bearer c url options in
   let run := fetchWithAuthFallback network url options (c, log) in
   authorization first = Some (lit "Token " ++ token c)
   /\ authorization second = Some (lit "Bearer " ++ token c)
   /\ (exists rest, snd (snd run) = log ++ first :: rest)
   /\ (forall r1,
         network log first = Returned r1 -> unauthorized r1 = false ->
         run = (Returned (r1, Token), (with_scheme c Token, log ++ [first])))
   /\ (forall r1 r2,
         network log first = Returned r1 -> unauthorized r1 = true ->
         network (log ++ [first]) second = Returned r2 ->
         run = (Returned (r2, Bearer),
                (with_scheme c Bearer, log ++ [first; second]))))
  /\ (let first :=
        attempt Token c targetUrl (createRecipe_options JSON_stringify recipe) in
      let second :=
        attempt Bearer c targetUrl (createRecipe_options JSON_stringify recipe) in
      let run :=
        createRecipe network URL_resolve JSON_stringify JSON_parse recipe
          (c, log) in
      let c' := fst (snd run) in
      let log' := snd (snd run) in
      (exists rest, log' = log ++ first :: rest)
      /\ (forall r1,
            network log first = Returned r1 -> unauthorized r1 = false ->
            log' = log ++ [first] /\ authScheme c' = Token)
      /\ (forall r1,
            network log first = Returned r1 -> unauthorized r1 = true ->
            log' = log ++ [first; second] /\ authScheme c' = Bearer)
      /\ (forall r1 r2 d,
            network log first = Returned r1 -> unauthorized r1 = true ->
            network (log ++ [first]) second = Returned r2 ->
            ok r2 || (status r2 =? 201) = true ->
            JSON_parse (payload r2) = Returned d ->
            fst run
            = Returned {| data := Some d; error := None;
                          result_status := status r2 |})
      /\ token c' = token c /\ baseUrl c' = baseUrl c).
Proof.
  intros Hurl. split.
  - cbv zeta. rewrite fetchWithAuthFallback_runs.
    split; [apply get_set_header|]. split; [apply get_set_header|].
    split; [|split].
    + destruct (network log _) as [r1|e];
        [destruct (unauthorized r1)|]; cbn [snd]; eauto.
    + intros r1 H1 Hu. now rewrite H1, Hu.
    + intros r1 r2 H1 Hu H2. now rewrite H1, Hu, H2.
  - intros first second run c' log'.
    assert (E : run
                = bind (fetchWithAuthFallback network targetUrl
                          (createRecipe_options JSON_stringify recipe))
                    (createRecipe_result JSON_parse) (c, log))
      by now apply createRecipe_runs.
    assert (Hsnd : snd run
                   = snd (fetchWithAuthFallback network targetUrl
                            (createRecipe_options JSON_stringify recipe)
                            (c, log))).
    { rewrite E. unfold bind at 1.
      destruct (fetchWithAuthFallback _ _ _ _) as [[r|e] st]; [|reflexivity].
      apply createRecipe_result_state. }
    rewrite fetchWithAuthFallback_runs in Hsnd.
    fold first second in Hsnd. unfold c', log'.
    split; [|split; [|split; [|split]]].
    + rewrite Hsnd. destruct (network log first) as [r1|e].
      * destruct (unauthorized r1); cbn [snd]; eauto.
      * cbn [snd]. eauto.
    + intros r1 H1 Hu. rewrite Hsnd, H1, Hu. now split.
    + intros r1 H1 Hu. rewrite Hsnd, H1, Hu. now split.
    + intros r1 r2 d H1 Hu H2 Hok Hd. rewrite E. unfold bind at 1.
      rewrite fetchWithAuthFallback_runs. fold first second.
      rewrite H1, Hu, H2. unfold createRecipe_result. cbn [fst]. rewrite Hok.
      unfold bind, lift, ret. now rewrite Hd.
    + rewrite Hsnd. destruct (network log first) as [r1|e].
      * destruct (unauthorized r1); now split.
      * now split.
Qed.

(** The remembered scheme is what the image upload sends: its PUT is
    the one request of the client that is built with [getAuthHeader]. *)
Lemma uploadImageFromUrl_sends_remembered_scheme
  (c : TandoorClient) (log : list Request) (recipeId : integer)
  (imageUrl uploadUrl : jsstring) (image : Response) :
  network log (download_request imageUrl) = Returned image ->
  ok image = true ->
  URL_resolve (lit "/api/recipe/" ++ integer_to_string recipeId ++ lit "/image/")
    (baseUrl c) = Returned uploadUrl ->
  snd (uploadImageFromUrl network URL_resolve recipeId imageUrl (c, log))
  = (c, log ++ [download_request imageUrl; upload_request c uploadUrl image])
  /\ authorization (upload_request c uploadUrl image)
     = Some (scheme_name (authScheme c) ++ lit " " ++ token c).
Proof.
  intros Hget Hok Hurl. split; [|reflexivity].
  unfold download_request in *. unfold upload_request.
  unfold uploadImageFromUrl, buildUrl.
  cbv beta iota zeta delta [try_catch bind fetch this lift ret fst snd].
  rewrite Hget, Hok.
  cbv beta iota delta [negb]. rewrite Hurl.
  rewrite <- app_assoc. cbn [app].
  match goal with
  | |- context [network (log ++ ?l) ?u] =>
      destruct (network (log ++ l) u) as [r|e]
  end; [destruct (ok r)|]; reflexivity.
Qed.

End Auth_fallback.

Lemma createRecipe_tries_Token_first_witness :
  fst (test_createRecipe (test_client, []))
  = Returned {| Client.data := Some (lit "created");
                Client.error := None;
                Client.result_status := 201 |}.
Proof.
  pose proof (@createRecipe_tries_Token_first bearer_only test_resolve
                jsstring jsstring (fun recipe => recipe)
                (fun text => Returned text)
                test_client [] (lit "http://tandoor.test/api/recipe/")
                (createRecipe_options (fun recipe => recipe) (lit "recipe"))
                (lit "recipe")
                (lit "http://tandoor.test/api/recipe/") eq_refl) as H.
  cbv zeta in H.
  destruct H as (_ & _ & _ & _ & H & _).
  exact (H _ _ (lit "created") eq_refl eq_refl eq_refl eq_refl eq_refl).
Defined.

(** C1 as stated fails at the second [createRecipe] of a session with
    a service that accepts only [Bearer]: after the first call the
    client remembers [Bearer], and the second call still sends its
    first attempt with [Token]. *)
Lemma second_createRecipe_tries_Token_again :
  let after_first := snd (test_createRecipe (test_client, [])) in
  let after_second := snd (test_createRecipe after_first) in
  Client.authScheme (fst after_first) = Client.Bearer
  /\ map Client.authorization (snd after_second)
     = [ Some (lit "Token abc123"); Some (lit "Bearer abc123");
         Some (lit "Token abc123"); Some (lit "Bearer abc123") ]
  /\ option_map Client.authorization (nth_error (snd after_second) 2)
     <> Some (Some (Client.getAuthHeader (fst after_first))).
Proof. vm_compute. repeat split. discriminate. Qed.

Lemma uploadImageFromUrl_sends_remembered_scheme_witness :
  let after_first := snd (test_createRecipe (test_client, [])) in
  option_map Client.authorization
    (nth_error
       (snd (snd (Client.uploadImageFromUrl
                    (fun _ _ => Returned {| Client.status := 200;
                                            Client.payload := lit "bytes" |})
                    test_resolve 7 (lit "http://img.test/soup.jpg")
                    after_first)))
       3)
  = Some (Some (lit "Bearer abc123")).
Proof.
  cbv zeta.
  set (net := fun (_ : list Client.Request) (_ : Client.Request) =>
                Returned {| Client.status := 200;
                            Client.payload := lit "bytes" |}).
  destruct (@uploadImageFromUrl_sends_remembered_scheme net test_resolve
              (fst (snd (test_createRecipe (test_client, []))))
              (snd (snd (test_createRecipe (test_client, []))))
              7 (lit "http://img.test/soup.jpg")
              (lit "http://tandoor.test/api/recipe/7/image/")
              {| Client.status := 200; Client.payload := lit "bytes" |}
              eq_refl eq_refl eq_refl) as [H _].
  rewrite <- surjective_pairing in H. rewrite H. reflexivity.
Defined.

(** ** The content fetcher in the orchestrator *)

Section Orchestrator.

Import ExtractRoute.

Variable world : World.
Variable EXTRACTION_PROMPT : jsstring.

Lemma POST_with_key (req : Request) (key : jsstring) :
  x_gemini_api_key req = Some key -> truthy_string key = true ->
  POST world EXTRACTION_PROMPT req
  = try_catch
      (prepared <- prepare world req ;;
       match prepared with
       | inl response => ret response
       | inr (promptParts, sourceUrl) =>
           extract world EXTRACTION_PROMPT promptParts sourceUrl
       end)
      extraction_failed.
Proof. intros Hreq Hkey. unfold POST. now rewrite Hreq, Hkey. Qed.

Lemma prepare_url (key url : jsstring) (trace : list Effect) :
  prepare world (url_request key url) trace
  = match http_get world url with
    | Thrown _ => (Returned (inl FetchError), trace ++ [GET url])
    | Returned response =>
        match body_text response with
        | Thrown _ => (Returned (inl FetchError), trace ++ [GET url])
        | Returned html =>
            (Returned
               (inr ([TextPart (trim (replace_all whitespace (lit " ")
                                        (cheerio_body_text world html)))],
                     url)),
             trace ++ [GET url])
        end
    end.
Proof.
  unfold prepare, url_request.
  cbv beta iota delta [request_body content type].
  change (str_eqb (lit "url") (lit "url")) with true. cbv iota.
  unfold fetchUrlContent, perform, try_catch, bind, lift, ret.
  destruct (http_get world url) as [response|e]; [|reflexivity].
  destruct (body_text response); reflexivity.
Qed.

Lemma prepare_text (key pasted : jsstring) (trace : list Effect) :
  prepare world (text_request key pasted) trace
  = (Returned (inr ([TextPart pasted], [])), trace).
Proof. reflexivity. Qed.

Lemma normalizeImage_trace (image : option JSON) (trace : list Effect) :
  exists rest, snd (normalizeImage world image trace) = trace ++ rest.
Proof.
  unfold normalizeImage.
  destruct (negb _); [exists []; now rewrite app_nil_r|].
  match goal with
  | |- context [match ?c with Some _ => _ | None => _ end] =>
      destruct c as [[| | |s| |]|]
  end;
    try (exists []; now rewrite app_nil_r);
    try (unfold throw, ret; destruct (truthy _);
         exists []; now rewrite app_nil_r).
  destruct (truthy_string s && startsWith (lit "http") s);
    [|exists []; now rewrite app_nil_r].
  unfold try_catch, bind, perform, ret.
  destruct (http_head world s) as [check|e'].
  - destruct (ok check); eexists; reflexivity.
  - eexists; reflexivity.
Qed.

Lemma finish_answers (sourceUrl : jsstring) (recipe : JSON)
  (trace : list Effect) :
  match fst (finish world sourceUrl recipe trace) with
  | Returned (ErrorResponse _ _ _) => False
  | _ => True
  end
  /\ exists rest, snd (finish world sourceUrl recipe trace) = trace ++ rest.
Proof.
  destruct recipe;
    try (split; [exact I | exists []; unfold finish, throw, ret; cbn [snd];
                           now rewrite app_nil_r]).
  unfold finish, bind.
  match goal with
  | |- context [normalizeImage world ?image trace] =>
      destruct (normalizeImage_trace image trace) as [rest Hn]
  end.
  destruct (normalizeImage _ _ _) as [[image|e] trace'];
    cbn [snd] in Hn; subst trace';
    [|split; [exact I | cbn [snd]; eauto]].
  destruct (negb _); [|split; [exact I | unfold ret; cbn [snd]; eauto]].
  unfold lift, ret. destruct (generateFallbackImageUrl _);
    (split; [exact I | cbn [snd]; eauto]).
Qed.

Lemma extract_answers (promptParts : list PromptPart) (sourceUrl : jsstring)
  (trace : list Effect) :
  let run :=
    try_catch (extract world EXTRACTION_PROMPT promptParts sourceUrl)
      extraction_failed trace in
  fst run <> Returned FetchError
  /\ exists rest,
       snd run
       = trace ++ GENERATE (TextPart EXTRACTION_PROMPT :: promptParts) :: rest.
Proof.
  cbv zeta.
  unfold extract, extraction_failed, perform, try_catch, bind, lift, ret.
  destruct (generateContent world _) as [text|e].
  2:{ cbn [fst snd]. split; [discriminate | eauto]. }
  destruct (JSON_parse world (cleanJsonResponse text)) as [recipe|e].
  2:{ cbn [fst snd]. split; [discriminate | eauto]. }
  destruct (finish_answers sourceUrl recipe
              (trace ++ [GENERATE (TextPart EXTRACTION_PROMPT :: promptParts)]))
    as [Hresp [rest Htrace]].
  destruct (finish _ _ _ _) as [[[m s d|r]|e] trace'];
    cbn [fst snd] in *; subst trace'; rewrite <- app_assoc; cbn [app].
  - contradiction.
  - split; [discriminate | eauto].
  - split; [discriminate | eauto].
Qed.

(** C5, as the code has it.  For a URL input the answer is the
    FetchError exactly when the GET itself rejects or its body cannot
    be read; then that GET is all that was done.  An answer of the
    page server, whatever its status, is not a failure: its text goes
    to the model. *)
Theorem POST_FetchError_iff_retrieval_rejects (key url : jsstring) :
  truthy_string key = true ->
  let run := POST world EXTRACTION_PROMPT (url_request key url) [] in
  (fst run = Returned FetchError <-> retrieval_rejects world url = true)
  /\ (retrieval_rejects world url = true -> snd run = [GET url])
  /\ (forall response html,
        http_get world url = Returned response ->
        body_text response = Returned html ->
        exists rest,
          snd run
          = GET url
            :: GENERATE
                 [ TextPart EXTRACTION_PROMPT;
                   TextPart (trim (replace_all whitespace (lit " ")
                                     (cheerio_body_text world html))) ]
            :: rest).
Proof.
  intros Hkey run.
  assert (Erun :
    run
    = match http_get world url with
      | Thrown _ => (Returned FetchError, [GET url])
      | Returned response =>
          match body_text response with
          | Thrown _ => (Returned FetchError, [GET url])
          | Returned html =>
              try_catch
                (extract world EXTRACTION_PROMPT
                   [TextPart (trim (replace_all whitespace (lit " ")
                                      (cheerio_body_text world html)))] url)
                extraction_failed [GET url]
          end
      end).
  { unfold run.
    rewrite (@POST_with_key (url_request key url) key eq_refl Hkey).
    unfold try_catch at 1. unfold bind at 1. rewrite prepare_url.
    destruct (http_get world url) as [response|e]; [|reflexivity].
    destruct (body_text response); reflexivity. }
  clearbody run. subst run. unfold retrieval_rejects.
  destruct (http_get world url) as [response|e].
  2:{ cbn [fst snd]. repeat split; discriminate. }
  destruct (body_text response) as [html|e] eqn:Hbody.
  2:{ cbn [fst snd]. repeat split; try discriminate.
      intros r h Hr Hh. injection Hr as <-. congruence. }
  set (cleaned := trim _).
  destruct (extract_answers [TextPart cleaned] url [GET url])
    as [Hne [rest Ht]].
  cbn [app] in Ht. repeat split; try discriminate.
  - intros Hf. contradiction.
  - intros r h Hr Hh. injection Hr as <-.
    assert (h = html) by congruence. subst h. fold cleaned. eauto.
Qed.

End Orchestrator.


Lemma POST_FetchError_iff_retrieval_rejects_witness :
  ExtractRoute.POST offline test_prompt (url_request test_key test_url) []
  = (Returned FetchError, [ExtractRoute.GET test_url]).
Proof.
  destruct (@POST_FetchError_iff_retrieval_rejects offline test_prompt
              test_key test_url eq_refl) as [[_ H1] [H2 _]].
  specialize (H1 eq_refl). specialize (H2 eq_refl).
  destruct (ExtractRoute.POST offline test_prompt
              (url_request test_key test_url) []) as [answer trace].
  cbn [fst snd] in H1, H2. now rewrite H1, H2.
Defined.

(** C5 as stated fails at a page server that answers 404: there is no
    FetchError, the text of the error page goes to the model, and the
    answer of the handler is a record. *)
Lemma POST_no_FetchError_on_404 :
  let run :=
    ExtractRoute.POST page_not_found test_prompt
      (url_request test_key test_url) [] in
  fst run <> Returned FetchError
  /\ snd run
     = [ ExtractRoute.GET test_url;
         ExtractRoute.GENERATE
           [ ExtractRoute.TextPart test_prompt;
             ExtractRoute.TextPart (lit "Not Found") ] ]
  /\ exists recipe, fst run = Returned (ExtractRoute.RecipeResponse recipe).
Proof.
  vm_compute. split; [discriminate|]. split; [reflexivity|]. eauto.
Qed.


(** ** The image resolver *)

Lemma lookup_assign (key : jsstring) (v : ExtractRoute.JSON)
  (fields : list (jsstring * ExtractRoute.JSON)) :
  ExtractRoute.lookup key (ExtractRoute.assign key v fields) = Some v.
Proof.
  induction fields as [|[k v'] fields IH]; simpl.
  - now rewrite str_eqb_refl.
  - destruct (str_eqb k key) eqn:E; simpl; now rewrite E.
Qed.

Section Image_resolution.

Import ExtractRoute.

Variable world : World.
Variable EXTRACTION_PROMPT : jsstring.

(** When the handler answers with a record that was parsed as an
    object, the image of the record is a non-empty string. *)
Lemma finish_image_is_nonempty_string
  (sourceUrl : jsstring) (fields : list (jsstring * JSON))
  (trace : list Effect) (recipe : JSON) :
  fst (finish world sourceUrl (JObject fields) trace)
  = Returned (RecipeResponse recipe) ->
  exists fields' imageUrl,
    recipe = JObject fields'
    /\ lookup (lit "image") fields' = Some (JString imageUrl)
    /\ imageUrl <> [].
Proof.
  unfold finish, bind.
  destruct (normalizeImage _ _ _) as [[image|e] trace']; [|discriminate].
  rewrite lookup_assign.
  destruct image as [[|c imageUrl]|]; cbn [truthy_opt truthy truthy_string negb].
  - unfold lift, ret.
    destruct (generateFallbackImageUrl _) as [u|e] eqn:Hu; [|discriminate].
    intros H. injection H as <-. eexists _, u. split; [reflexivity|].
    split; [apply lookup_assign|].
    unfold generateFallbackImageUrl in Hu.
    match type of Hu with
    | match ?o with Returned _ => _ | Thrown _ => _ end = _ =>
        destruct o; [injection Hu as <-|discriminate]
    end.
    discriminate.
  - unfold ret. intros H. injection H as <-.
    eexists _, (c :: imageUrl). split; [reflexivity|].
    split; [apply lookup_assign | discriminate].
  - unfold lift, ret.
    destruct (generateFallbackImageUrl _) as [u|e] eqn:Hu; [|discriminate].
    intros H. injection H as <-. eexists _, u. split; [reflexivity|].
    split; [apply lookup_assign|].
    unfold generateFallbackImageUrl in Hu.
    match type of Hu with
    | match ?o with Returned _ => _ | Thrown _ => _ end = _ =>
        destruct o; [injection Hu as <-|discriminate]
    end.
    discriminate.
Qed.

(** C4 fails on the code at an image object whose [url] is not a
    string, here the number 5.  The candidate is taken, the call of
    [startsWith] on it throws outside the [try] of the resolver, and
    the handler answers with its parse error: no fallback image, no
    record. *)
Theorem POST_aborts_on_image_url_not_a_string (key pasted text : jsstring) :
  truthy_string key = true ->
  generateContent world [TextPart EXTRACTION_PROMPT; TextPart pasted]
  = Returned text ->
  JSON_parse world (cleanJsonResponse text)
  = Returned soup_with_numeric_image_url ->
  POST world EXTRACTION_PROMPT (text_request key pasted) []
  = (Returned (ParseError text),
     [GENERATE [TextPart EXTRACTION_PROMPT; TextPart pasted]]).
Proof.
  intros Hkey Hgen Hparse.
  rewrite (@POST_with_key world EXTRACTION_PROMPT
             (text_request key pasted) key eq_refl Hkey).
  unfold try_catch at 1. unfold bind at 1.
  rewrite prepare_text.
  unfold extract, perform, try_catch, bind, lift. cbn [app].
  rewrite Hgen, Hparse. reflexivity.
Qed.

End Image_resolution.

Lemma POST_aborts_on_image_url_not_a_string_witness :
  ExtractRoute.POST numeric_image_url_world test_prompt
    (text_request test_key (lit "Soup: boil water.")) []
  = (Returned (ParseError numeric_image_url_text),
     [ ExtractRoute.GENERATE
         [ ExtractRoute.TextPart test_prompt;
           ExtractRoute.TextPart (lit "Soup: boil water.") ] ]).
Proof.
  exact (@POST_aborts_on_image_url_not_a_string numeric_image_url_world
           test_prompt test_key (lit "Soup: boil water.")
           numeric_image_url_text eq_refl eq_refl eq_refl).
Defined.


(** ** cleanJsonResponse *)

Section Cleanup.

Import ExtractRoute.

(** A pattern without [x] cannot match across an [x]. *)
Lemma startsWith_before (x : char) (p a b : jsstring) :
  ~ In x p -> startsWith p (a ++ x :: b) = startsWith p a.
Proof.
  revert a; induction p as [|c p IH]; intros a Hx; [now destruct a|].
  destruct a as [|d a]; simpl.
  - destruct (char_eqb c x) eqn:E; [|reflexivity].
    apply char_eqb_eq in E. subst. exfalso. apply Hx. now left.
  - rewrite IH; [reflexivity|]. intros H. apply Hx. now right.
Qed.

Lemma remove_all_from_before (x : char) (p a b : jsstring) (skip : nat) :
  ~ In x p -> p <> [] -> (skip <= List.length a)%nat ->
  remove_all_from p skip (a ++ x :: b)
  = remove_all_from p skip a ++ x :: remove_all_from p 0 b.
Proof.
  intros Hx Hp. revert skip.
  induction a as [|c a IH]; intros skip Hk.
  - simpl in Hk. assert (skip = O) by lia. subst skip.
    pose proof (@startsWith_before x p [] b Hx) as E. cbn [app] in E.
    cbn [app remove_all_from]. rewrite E.
    destruct p; [congruence | reflexivity].
  - cbn [app remove_all_from]. destruct skip as [|k].
    + pose proof (@startsWith_before x p (c :: a) b Hx) as E0.
      cbn [app] in E0. rewrite E0.
      destruct (startsWith p (c :: a)) eqn:E.
      * apply IH. apply startsWith_length in E. simpl in E. lia.
      * cbn [app]. f_equal. apply IH. lia.
    + apply IH. simpl in Hk. lia.
Qed.

Lemma remove_all_before (x : char) (p a b : jsstring) :
  ~ In x p -> p <> [] ->
  remove_all p (a ++ x :: b) = remove_all p a ++ x :: remove_all p b.
Proof. intros. unfold remove_all. apply remove_all_from_before; auto. lia. Qed.

Lemma remove_all_from_In (x : char) (p s : jsstring) (skip : nat) :
  In x (remove_all_from p skip s) -> In x s.
Proof.
  revert skip; induction s as [|c s IH]; intros skip; simpl; [easy|].
  destruct skip as [|k].
  - destruct (startsWith p (c :: s)).
    + intros H. right. eapply IH, H.
    + intros [H|H]; [now left | right; eapply IH, H].
  - intros H. right. eapply IH, H.
Qed.

Lemma remove_all_In (x : char) (p s : jsstring) :
  In x (remove_all p s) -> In x s.
Proof. apply remove_all_from_In. Qed.

Lemma fence_has_no_brace (x : char) :
  x = open_brace \/ x = close_brace -> ~ In x fence /\ ~ In x json_fence.
Proof.
  intros [-> | ->]; split; intros H; simpl in H;
    repeat destruct H as [H|H]; try discriminate H; exact H.
Qed.

Lemma unfenced_before (x : char) (a b : jsstring) :
  x = open_brace \/ x = close_brace ->
  unfenced (a ++ x :: b) = unfenced a ++ x :: unfenced b.
Proof.
  intros Hx. destruct (fence_has_no_brace Hx) as [H1 H2]. unfold unfenced.
  rewrite remove_all_before by (assumption || discriminate).
  now rewrite remove_all_before by (assumption || discriminate).
Qed.

Lemma unfenced_In (x : char) (s : jsstring) : In x (unfenced s) -> In x s.
Proof. intros H. now apply remove_all_In, remove_all_In in H. Qed.

(** The cleanup of an object text with prose around it. *)
Lemma cleanJsonResponse_object (before inner after : jsstring) :
  ~ In open_brace before -> ~ In close_brace after ->
  cleanJsonResponse (before ++ open_brace :: inner ++ close_brace :: after)
  = open_brace :: unfenced inner ++ [close_brace].
Proof.
  intros Hb Ha. rewrite cleanJsonResponse_closed. fold (unfenced (before ++ open_brace :: inner ++ close_brace :: after)).
  rewrite unfenced_before by now left.
  rewrite unfenced_before by now right.
  unfold drop_before_first_brace.
  rewrite from_first_at by (intros H; apply Hb; eapply unfenced_In, H).
  unfold drop_after_last_brace.
  change (open_brace :: unfenced inner ++ close_brace :: unfenced after)
    with ((open_brace :: unfenced inner) ++ close_brace :: unfenced after).
  rewrite rev_app_distr. cbn [rev]. rewrite <- !app_assoc. cbn [app].
  rewrite from_first_at.
  2:{ intros H. apply in_rev in H. apply Ha. eapply unfenced_In, H. }
  change (close_brace :: rev (unfenced inner) ++ [open_brace])
    with ([close_brace] ++ rev (unfenced inner) ++ [open_brace]).
  rewrite !rev_app_distr, rev_involutive. cbn [rev app].
  unfold trim, trimEnd. cbn [trimStart].
  change (is_whitespace open_brace) with false. cbv iota.
  change (open_brace :: unfenced inner ++ [close_brace])
    with ((open_brace :: unfenced inner) ++ [close_brace]).
  rewrite rev_app_distr. cbn [rev app trimStart].
  change (is_whitespace close_brace) with false. cbv iota.
  change (close_brace :: rev (unfenced inner) ++ [open_brace])
    with ([close_brace] ++ rev (unfenced inner) ++ [open_brace]).
  rewrite !rev_app_distr, rev_involutive. reflexivity.
Qed.

(** C8, as the code has it.  For an object text [s], and prose in
    which no opening brace comes before it and no closing brace after
    it, the cleanup of [s] wrapped in code-fence markers and prose is
    the cleanup of [s]; parsing them gives the same result. *)
Theorem cleanJsonResponse_ignores_wrapping
  (world : World) (before inner after : jsstring) :
  ~ In open_brace before -> ~ In close_brace after ->
  cleanJsonResponse (wrap_fenced before (object_text inner) after)
  = cleanJsonResponse (object_text inner)
  /\ JSON_parse world
       (cleanJsonResponse (wrap_fenced before (object_text inner) after))
     = JSON_parse world (cleanJsonResponse (object_text inner)).
Proof.
  intros Hb Ha.
  assert (E : cleanJsonResponse (wrap_fenced before (object_text inner) after)
              = cleanJsonResponse (object_text inner)).
  { unfold wrap_fenced, object_text.
    replace (before ++ json_fence ++ [10%N]
               ++ (open_brace :: inner ++ [close_brace])
               ++ [10%N] ++ fence ++ after)
      with ((before ++ json_fence ++ [10%N])
              ++ open_brace :: inner
              ++ close_brace :: ([10%N] ++ fence ++ after)).
    2:{ rewrite <- !app_assoc. cbn [app]. rewrite <- !app_assoc. reflexivity. }
    rewrite cleanJsonResponse_object.
    - change (open_brace :: inner ++ [close_brace])
        with ([] ++ open_brace :: inner ++ close_brace :: []).
      now rewrite cleanJsonResponse_object by easy.
    - rewrite !in_app_iff. intros [H|[H|H]]; [now apply Hb| |].
      + simpl in H. repeat destruct H as [H|H]; try discriminate H; exact H.
      + simpl in H. destruct H as [H|H]; [discriminate H | exact H].
    - cbn [app]. intros [H|H]; [discriminate H|].
      rewrite in_app_iff in H. destruct H as [H|H]; [|now apply Ha].
      simpl in H. repeat destruct H as [H|H]; try discriminate H; exact H. }
  split; [exact E | now rewrite E].
Qed.

End Cleanup.

Lemma cleanJsonResponse_ignores_wrapping_witness :
  ExtractRoute.cleanJsonResponse
    (wrap_fenced (lit "Here is the recipe: ") a_is_1 (lit " Enjoy!"))
  = a_is_1.
Proof.
  refine (eq_trans
            (proj1 (@cleanJsonResponse_ignores_wrapping offline
                      (lit "Here is the recipe: ")
                      (quoted (lit "a") ++ lit ":1") (lit " Enjoy!") _ _))
            eq_refl);
    intros H; simpl in H; repeat destruct H as [H|H]; try discriminate H;
    exact H.
Defined.

(** C8 as stated fails when the prose has a brace: the cleanup starts
    at the first opening brace of the prose, what it yields is not
    JSON, and parsing it throws where parsing the cleanup of the clean
    text gives an object. *)
Lemma cleanJsonResponse_keeps_prose_with_brace :
  let wrapped := wrap_fenced (lit "Here is {the} recipe: ") a_is_1 [] in
  ExtractRoute.cleanJsonResponse a_is_1 = a_is_1
  /\ ExtractRoute.cleanJsonResponse wrapped
     = lit "{the} recipe: " ++ [10%N] ++ a_is_1
  /\ ExtractRoute.json_syntax_ok (ExtractRoute.cleanJsonResponse a_is_1) = true
  /\ ExtractRoute.json_syntax_ok (ExtractRoute.cleanJsonResponse wrapped)
     = false.
Proof. vm_compute. repeat split. Qed.


(** ** cleanAuthToken on tokens that do not start with white space *)

Lemma match_literal_ci_app (p a w r : jsstring) :
  match_literal_ci p a = Some r -> match_literal_ci p (a ++ w) = Some (r ++ w).
Proof.
  revert a; induction p as [|x p IH]; intros a; simpl.
  - intros H. now injection H as <-.
  - destruct a as [|b a]; [discriminate|]. simpl.
    destruct (char_eqb_ci x b); [apply IH | discriminate].
Qed.

Lemma Token_is_not_Bearer (a w r : jsstring) :
  match_literal_ci (lit "Token") a = Some r ->
  match_literal_ci (lit "Bearer") (a ++ w) = None.
Proof.
  destruct a as [|b a]; [discriminate|].
  change (lit "Token") with (84%N :: lit "oken").
  change (lit "Bearer") with (66%N :: lit "earer").
  cbn [match_literal_ci app].
  unfold char_eqb_ci, char_eqb.
  destruct (ascii_upper 84 =? ascii_upper b)%N eqn:E; [|discriminate].
  apply N.eqb_eq in E. intros _.
  destruct (ascii_upper 66 =? ascii_upper b)%N eqn:E'; [|reflexivity].
  apply N.eqb_eq in E'. rewrite <- E in E'. discriminate E'.
Qed.

Lemma has_schemePrefix_app (a w : jsstring) :
  has_schemePrefix a = true -> has_schemePrefix (a ++ w) = true.
Proof.
  rewrite !has_schemePrefix_closed. unfold match_schemePrefix.
  destruct (match_literal_ci (lit "Bearer") a) as [r|] eqn:EB.
  - rewrite (match_literal_ci_app _ _ w EB).
    destruct r as [|c r]; [discriminate|]. cbn [app].
    now destruct (is_whitespace c).
  - destruct (match_literal_ci (lit "Token") a) as [r|] eqn:ET;
      [|discriminate].
    rewrite (Token_is_not_Bearer _ w ET), (match_literal_ci_app _ _ w ET).
    destruct r as [|c r]; [discriminate|]. cbn [app].
    now destruct (is_whitespace c).
Qed.

(** Where C9 holds.  On a token that does not start with white space
    and carries at most one scheme prefix, the cleaned token carries
    none, cleaning it again changes nothing, and the header of a
    client built from it is one scheme name, a space and the cleaned
    token. *)
Lemma cleanAuthToken_without_leading_space
  (token base : jsstring) (client : Client.TandoorClient) :
  trimStart token = token ->
  has_schemePrefix (replace schemePrefix [] token) = false ->
  client = Client.new_TandoorClient
             {| Client.config_baseUrl := base; Client.config_token := token |} ->
  has_schemePrefix (cleanAuthToken token) = false
  /\ cleanAuthToken (cleanAuthToken token) = cleanAuthToken token
  /\ Client.getAuthHeader client
     = lit "Token " ++ cleanAuthToken token.
Proof.
  intros Hstart Hone ->. rewrite replace_schemePrefix in Hone.
  assert (Hr : trimStart (strip_schemePrefix token) = strip_schemePrefix token).
  { unfold strip_schemePrefix, match_schemePrefix.
    destruct (match _ with Some r => Some r | None => _ end) as [[|c r]|];
      try exact Hstart.
    destruct (is_whitespace c); [apply trimStart_idempotent | exact Hstart]. }
  assert (Hclean : cleanAuthToken token = trimEnd (strip_schemePrefix token)).
  { rewrite cleanAuthToken_closed. unfold trim. now rewrite Hr. }
  assert (Hfree : has_schemePrefix (cleanAuthToken token) = false).
  { rewrite Hclean.
    destruct (has_schemePrefix (trimEnd (strip_schemePrefix token))) eqn:E;
      [|reflexivity].
    destruct (trimEnd_prefix (strip_schemePrefix token)) as [w Hw].
    apply (has_schemePrefix_app _ w) in E. rewrite <- Hw in E. congruence. }
  split; [exact Hfree|]. split; [|reflexivity].
  assert (Hstrip : strip_schemePrefix (cleanAuthToken token)
                   = cleanAuthToken token).
  { rewrite has_schemePrefix_closed in Hfree. unfold strip_schemePrefix.
    now destruct (match_schemePrefix (cleanAuthToken token)). }
  rewrite (cleanAuthToken_closed (cleanAuthToken token)).
  rewrite Hstrip, Hclean. unfold trim.
  now rewrite (trimStart_trimEnd Hr), trimEnd_idempotent.
Qed.

(** ** The handler on whole requests *)

(** The URL scenario of the specification: the model answers with a
    fenced record that has no image; the answer has the name, the
    source URL and a generated image URL. *)
Example POST_url_scenario :
  ExtractRoute.POST pasta_world test_prompt (url_request test_key test_url) []
  = (Returned (ExtractRoute.RecipeResponse pasta_finished),
     [ ExtractRoute.GET test_url;
       ExtractRoute.GENERATE [ ExtractRoute.TextPart test_prompt;
                               ExtractRoute.TextPart (lit "Pasta: cook it.") ] ]).
Proof. vm_compute. reflexivity. Qed.

(** The fallback itself can throw: [encodeURIComponent] rejects a lone
    surrogate in the name, and the handler answers with its parse
    error. *)
Example POST_aborts_on_lone_surrogate_in_name :
  ExtractRoute.POST lone_surrogate_world test_prompt
    (text_request test_key (lit "soup")) []
  = (Returned (ParseError (lit "{}")),
     [ ExtractRoute.GENERATE [ ExtractRoute.TextPart test_prompt;
                               ExtractRoute.TextPart (lit "soup") ] ]).
Proof. vm_compute. reflexivity. Qed.

Lemma finish_image_is_nonempty_string_witness :
  exists fields imageUrl,
    pasta_finished = ExtractRoute.JObject fields
    /\ ExtractRoute.lookup (lit "image") fields
       = Some (ExtractRoute.JString imageUrl)
    /\ imageUrl <> [].
Proof.
  exact (@finish_image_is_nonempty_string pasta_world test_url
           [ (lit "name", ExtractRoute.JString (lit "Pasta"));
             (lit "recipeIngredient",
              ExtractRoute.JArray [ ExtractRoute.JString (lit "pasta");
                                    ExtractRoute.JString (lit "salt") ]) ]
           [] pasta_finished eq_refl).
Defined.

Lemma cleanAuthToken_without_leading_space_witness :
  cleanAuthToken (cleanAuthToken (lit "Bearer abc123 "))
  = cleanAuthToken (lit "Bearer abc123 ").
Proof.
  exact (proj1 (proj2 (@cleanAuthToken_without_leading_space
                         (lit "Bearer abc123 ") (lit "http://tandoor.test")
                         _ eq_refl eq_refl eq_refl))).
Defined.

(** The lines [refineTandoorSteps] makes steps of: none is empty, none
    has white space around it, none has a newline. *)
Theorem instruction_lines_trimmed (text : jsstring) :
  Forall (fun line => line <> [] /\ trim line = line
                      /\ ~ In Client.newline line)
    (Client.instruction_lines text).
Proof. apply instruction_lines_clean. Qed.

(** Text around an object: everything before its opening brace and
    after its closing brace is dropped, the fences inside are removed. *)
Theorem cleanJsonResponse_around_object (before inner after : jsstring) :
  ~ In ExtractRoute.open_brace before ->
  ~ In ExtractRoute.close_brace after ->
  ExtractRoute.cleanJsonResponse
    (before ++ ExtractRoute.open_brace :: inner
       ++ ExtractRoute.close_brace :: after)
  = ExtractRoute.open_brace :: unfenced inner ++ [ExtractRoute.close_brace].
Proof. apply cleanJsonResponse_object. Qed.

Lemma cleanJsonResponse_around_object_witness :
  ExtractRoute.cleanJsonResponse
    (lit "Sure! " ++ a_is_1 ++ lit " Anything else?")
  = a_is_1.
Proof.
  refine (eq_trans
            (@cleanJsonResponse_around_object (lit "Sure! ")
               (quoted (lit "a") ++ lit ":1") (lit " Anything else?") _ _)
            eq_refl);
    intros H; simpl in H; repeat destruct H as [H|H]; try discriminate H;
    exact H.
Defined.

(** ** More on parseDuration *)

Lemma startsWith_PT_app (pre r : jsstring) :
  pre <> [] ->
  startsWith (lit "PT") (pre ++ lit "PT" ++ r)
  = startsWith (lit "PT") (pre ++ lit "P").
Proof.
  destruct pre as [|c [|d pre]]; [congruence| |]; intros _.
  - cbn [app startsWith lit map list_ascii_of_string].
    now destruct (char_eqb _ c), (char_eqb _ _).
  - reflexivity.
Qed.

Lemma match_durationRegex_first_PT (pre r : jsstring) :
  includes (lit "PT") (pre ++ lit "P") = false ->
  match_durationRegex (pre ++ lit "PT" ++ r)
  = match_durationRegex (lit "PT" ++ r).
Proof.
  induction pre as [|c pre IH]; [reflexivity|]. intros H.
  change ((c :: pre) ++ lit "P") with (c :: (pre ++ lit "P")) in H.
  cbn [includes] in H. apply orb_false_iff in H as [H1 H2].
  change ((c :: pre) ++ lit "PT" ++ r) with (c :: (pre ++ lit "PT" ++ r)).
  cbn [match_durationRegex].
  change (c :: pre ++ lit "PT" ++ r) with ((c :: pre) ++ lit "PT" ++ r).
  rewrite startsWith_PT_app by discriminate.
  change ((c :: pre) ++ lit "P") with (c :: (pre ++ lit "P")).
  rewrite H1. now apply IH.
Qed.

Lemma span_digits_digits (s : jsstring) : all_digits (fst (span_digits s)).
Proof.
  unfold all_digits. induction s as [|c s IH]; [reflexivity|].
  cbn [span_digits]. destruct (is_digit c) eqn:E; [|reflexivity].
  destruct (span_digits s) as [ds rest]. cbn [fst forallb] in *.
  now rewrite E.
Qed.

Lemma optional_digits_then_ok (x : char) (s : jsstring) :
  component_ok (fst (optional_digits_then x s)).
Proof.
  unfold optional_digits_then. pose proof (span_digits_digits s) as H.
  destruct (span_digits s) as [[|d ds] [|c r]]; try exact I.
  destruct (char_eqb c x); [|exact I].
  split; [discriminate | exact H].
Qed.

(** The captures of the duration expression are runs of digits. *)
Lemma match_durationRegex_ok (s : jsstring) (m1 m2 : option jsstring) :
  match_durationRegex s = Some (m1, m2) -> component_ok m1 /\ component_ok m2.
Proof.
  induction s as [|c s IH]; [discriminate|]. cbn [match_durationRegex].
  destruct (startsWith (lit "PT") (c :: s)); [|exact IH].
  pose proof (optional_digits_then_ok 72%N (skipn 2 (c :: s))) as H1.
  destruct (optional_digits_then 72%N (skipn 2 (c :: s))) as [h r1].
  pose proof (optional_digits_then_ok 77%N r1) as H2.
  destruct (optional_digits_then 77%N r1) as [m r2].
  intros H. injection H as <- <-. now split.
Qed.

(** A duration is zero or more, and a number: never negative, never
    [NaN]. *)
Lemma parseDuration_nonnegative (d : option jsstring) :
  nonnegative (parseDuration d).
Proof.
  rewrite parseDuration_closed. destruct d as [s|]; [|exact I].
  destruct (negb (truthy_string s)); [exact I|].
  destruct (match_durationRegex s) as [[m1 m2]|] eqn:E; [|exact I].
  destruct (match_durationRegex_ok _ E) as [H1 H2].
  rewrite !parseInt10_component by assumption.
  apply number_add_nonnegative.
  - apply number_mul_nonnegative
      with (m := 8444249301319680%positive) (e := -47).
    + apply Num_nonnegative, component_value_nonneg.
    + reflexivity.
  - apply Num_nonnegative, component_value_nonneg.
Qed.

Lemma optional_digits_then_stop (x : char) (post : jsstring) :
  stops_digits post -> optional_digits_then x post = (None, post).
Proof.
  intros H. unfold optional_digits_then.
  change post with ([] ++ post) at 1.
  rewrite span_digits_run by (assumption || reflexivity). reflexivity.
Qed.

Lemma optional_digits_then_other (x y : char) (ds r : jsstring) :
  all_digits ds -> is_digit y = false -> char_eqb y x = false ->
  optional_digits_then x (ds ++ y :: r) = (None, ds ++ y :: r).
Proof.
  intros Hd Hy Hx. apply optional_digits_then_miss; assumption.
Qed.

(** The duration is read at the first [PT] of the text; what precedes
    it and what follows the duration does not count.  The result is
    hours * 60 + minutes exactly, for a total within the safe
    integers. *)
Theorem parseDuration_reads_first_PT
  (pre post : jsstring) (hours minutes : option jsstring) :
  component_ok hours -> component_ok minutes ->
  includes (lit "PT") (pre ++ lit "P") = false ->
  after_duration minutes post ->
  component_value hours * 60 + component_value minutes <= MAX_SAFE_INTEGER ->
  parseDuration (Some (pre ++ duration_string hours minutes ++ post))
  = Num (component_value hours * 60 + component_value minutes)
  /\ integer_value
       (parseDuration (Some (pre ++ duration_string hours minutes ++ post)))
     = Some (component_value hours * 60 + component_value minutes).
Proof.
  intros Hh Hm Hpre Hpost Hs.
  assert (E : parseDuration
                (Some (pre ++ duration_string hours minutes ++ post))
              = Num (component_value hours * 60 + component_value minutes)).
  { rewrite <- (duration_minutes hours minutes Hh Hm Hs).
    rewrite parseDuration_closed.
    assert (Ht : negb (truthy_string
                         (pre ++ duration_string hours minutes ++ post))
                 = false).
    { unfold duration_string. now destruct pre. }
    rewrite Ht. unfold duration_string. rewrite <- !app_assoc.
    rewrite match_durationRegex_first_PT by exact Hpre.
    rewrite match_durationRegex_PT.
    destruct hours as [hd|], minutes as [md|];
      cbn [duration_component app component_ok after_duration] in *.
    - destruct Hh as [Hh1 Hh2], Hm as [Hm1 Hm2].
      rewrite <- !app_assoc. cbn [app].
      rewrite optional_digits_then_hit by easy.
      now rewrite optional_digits_then_hit by easy.
    - destruct Hh as [Hh1 Hh2].
      rewrite <- !app_assoc. cbn [app].
      rewrite optional_digits_then_hit by easy.
      now rewrite optional_digits_then_stop by exact Hpost.
    - destruct Hm as [Hm1 Hm2].
      rewrite <- !app_assoc. cbn [app].
      rewrite optional_digits_then_other by (assumption || reflexivity).
      now rewrite optional_digits_then_hit by easy.
    - now rewrite !optional_digits_then_stop by exact Hpost. }
  split; [exact E|]. rewrite E. apply integer_value_Num.
  pose proof (component_value_nonneg hours).
  pose proof (component_value_nonneg minutes). lia.
Qed.

Lemma parseDuration_reads_first_PT_witness :
  integer_value (parseDuration (Some (lit "Total: PT2H30M15S"))) = Some 150.
Proof.
  refine (proj2 (@parseDuration_reads_first_PT (lit "Total: ") (lit "15S")
                   (Some (lit "2")) (Some (lit "30")) _ _ _ _ _)).
  - split; [discriminate | reflexivity].
  - split; [discriminate | reflexivity].
  - reflexivity.
  - exact I.
  - discriminate.
Defined.

(** ** More on cleanAuthToken *)

Lemma match_literal_ci_spelled (p name rest : jsstring) :
  spells p name -> match_literal_ci p (name ++ rest) = Some rest.
Proof.
  unfold spells. revert name.
  induction p as [|a p IH]; intros [|b name] H; try discriminate H.
  - reflexivity.
  - cbn [map] in H. injection H as Hb Hn.
    cbn [app match_literal_ci]. unfold char_eqb_ci.
    rewrite Hb, char_eqb_refl. now apply IH.
Qed.

Lemma Token_spelling_is_not_Bearer (name rest : jsstring) :
  spells (lit "Token") name ->
  match_literal_ci (lit "Bearer") (name ++ rest) = None.
Proof.
  unfold spells. destruct name as [|b name]; [discriminate|].
  intros H. cbn [map] in H.
  change (lit "Token") with (84%N :: lit "oken") in H.
  cbn [map] in H. injection H as Hb _.
  change (lit "Bearer") with (66%N :: lit "earer").
  cbn [app match_literal_ci]. unfold char_eqb_ci.
  rewrite Hb. reflexivity.
Qed.

Lemma trimStart_all_whitespace (ws t : jsstring) :
  all_whitespace ws -> trimStart (ws ++ t) = trimStart t.
Proof.
  unfold all_whitespace. induction ws as [|c ws IH]; [reflexivity|].
  cbn [forallb]. intros H. apply andb_true_iff in H as [Hc Hws].
  cbn [app trimStart]. rewrite Hc. now apply IH.
Qed.

Lemma trimEnd_length (s : jsstring) :
  (List.length (trimEnd s) <= List.length s)%nat.
Proof.
  unfold trimEnd. rewrite length_rev.
  pose proof (trimStart_length (rev s)) as H. now rewrite length_rev in H.
Qed.

Lemma trim_fixed_trimStart (t : jsstring) : trim t = t -> trimStart t = t.
Proof.
  unfold trim. intros H.
  destruct (trimStart_suffix t) as [w Hw].
  pose proof (trimEnd_length (trimStart t)) as L. rewrite H in L.
  assert (Hl : List.length t = (List.length w + List.length (trimStart t))%nat)
    by (rewrite Hw at 1; apply length_app).
  destruct w as [|c w]; [now rewrite Hw at 2|]. simpl in Hl. lia.
Qed.

Lemma match_schemePrefix_spelled (name ws t : jsstring) :
  spells (lit "Bearer") name \/ spells (lit "Token") name ->
  ws <> [] -> all_whitespace ws -> trimStart t = t ->
  match_schemePrefix (name ++ ws ++ t) = Some t.
Proof.
  intros Hname Hne Hws Ht. unfold match_schemePrefix.
  assert (E : match match_literal_ci (lit "Bearer") (name ++ ws ++ t) with
              | Some r => Some r
              | None => match_literal_ci (lit "Token") (name ++ ws ++ t)
              end = Some (ws ++ t)).
  { destruct Hname as [H|H].
    - now rewrite (match_literal_ci_spelled _ H).
    - now rewrite (Token_spelling_is_not_Bearer _ H),
        (match_literal_ci_spelled _ H). }
  rewrite E. destruct ws as [|c ws]; [congruence|].
  unfold all_whitespace in Hws. cbn [forallb] in Hws.
  apply andb_true_iff in Hws as [Hc Hws]. cbn [app]. rewrite Hc.
  now rewrite trimStart_all_whitespace, Ht.
Qed.

(** A scheme name in any mixture of cases, followed by white space, is
    removed from the front of a token; a token without such a prefix
    is only trimmed. *)
Theorem cleanAuthToken_strips_scheme (name ws t : jsstring) :
  spells (lit "Bearer") name \/ spells (lit "Token") name ->
  ws <> [] -> all_whitespace ws -> trim t = t ->
  cleanAuthToken (name ++ ws ++ t) = t
  /\ (forall token,
        has_schemePrefix token = false -> cleanAuthToken token = trim token).
Proof.
  intros Hname Hne Hws Ht. split.
  - rewrite cleanAuthToken_closed. unfold strip_schemePrefix.
    rewrite match_schemePrefix_spelled; auto using trim_fixed_trimStart.
  - intros token H. rewrite cleanAuthToken_closed. unfold strip_schemePrefix.
    rewrite has_schemePrefix_closed in H.
    now destruct (match_schemePrefix token).
Qed.

Lemma cleanAuthToken_strips_scheme_witness :
  cleanAuthToken (lit "bEaReR" ++ [9%N; 32%N] ++ lit "abc 123") = lit "abc 123".
Proof.
  refine (proj1 (@cleanAuthToken_strips_scheme (lit "bEaReR") [9%N; 32%N]
                   (lit "abc 123") _ _ _ _)).
  - left. reflexivity.
  - discriminate.
  - reflexivity.
  - reflexivity.
Defined.

(** ** More on the client *)

Lemma remove_trailing_slash_app (base : jsstring) :
  remove_trailing_slash (base ++ lit "/") = base.
Proof.
  unfold remove_trailing_slash. rewrite rev_app_distr. cbn [lit rev app map
    list_ascii_of_string]. cbn. apply rev_involutive.
Qed.

Lemma remove_trailing_slash_other (base : jsstring) :
  last base 0%N <> 47%N -> remove_trailing_slash base = base.
Proof.
  unfold remove_trailing_slash.
  destruct base as [|b base] using rev_ind; [reflexivity|].
  rewrite last_last, rev_app_distr. cbn [rev app]. intros H.
  destruct (char_eqb b 47%N) eqn:E; [|reflexivity].
  apply char_eqb_eq in E. contradiction.
Qed.

(** The constructor removes one slash from the end of the base URL,
    and no more than one; a base URL that does not end in a slash is
    kept as it is. *)
Theorem new_TandoorClient_drops_one_slash (base token : jsstring) :
  Client.baseUrl
    (Client.new_TandoorClient
       {| Client.config_baseUrl := base ++ lit "/";
          Client.config_token := token |}) = base
  /\ (last base 0%N <> 47%N ->
      Client.baseUrl
        (Client.new_TandoorClient
           {| Client.config_baseUrl := base;
              Client.config_token := token |}) = base).
Proof.
  unfold Client.new_TandoorClient.
  cbn [Client.baseUrl Client.config_baseUrl].
  rewrite !replace_trailingSlash. split.
  - apply remove_trailing_slash_app.
  - apply remove_trailing_slash_other.
Qed.

Section Client_more.

Import Client.

Variable network : Network.
Variable URL_resolve : jsstring -> jsstring -> Outcome jsstring.
Variables Payload Data : Type.
Variable JSON_stringify : Payload -> jsstring.
Variable JSON_stringify_source : jsstring -> jsstring.
Variable JSON_parse : jsstring -> Outcome Data.

Lemma get_set_header_other (name key value : jsstring)
  (hs : list (jsstring * jsstring)) :
  str_eqb key name = false ->
  get_header name (set_header key value hs) = get_header name hs.
Proof.
  intros H. induction hs as [|[k v] hs IH]; cbn [set_header get_header].
  - now rewrite H.
  - destruct (str_eqb k key) eqn:E.
    + apply str_eqb_eq in E. subst k. cbn [get_header]. now rewrite H.
    + cbn [get_header]. now rewrite IH.
Qed.

(** The retry of the fallback is the first request again with another
    [Authorization] header: same URL, method, body and other headers.
    One or two requests are sent, never more.  A [fetch] that rejects
    ends the call with that rejection; the client then remembers
    [Bearer] exactly when it was the retry that rejected. *)
Theorem fetchWithAuthFallback_retries_same_request
  (c : TandoorClient) (log : list Request)
  (target : jsstring) (options : RequestInit) :
  let first := attempt Token c target options in
  let second := attempt Bearer c target options in
  let run := fetchWithAuthFallback network target options (c, log) in
  (url second = url first
   /\ method (init second) = method (init first)
   /\ body (init second) = body (init first)
   /\ forall name,
        str_eqb (lit "Authorization") name = false ->
        get_header name (headers (init second))
        = get_header name (headers (init first))
        /\ get_header name (headers (init first))
           = get_header name (headers options))
  /\ (snd (snd run) = log ++ [first] \/ snd (snd run) = log ++ [first; second])
  /\ (forall e,
        network log first = Thrown e ->
        run = (Thrown e, (c, log ++ [first])))
  /\ (forall r1 e,
        network log first = Returned r1 -> unauthorized r1 = true ->
        network (log ++ [first]) second = Thrown e ->
        run = (Thrown e, (with_scheme c Bearer, log ++ [first; second]))).
Proof.
  cbv zeta. rewrite fetchWithAuthFallback_runs. repeat split.
  - unfold attempt. cbn [init headers].
    now rewrite !get_set_header_other.
  - unfold attempt. cbn [init headers]. now apply get_set_header_other.
  - destruct (network log _) as [r1|e]; [|now left].
    destruct (unauthorized r1); [now right | now left].
  - intros e H. now rewrite H.
  - intros r1 e H1 Hu H2. now rewrite H1, Hu, H2.
Qed.

(** [uploadImageFromUrl] never rejects and never changes the client.
    It downloads the image first; when that fails (the download
    rejects or is answered with a status outside 200..299) nothing is
    uploaded and the result is a failure. *)
Theorem uploadImageFromUrl_never_rejects
  (c : TandoorClient) (log : list Request) (recipeId : integer)
  (imageUrl : jsstring) :
  let run := uploadImageFromUrl network URL_resolve recipeId imageUrl (c, log) in
  let download := download_request imageUrl in
  exists result sent,
    run = (Returned result, (c, log ++ download :: sent))
    /\ (List.length sent <= 1)%nat
    /\ (match network log download with
        | Returned image => ok image = false
        | Thrown _ => True
        end -> sent = [] /\ success result = false)
    /\ (success result = true ->
        exists image uploadUrl answer,
          network log download = Returned image
          /\ sent = [upload_request c uploadUrl image]
          /\ network (log ++ [download]) (upload_request c uploadUrl image)
             = Returned answer
          /\ ok answer = true).
Proof.
  cbv zeta. unfold uploadImageFromUrl, buildUrl, download_request.
  cbv beta iota zeta delta [try_catch bind fetch this lift ret fst snd].
  destruct (network log _) as [image|e].
  2:{ eexists _, []. repeat split; try discriminate. simpl. lia. }
  destruct (ok image) eqn:Hok; cbv beta iota delta [negb].
  2:{ eexists _, []. repeat split; try discriminate. simpl. lia. }
  destruct (URL_resolve _ _) as [uploadUrl|e].
  2:{ eexists _, []. repeat split; try discriminate. simpl. lia. }
  match goal with
  | |- context [network (log ++ ?l) ?u] =>
      destruct (network (log ++ l) u) as [answer|e] eqn:Hput
  end.
  - destruct (ok answer) eqn:Hans.
    + eexists _, [_]. rewrite <- app_assoc. cbn [app].
      repeat split; try discriminate; try (simpl; lia).
      intros _. exists image, uploadUrl, answer. repeat split.
      * exact Hput.
      * exact Hans.
    + eexists _, [_]. rewrite <- app_assoc. cbn [app].
      repeat split; try discriminate; simpl; lia.
  - eexists _, [_]. rewrite <- app_assoc. cbn [app].
    repeat split; try discriminate; simpl; lia.
Qed.

End Client_more.

(** ** More on the client and the adapter *)

Section Results.

Import Client.

Variable network : Network.
Variable URL_resolve : jsstring -> jsstring -> Outcome jsstring.
Variables Payload Data : Type.
Variable JSON_stringify : Payload -> jsstring.
Variable JSON_stringify_source : jsstring -> jsstring.
Variable JSON_parse : jsstring -> Outcome (option Data).




End Results.

Section Refinement.

Import Client.

Variables I R : Type.

Lemma refine_many (s1 s2 : Step I R) (rest : list (Step I R)) :
  refineTandoorSteps (s1 :: s2 :: rest) = s1 :: s2 :: rest.
Proof. reflexivity. Qed.

Lemma refine_cases (steps : list (Step I R)) :
  refineTandoorSteps steps = steps
  \/ exists step lines,
       steps = [step]
       /\ (1 < List.length lines)%nat
       /\ refineTandoorSteps steps = mapi (split_step step) lines.
Proof.
  destruct steps as [|step [|s2 rest]]; [now left| |now left].
  unfold refineTandoorSteps.
  destruct (instruction step) as [text|]; [|now left].
  destruct (negb _ || negb _); [now left|].
  destruct (List.length (instruction_lines text) <=? 1)%nat eqn:Hl;
    [now left|].
  apply Nat.leb_gt in Hl. right. now exists step, (instruction_lines text).
Qed.

(** Refining twice is refining once; refining never makes the list
    shorter, and so never empties it. *)
Theorem refineTandoorSteps_idempotent (steps : list (Step I R)) :
  refineTandoorSteps (refineTandoorSteps steps) = refineTandoorSteps steps
  /\ (List.length steps <= List.length (refineTandoorSteps steps))%nat
  /\ (refineTandoorSteps steps = [] <-> steps = []).
Proof.
  destruct (refine_cases steps) as [E | (step & lines & -> & Hl & E)].
  - rewrite !E. repeat split; auto.
  - rewrite E. unfold mapi.
    destruct lines as [|l1 [|l2 lines]]; try (simpl in Hl; lia).
    cbn [mapi_from]. rewrite refine_many.
    repeat split; try discriminate. simpl. lia.
Qed.

End Refinement.

Section Adapter_more.

Import TandoorRoute.

Variables Quantity Amount : Type.
Variable amount_of_quantity : option Quantity -> Amount.
Variable zero : Amount.
Variable JSON_stringify : SourceStep -> jsstring.

Lemma mapi_from_no_ingredients {A} (f : nat -> A -> TandoorStep Amount)
  (xs : list A) (i : nat) :
  (forall j x, (i <= j)%nat -> ingredients (f j x) = []) ->
  List.concat (map (@ingredients Amount) (mapi_from f i xs)) = [].
Proof.
  revert i. induction xs as [|x xs IH]; intros i H; [reflexivity|].
  cbn [mapi_from map List.concat]. rewrite H by lia. cbn [app].
  apply IH. intros j y Hj. apply H. lia.
Qed.

Lemma mapSteps_keeps_ingredients (steps : option (list SourceStep))
  (ings : list (TandoorIngredient Amount)) :
  List.concat (map (@ingredients Amount) (mapSteps JSON_stringify steps ings))
  = ings.
Proof.
  unfold mapSteps.
  assert (Hnone :
    List.concat (map (@ingredients Amount)
              (if (0 <? List.length ings)%nat
               then [ {| instruction := lit "Prepare ingredients";
                         ingredients := ings;
                         show_ingredients_table := None |} ]
               else [])) = ings).
  { destruct ings; [reflexivity|]. cbn. now rewrite app_nil_r. }
  destruct steps as [[|step steps]|]; try exact Hnone.
  unfold mapi. cbn [mapi_from map List.concat ingredients].
  rewrite mapi_from_no_ingredients; [apply app_nil_r|].
  intros [|j] x Hj; [lia | reflexivity].
Qed.

(** No ingredient is lost or repeated by the adapter: the ingredients
    of the steps of the payload, taken in order, are the source
    ingredients, one for one and under their own names; the payload has
    one step for each source step, and at most one when the source has
    none. *)
Theorem buildTandoorPayload_keeps_every_ingredient
  (data : RecipePayload Quantity) :
  let payload :=
    buildTandoorPayload amount_of_quantity zero JSON_stringify data in
  let attached := List.concat (map (@ingredients Amount) (p_steps payload)) in
  attached = mapIngredients amount_of_quantity zero (ingredients_of data)
  /\ map (fun ing => name_of (t_food ing)) attached
     = map (@ingredient_name Quantity) (or_empty (ingredients_of data))
  /\ match or_empty (steps data) with
     | [] => (List.length (p_steps payload) <= 1)%nat
     | _ :: _ =>
         List.length (p_steps payload)
         = List.length (or_empty (steps data))
     end.
Proof.
  cbv zeta. unfold buildTandoorPayload. cbn [p_steps].
  rewrite mapSteps_keeps_ingredients. split; [reflexivity|]. split.
  - unfold mapIngredients, or_empty.
    destruct (ingredients_of data) as [l|]; [|reflexivity].
    rewrite map_map. apply map_ext. now intros [s|o].
  - unfold mapSteps, or_empty.
    destruct (steps data) as [[|step l]|].
    + destruct (0 <? _)%nat; simpl; lia.
    + unfold mapi. now rewrite mapi_from_length.
    + destruct (0 <? _)%nat; simpl; lia.
Qed.

(** The two times of the payload are never negative, whatever the
    recipe says: each is zero or more, infinite at worst, and never
    [NaN]. *)
Theorem buildTandoorPayload_times_nonnegative
  (data : RecipePayload Quantity) :
  let payload :=
    buildTandoorPayload amount_of_quantity zero JSON_stringify data in
  nonnegative (working_time payload) /\ nonnegative (waiting_time payload)
  /\ forall duration, nonnegative (parseDuration duration).
Proof.
  cbv zeta. unfold buildTandoorPayload. cbn [working_time waiting_time].
  split; [|split]; try intros duration; apply parseDuration_nonnegative.
Qed.

End Adapter_more.

(** ** More on the extract route *)

Lemma lookup_assign_other (key k : jsstring) (v : ExtractRoute.JSON)
  (fields : list (jsstring * ExtractRoute.JSON)) :
  str_eqb k key = false ->
  ExtractRoute.lookup key (ExtractRoute.assign k v fields)
  = ExtractRoute.lookup key fields.
Proof.
  intros H. induction fields as [|[k' v'] fields IH]; simpl.
  - now rewrite H.
  - destruct (str_eqb k' k) eqn:E; simpl.
    + apply str_eqb_eq in E. subst k'. now rewrite H.
    + now rewrite IH.
Qed.

Section Extract_more.

Import ExtractRoute.

Variable world : World.
Variable EXTRACTION_PROMPT : jsstring.

(** What the image resolver does to the outside world: nothing, or
    one HEAD request to a URL that starts with [http]; it gives a URL
    only when that request was answered with a status 2xx. *)
Lemma normalizeImage_effects (image : option JSON) (trace : list Effect) :
  let run := normalizeImage world image trace in
  (snd run = trace /\ (fst run = Returned None \/ exists e, fst run = Thrown e))
  \/ exists u,
       snd run = trace ++ [HEAD u]
       /\ startsWith (lit "http") u = true
       /\ (fst run = Returned None
           \/ fst run = Returned (Some u)
              /\ exists check,
                   http_head world u = Returned check /\ ok check = true).
Proof.
  cbv zeta. unfold normalizeImage.
  destruct (negb _); [left; split; [reflexivity | now left]|].
  match goal with
  | |- context [match ?c with Some _ => _ | None => _ end] =>
      destruct c as [[| | |s| |]|]
  end;
    try (left; split; [reflexivity | now left]);
    try (unfold throw, ret; destruct (truthy _);
         left; (split; [reflexivity|]);
         first [now left | right; eexists; reflexivity]).
  destruct (truthy_string s && startsWith (lit "http") s) eqn:Hs;
    [|left; split; [reflexivity | now left]].
  apply andb_true_iff in Hs as [_ Hs].
  right. exists s. unfold try_catch, bind, perform, ret.
  destruct (http_head world s) as [check|e'] eqn:Hh.
  - destruct (ok check) eqn:Hok; cbn [fst snd]; repeat split; eauto.
  - cbn [fst snd]. repeat split; eauto.
Qed.

(** Every request is answered: the handler never rejects.  Its answer
    is a record or one of five error responses; without an API key it
    is the 401 response and nothing has been done. *)
Theorem POST_always_answers (req : Request) (trace : list Effect) :
  let run := POST world EXTRACTION_PROMPT req trace in
  match fst run with
  | Returned (RecipeResponse _) => True
  | Returned (ErrorResponse message status _) =>
      In (message, status) extract_errors
  | Thrown _ => False
  end
  /\ (match x_gemini_api_key req with
      | Some key => truthy_string key = false
      | None => True
      end ->
      run = (Returned (ErrorResponse (lit "Missing Gemini API Key") 401 None),
             trace)).
Proof.
  cbv zeta. split.
  - unfold POST, try_catch, extract_errors.
    destruct (x_gemini_api_key req) as [key|]; [|cbn; auto].
    destruct (negb (truthy_string key)); [cbn; auto|].
    unfold bind at 1.
    destruct (prepare world req trace) as [[prepared|e] trace1] eqn:Hp;
      [|cbn; auto 6].
    destruct prepared as [response|[parts sourceUrl]].
    + unfold ret. cbn [fst].
      unfold prepare in Hp.
      destruct (request_body req) as [[file|]|body].
      * discriminate Hp.
      * injection Hp as <- _. cbn; auto.
      * unfold bind, lift in Hp. destruct body as [body|e]; [|discriminate Hp].
        destruct (str_eqb _ _); [|discriminate Hp].
        unfold try_catch, bind, ret in Hp.
        destruct (fetchUrlContent _ _ _) as [[t|e] tr].
        -- discriminate Hp.
        -- injection Hp as <- _. cbn; auto.
    + unfold bind, perform.
      destruct (generateContent world _) as [text|e]; [|cbn; auto 6].
      unfold try_catch, bind, lift.
      destruct (JSON_parse world _) as [recipe|e]; [|cbn; auto 6].
      match goal with
      | |- context [finish world sourceUrl recipe ?t] =>
          destruct (@finish_answers world sourceUrl recipe t) as [H _];
          destruct (finish world sourceUrl recipe t) as [[[m s d|r]|e] tr]
      end; cbn in *; auto 6.
  - intros Hkey. unfold POST, try_catch, ret.
    destruct (x_gemini_api_key req) as [key|]; [|reflexivity].
    now rewrite Hkey.
Qed.

(** Of the record the model gave, the handler changes the image and,
    when the record has no URL of its own and the input was a URL, the
    URL; every other field is answered as it was parsed. *)
Theorem finish_changes_url_and_image_only
  (sourceUrl : jsstring) (fields : list (jsstring * JSON))
  (trace : list Effect) (recipe : JSON) :
  fst (finish world sourceUrl (JObject fields) trace)
  = Returned (RecipeResponse recipe) ->
  exists fields',
    recipe = JObject fields'
    /\ lookup (lit "url") fields'
       = (if truthy_string sourceUrl
             && negb (truthy_opt (lookup (lit "url") fields))
          then Some (JString sourceUrl)
          else lookup (lit "url") fields)
    /\ forall key,
         str_eqb (lit "url") key = false ->
         str_eqb (lit "image") key = false ->
         lookup key fields' = lookup key fields.
Proof.
  unfold finish, bind.
  set (fields1 := if truthy_string sourceUrl
                     && negb (truthy_opt (lookup (lit "url") fields))
                  then assign (lit "url") (JString sourceUrl) fields
                  else fields).
  assert (Hurl : lookup (lit "url") fields1
                 = (if truthy_string sourceUrl
                       && negb (truthy_opt (lookup (lit "url") fields))
                    then Some (JString sourceUrl)
                    else lookup (lit "url") fields)).
  { unfold fields1. destruct (_ && _); [apply lookup_assign | reflexivity]. }
  assert (Hother : forall key, str_eqb (lit "url") key = false ->
                     lookup key fields1 = lookup key fields).
  { intros key Hk. unfold fields1.
    destruct (_ && _); [now apply lookup_assign_other | reflexivity]. }
  destruct (normalizeImage _ _ _) as [[image|e] trace']; [|discriminate].
  destruct (negb (truthy_opt (lookup (lit "image") _))).
  - unfold lift, ret.
    destruct (generateFallbackImageUrl _) as [u|e]; [|discriminate].
    intros H. injection H as <-. eexists. split; [reflexivity|]. split.
    + now rewrite !lookup_assign_other.
    + intros key Hk Hi. rewrite !lookup_assign_other by assumption. auto.
  - unfold ret. intros H. injection H as <-.
    eexists. split; [reflexivity|]. split.
    + now rewrite lookup_assign_other.
    + intros key Hk Hi. rewrite lookup_assign_other by assumption. auto.
Qed.

(** The image resolver gives a URL only if it starts with [http] and
    a HEAD request to it was answered with a status 2xx; that request
    is all it does. *)
Theorem normalizeImage_gives_checked_url
  (image : option JSON) (trace : list Effect) (imageUrl : jsstring) :
  fst (normalizeImage world image trace) = Returned (Some imageUrl) ->
  startsWith (lit "http") imageUrl = true
  /\ (exists check,
        http_head world imageUrl = Returned check /\ ok check = true)
  /\ snd (normalizeImage world image trace) = trace ++ [HEAD imageUrl].
Proof.
  intros H.
  destruct (normalizeImage_effects image trace)
    as [[_ [E|[e E]]] | (u & Ht & Hu & [E | [E Hc]])];
    rewrite E in H; try discriminate H.
  injection H as <-. auto.
Qed.

(** Pasted text is never fetched: the first thing done is the call of
    the model with the prompt and the text as it was pasted, and only
    an image check can follow.  When the model's answer is not JSON
    the response carries the raw answer; when the model fails, its
    message. *)
Theorem POST_text_goes_to_the_model_as_pasted (key pasted : jsstring) :
  truthy_string key = true ->
  let parts := [TextPart EXTRACTION_PROMPT; TextPart pasted] in
  let run := POST world EXTRACTION_PROMPT (text_request key pasted) [] in
  (exists checks,
     snd run = GENERATE parts :: checks
     /\ (List.length checks <= 1)%nat
     /\ Forall is_image_check checks)
  /\ (forall e,
        generateContent world parts = Thrown e ->
        run = (Returned (ErrorResponse (lit "Extraction failed") 500 (Some e)),
               [GENERATE parts]))
  /\ (forall text e,
        generateContent world parts = Returned text ->
        JSON_parse world (cleanJsonResponse text) = Thrown e ->
        run = (Returned (ParseError text), [GENERATE parts])).
Proof.
  intros Hkey. cbv zeta.
  set (parts := [TextPart EXTRACTION_PROMPT; TextPart pasted]).
  assert (Erun :
    POST world EXTRACTION_PROMPT (text_request key pasted) []
    = match generateContent world parts with
      | Thrown e =>
          (Returned (ErrorResponse (lit "Extraction failed") 500 (Some e)),
           [GENERATE parts])
      | Returned text =>
          match JSON_parse world (cleanJsonResponse text) with
          | Thrown _ => (Returned (ParseError text), [GENERATE parts])
          | Returned recipe =>
              try_catch
                (try_catch (finish world [] recipe)
                   (fun _ => ret (ParseError text)))
                (@extraction_failed) [GENERATE parts]
          end
      end).
  { rewrite (@POST_with_key world EXTRACTION_PROMPT
               (text_request key pasted) key eq_refl Hkey).
    unfold try_catch at 1. unfold bind at 1. rewrite prepare_text.
    unfold extract, extraction_failed, perform, bind, ret. cbn [app].
    fold parts. destruct (generateContent world parts) as [text|e];
      [|reflexivity].
    unfold try_catch, lift.
    now destruct (JSON_parse world _). }
  rewrite Erun. split; [|split].
  - destruct (generateContent world parts) as [text|e];
      [|exists []; cbn; auto].
    destruct (JSON_parse world _) as [recipe|e];
      [|exists []; cbn; auto].
    assert (Hf : exists checks,
              snd (finish world [] recipe [GENERATE parts])
              = GENERATE parts :: checks
              /\ (List.length checks <= 1)%nat
              /\ Forall is_image_check checks).
    { destruct recipe; try solve [exists []; cbn; auto].
      unfold finish, bind.
      match goal with
      | |- context [normalizeImage world ?i ?t] =>
          destruct (normalizeImage_effects i t)
            as [[Ht _] | (u & Ht & Hu & _)];
          destruct (normalizeImage world i t) as [[image|e] trace']
      end; cbn [fst snd] in *; subst trace'.
      - destruct (negb (truthy_opt (lookup (lit "image") _)));
          unfold lift, ret;
          [destruct (generateFallbackImageUrl _)|]; exists []; cbn; auto.
      - exists []; cbn; auto.
      - destruct (negb (truthy_opt (lookup (lit "image") _)));
          unfold lift, ret;
          [destruct (generateFallbackImageUrl _)|]; exists [HEAD u]; cbn;
          auto.
      - exists [HEAD u]; cbn; auto. }
    destruct Hf as (checks & Hs & Hl & Hc).
    unfold try_catch, extraction_failed, ret.
    destruct (finish _ _ _ _) as [[r|e] tr]; cbn [fst snd] in *; subst tr;
      eauto.
  - intros e He. now rewrite He.
  - intros text e Hg Hp. now rewrite Hg, Hp.
Qed.

End Extract_more.

Lemma finish_changes_url_and_image_only_witness :
  exists fields',
    pasta_finished = ExtractRoute.JObject fields'
    /\ ExtractRoute.lookup (lit "url") fields'
       = Some (ExtractRoute.JString test_url)
    /\ forall key,
         str_eqb (lit "url") key = false ->
         str_eqb (lit "image") key = false ->
         ExtractRoute.lookup key fields'
         = ExtractRoute.lookup key
             [ (lit "name", ExtractRoute.JString (lit "Pasta"));
               (lit "recipeIngredient",
                ExtractRoute.JArray [ ExtractRoute.JString (lit "pasta");
                                      ExtractRoute.JString (lit "salt") ]) ].
Proof.
  exact (@finish_changes_url_and_image_only pasta_world test_url
           [ (lit "name", ExtractRoute.JString (lit "Pasta"));
             (lit "recipeIngredient",
              ExtractRoute.JArray [ ExtractRoute.JString (lit "pasta");
                                    ExtractRoute.JString (lit "salt") ]) ]
           [] pasta_finished eq_refl).
Defined.

Lemma normalizeImage_gives_checked_url_witness :
  startsWith (lit "http") (lit "http://img.test/soup.jpg") = true
  /\ (exists check,
        ExtractRoute.http_head numeric_image_url_world
          (lit "http://img.test/soup.jpg") = Returned check
        /\ ExtractRoute.ok check = true)
  /\ snd (ExtractRoute.normalizeImage numeric_image_url_world
            (Some (ExtractRoute.JString (lit "http://img.test/soup.jpg"))) [])
     = [] ++ [ExtractRoute.HEAD (lit "http://img.test/soup.jpg")].
Proof.
  exact (@normalizeImage_gives_checked_url numeric_image_url_world
           (Some (ExtractRoute.JString (lit "http://img.test/soup.jpg"))) []
           (lit "http://img.test/soup.jpg") eq_refl).
Defined.

Lemma POST_text_goes_to_the_model_as_pasted_witness :
  exists checks,
    snd (ExtractRoute.POST pasta_world test_prompt
           (text_request test_key (lit "Pasta: cook it.")) [])
    = ExtractRoute.GENERATE
        [ ExtractRoute.TextPart test_prompt;
          ExtractRoute.TextPart (lit "Pasta: cook it.") ] :: checks
    /\ (List.length checks <= 1)%nat
    /\ Forall is_image_check checks.
Proof.
  exact (proj1 (@POST_text_goes_to_the_model_as_pasted pasta_world test_prompt
                  test_key (lit "Pasta: cook it.") eq_refl)).
Defined.

(** ** The text of a fetched page *)

Lemma collapse_whitespace_spaces (in_run : bool) (s : jsstring) :
  Forall (fun c => is_whitespace c = true -> c = 32%N)
    (collapse_whitespace in_run s).
Proof.
  revert in_run. induction s as [|c s IH]; intros in_run; [constructor|].
  cbn [collapse_whitespace]. destruct (is_whitespace c) eqn:Hc.
  - destruct in_run; [apply IH|]. constructor; [reflexivity | apply IH].
  - constructor; [congruence | apply IH].
Qed.

Lemma collapse_whitespace_no_double (in_run : bool) (s : jsstring) :
  no_double_space (collapse_whitespace in_run s)
  /\ (in_run = true ->
      match collapse_whitespace in_run s with
      | [] => True
      | c :: _ => is_whitespace c = false
      end).
Proof.
  revert in_run. induction s as [|c s IH]; intros in_run; [now split|].
  cbn [collapse_whitespace]. destruct (is_whitespace c) eqn:Hc.
  - destruct in_run; [apply IH|]. split; [|discriminate].
    destruct (IH true) as [Hn Hh]. specialize (Hh eq_refl).
    cbn [no_double_space].
    destruct (collapse_whitespace true s); [exact I|]. split; auto.
  - split; [|intros _; exact Hc].
    destruct (IH false) as [Hn _]. cbn [no_double_space].
    destruct (collapse_whitespace false s); [exact I|]. split; auto.
Qed.

Lemma no_double_space_app (a b : jsstring) :
  no_double_space (a ++ b) -> no_double_space a /\ no_double_space b.
Proof.
  induction a as [|x a IH]; [now split|].
  destruct a as [|y a].
  - cbn [app]. intros H. split; [exact I|].
    destruct b; [exact I | apply H].
  - cbn [app no_double_space]. intros [H1 H2].
    destruct (IH H2) as [Ha Hb]. repeat split; assumption.
Qed.

Lemma single_spaced_trim_collapse (s : jsstring) :
  single_spaced (trim (collapse_whitespace false s)).
Proof.
  set (t := collapse_whitespace false s).
  pose proof (collapse_whitespace_spaces false s) as Hs.
  destruct (collapse_whitespace_no_double false s) as [Hn _].
  fold t in Hs, Hn.
  destruct (trimStart_suffix t) as [w1 H1].
  destruct (trimEnd_prefix (trimStart t)) as [w2 H2].
  fold (trim t) in H2.
  split; [apply trim_idempotent|]. split.
  - rewrite H1, H2 in Hs.
    apply Forall_app in Hs as [_ Hs]. now apply Forall_app in Hs as [Hs _].
  - rewrite H1 in Hn. apply no_double_space_app in Hn as [_ Hn].
    rewrite H2 in Hn. now apply no_double_space_app in Hn as [Hn _].
Qed.

Section Fetching.

Import ExtractRoute.

Variable world : World.

(** The text the content fetcher gives is single-spaced: every run of
    white space of the page has become one space character and there
    is none at either end.  One GET is all it does. *)
Theorem fetchUrlContent_gives_single_spaced_text
  (url text : jsstring) (trace : list Effect) :
  fst (fetchUrlContent world url trace) = Returned text ->
  single_spaced text
  /\ snd (fetchUrlContent world url trace) = trace ++ [GET url].
Proof.
  unfold fetchUrlContent, bind, perform, lift, ret.
  destruct (http_get world url) as [response|e]; [|discriminate].
  destruct (body_text response) as [html|e]; [|discriminate].
  cbn [fst snd]. intros H. injection H as <-. split; [|reflexivity].
  rewrite replace_all_whitespace. apply single_spaced_trim_collapse.
Qed.

End Fetching.

Lemma fetchUrlContent_gives_single_spaced_text_witness :
  single_spaced (lit "Pasta Boil water. Serve.").
Proof.
  refine (proj1 (@fetchUrlContent_gives_single_spaced_text
                   (serves ([9%N; 10%N] ++ lit "Pasta  " ++ [13%N; 10%N; 160%N]
                              ++ lit "Boil water. Serve." ++ [10%N]))
                   test_url (lit "Pasta Boil water. Serve.") [] _)).
  reflexivity.
Defined.

(** ** The generated image URL *)

Section Fallback.

Import ExtractRoute.

Local Open Scope N_scope.

Lemma hex_digit_unreserved (n : N) :
  n < 16 -> is_unreserved (hex_digit n) = true.
Proof.
  intros H. destruct n as [|p]; [reflexivity|].
  do 4 (destruct p as [p|p|]; try reflexivity); lia.
Qed.

Lemma percent_safe (byte : N) : byte < 256 -> Forall url_safe (percent byte).
Proof.
  intros H. unfold percent.
  constructor; [now right|]. constructor; [|constructor; [|constructor]].
  - left. apply hex_digit_unreserved. apply N.Div0.div_lt_upper_bound. lia.
  - left. apply hex_digit_unreserved. apply N.mod_lt. lia.
Qed.

Lemma utf8_bytes (cp : N) :
  cp < 1114112 -> Forall (fun b => b < 256) (utf8 cp).
Proof.
  intros H. unfold utf8.
  destruct (cp <? 128) eqn:E1; [apply N.ltb_lt in E1; repeat constructor; lia|].
  destruct (cp <? 2048) eqn:E2.
  { apply N.ltb_lt in E2. repeat constructor.
    - assert (cp / 64 < 32) by (apply N.Div0.div_lt_upper_bound; lia). lia.
    - assert (cp mod 64 < 64) by (apply N.mod_lt; lia). lia. }
  destruct (cp <? 65536) eqn:E3.
  { apply N.ltb_lt in E3. repeat constructor.
    - assert (cp / 4096 < 16) by (apply N.Div0.div_lt_upper_bound; lia). lia.
    - assert ((cp / 64) mod 64 < 64) by (apply N.mod_lt; lia). lia.
    - assert (cp mod 64 < 64) by (apply N.mod_lt; lia). lia. }
  repeat constructor.
  - assert (cp / 262144 < 5) by (apply N.Div0.div_lt_upper_bound; lia). lia.
  - assert ((cp / 4096) mod 64 < 64) by (apply N.mod_lt; lia). lia.
  - assert ((cp / 64) mod 64 < 64) by (apply N.mod_lt; lia). lia.
  - assert (cp mod 64 < 64) by (apply N.mod_lt; lia). lia.
Qed.

Lemma percent_encode_safe (cp : N) :
  cp < 1114112 -> Forall url_safe (percent_encode cp).
Proof.
  intros H. unfold percent_encode. apply Forall_flat_map.
  eapply Forall_impl; [|apply utf8_bytes, H].
  intros b Hb. now apply percent_safe.
Qed.

Lemma encodeURIComponent_cons (c : char) (r : jsstring) :
  encodeURIComponent (c :: r)
  = let cons_after (p : jsstring) (o : Outcome jsstring) :=
      match o with
      | Returned t => Returned (p ++ t)
      | Thrown e => Thrown e
      end in
    if is_unreserved c then cons_after [c] (encodeURIComponent r)
    else if is_low_surrogate c then Thrown URI_malformed
    else if is_high_surrogate c then
      match r with
      | d :: r' =>
          if is_low_surrogate d then
            cons_after
              (percent_encode ((c - 55296) * 1024 + (d - 56320) + 65536))
              (encodeURIComponent r')
          else Thrown URI_malformed
      | [] => Thrown URI_malformed
      end
    else cons_after (percent_encode c) (encodeURIComponent r).
Proof. destruct r; reflexivity. Qed.

Lemma encodeURIComponent_safe_upto (n : nat) :
  forall s t,
    (List.length s <= n)%nat -> code_units s ->
    encodeURIComponent s = Returned t -> Forall url_safe t.
Proof.
  induction n as [|n IH]; intros s t Hl Hs.
  - destruct s; [|simpl in Hl; lia]. cbn. intros H. injection H as <-.
    constructor.
  - destruct s as [|c r]; [cbn; intros H; injection H as <-; constructor|].
    rewrite encodeURIComponent_cons. cbv zeta.
    inversion Hs as [|? ? Hc Hr]; subst.
    cbn [List.length] in Hl.
    destruct (is_unreserved c) eqn:Hu.
    { destruct (encodeURIComponent r) as [t'|e] eqn:Er; [|discriminate].
      intros H. injection H as <-. constructor; [now left|].
      apply (IH r); auto. lia. }
    destruct (is_low_surrogate c); [discriminate|].
    destruct (is_high_surrogate c) eqn:Hh.
    { destruct r as [|d r']; [discriminate|].
      destruct (is_low_surrogate d) eqn:Hd; [|discriminate].
      destruct (encodeURIComponent r') as [t'|e] eqn:Er; [|discriminate].
      intros H. injection H as <-.
      inversion Hr as [|? ? Hdc Hr']; subst.
      apply Forall_app. split.
      - apply percent_encode_safe.
        unfold is_high_surrogate in Hh. unfold is_low_surrogate in Hd.
        apply andb_true_iff in Hh as [_ Hh]. apply andb_true_iff in Hd as [_ Hd].
        apply N.leb_le in Hh, Hd. lia.
      - apply (IH r'); auto. cbn [List.length] in Hl. lia. }
    destruct (encodeURIComponent r) as [t'|e] eqn:Er; [|discriminate].
    intros H. injection H as <-. apply Forall_app. split.
    + apply percent_encode_safe. lia.
    + apply (IH r); auto. lia.
Qed.

Lemma encodeURIComponent_safe (s t : jsstring) :
  code_units s -> encodeURIComponent s = Returned t -> Forall url_safe t.
Proof. now apply (@encodeURIComponent_safe_upto (List.length s)). Qed.

Lemma lit_code_units (s : string) : code_units (lit s).
Proof.
  unfold code_units, lit. apply Forall_forall. intros c Hc.
  apply in_map_iff in Hc as [a [<- _]].
  pose proof (N_ascii_bounded a). lia.
Qed.

Lemma code_units_app (a b : jsstring) :
  code_units a -> code_units b -> code_units (a ++ b).
Proof. intros. apply Forall_app. now split. Qed.

Lemma join_code_units (sep : jsstring) (parts : list jsstring) :
  code_units sep -> Forall code_units parts -> code_units (join sep parts).
Proof.
  intros Hs Hp. induction Hp as [|p parts Hp Hps IH]; [constructor|].
  cbn [join]. destruct parts as [|q parts]; [exact Hp|].
  auto using code_units_app.
Qed.

Lemma ToString_code_units : forall v, well_formed v -> code_units (ToString v).
Proof.
  fix IH 1. intros [|[|]|n|s|items|fields] H; cbn [ToString];
    try apply lit_code_units; try exact H.
  apply join_code_units; [apply lit_code_units|].
  cbn [well_formed] in H. revert items H.
  fix IHl 1. intros [|x items] H; [constructor|].
  destruct H as [Hx Hi].
  pose proof (IH x Hx) as Hcx. pose proof (IHl items Hi) as Hci.
  destruct x; (constructor; [|exact Hci]);
    first [solve [constructor] | exact Hcx].
Qed.

Lemma join_element_code_units (v : JSON) :
  well_formed v -> code_units (join_element v).
Proof.
  destruct v; try apply ToString_code_units. intros _. constructor.
Qed.

Lemma well_formed_items (items : list JSON) :
  well_formed (JArray items) <-> Forall well_formed items.
Proof.
  cbn [well_formed]. induction items as [|x items IH].
  - split; constructor.
  - split.
    + intros [Hx Hi]. constructor; [exact Hx | now apply IH].
    + intros H. inversion H; subst. split; [assumption | now apply IH].
Qed.

Lemma well_formed_lookup (key : jsstring) (fields : list (jsstring * JSON))
  (v : JSON) :
  well_formed (JObject fields) -> lookup key fields = Some v -> well_formed v.
Proof.
  cbn [well_formed]. induction fields as [|[k x] fields IH]; [discriminate|].
  intros [Hx Hf]. cbn [lookup]. destruct (str_eqb k key).
  - intros E. now injection E as <-.
  - now apply IH.
Qed.

Local Close Scope N_scope.

(** The generated image URL is the address of the image service, one
    path segment and the fixed query.  The segment is percent-encoded:
    for a record of well-formed strings it holds unreserved characters
    and percent signs only, so nothing of the record can end the
    segment or add to the query.  Of the record only the name and the
    first three ingredients count. *)
Theorem generateFallbackImageUrl_is_one_safe_segment
  (fields : list (jsstring * JSON)) (imageUrl : jsstring) :
  generateFallbackImageUrl fields = Returned imageUrl ->
  (exists prompt,
     imageUrl = POLLINATIONS_BASE_URL ++ lit "/" ++ prompt
                  ++ lit "?model=flux&width=1024&height=1024"
     /\ (well_formed (JObject fields) -> Forall url_safe prompt))
  /\ forall others,
       lookup (lit "name") others = lookup (lit "name") fields ->
       leading_ingredients others = leading_ingredients fields ->
       generateFallbackImageUrl others = Returned imageUrl.
Proof.
  intros H. split.
  - unfold generateFallbackImageUrl in H.
    match type of H with
    | match encodeURIComponent ?text with _ => _ end = _ =>
        destruct (encodeURIComponent text) as [prompt|e] eqn:E;
        [|discriminate H]
    end.
    injection H as <-. exists prompt. split; [reflexivity|].
    intros Hwf. eapply encodeURIComponent_safe; [|exact E].
    repeat apply code_units_app; try apply lit_code_units.
    + destruct (lookup (lit "name") fields) as [v|] eqn:Hn;
        [|apply lit_code_units].
      destruct (truthy v); [|apply lit_code_units].
      apply ToString_code_units. eapply well_formed_lookup; eauto.
    + destruct (lookup (lit "recipeIngredient") fields) as [v|] eqn:Hi;
        [|constructor].
      destruct v as [| | | |items|]; try constructor.
      apply join_code_units; [apply lit_code_units|].
      apply Forall_map.
      assert (Hitems : Forall well_formed items).
      { apply well_formed_items. eapply well_formed_lookup; eauto. }
      apply Forall_forall. intros x Hx. apply join_element_code_units.
      rewrite Forall_forall in Hitems. apply Hitems.
      rewrite <- (firstn_skipn 3 items). apply in_or_app. now left.
  - intros others Hn Hi. rewrite <- H.
    unfold generateFallbackImageUrl, leading_ingredients in *.
    rewrite Hn.
    destruct (lookup (lit "recipeIngredient") others) as [[| | | |o|]|],
      (lookup (lit "recipeIngredient") fields) as [[| | | |f|]|];
      try discriminate Hi; try reflexivity.
    apply (f_equal (fun x => match x with Some l => l | None => [] end))
      in Hi.
    cbv beta iota in Hi. now rewrite Hi.
Qed.

End Fallback.

Lemma generateFallbackImageUrl_is_one_safe_segment_witness :
  exists prompt,
    lit "https://pollinations.ai/p/Professional%20food%20photography%20of%20Pasta%2C%20pasta%2C%20salt%2C%20high%20quality%2C%20lush%20lighting?model=flux&width=1024&height=1024"
    = ExtractRoute.POLLINATIONS_BASE_URL ++ lit "/" ++ prompt
        ++ lit "?model=flux&width=1024&height=1024"
    /\ (well_formed pasta -> Forall url_safe prompt).
Proof.
  exact (proj1 (@generateFallbackImageUrl_is_one_safe_segment
                  [ (lit "name", ExtractRoute.JString (lit "Pasta"));
                    (lit "recipeIngredient",
                     ExtractRoute.JArray
                       [ ExtractRoute.JString (lit "pasta");
                         ExtractRoute.JString (lit "salt") ]) ]
                  _ eq_refl)).
Defined.

(** ** Responses *)

Section Responses.

Import ApiHelpers.

Lemma NextResponse_json_ok {B} (b : B) (s : Z) :
  body_status s ->
  NextResponse_json b s = Returned {| body := b; status := s |}.
Proof.
  intros [[H1 H2] H3]. unfold NextResponse_json, ToUint16.
  rewrite Z.mod_small by lia.
  replace (s <? 200) with false by (symmetry; apply Z.ltb_ge; lia).
  replace (599 <? s) with false by (symmetry; apply Z.ltb_ge; lia).
  cbn [orb]. now rewrite H3.
Qed.

Lemma NextResponse_json_status {B} (b : B) (s : Z) (r : NextResponse B) :
  NextResponse_json b s = Returned r ->
  body r = b /\ body_status (status r).
Proof.
  unfold NextResponse_json.
  destruct (_ || _) eqn:E; [discriminate|].
  destruct (null_body_status _) eqn:N; [discriminate|].
  intros H. injection H as <-. cbn [body status]. split; [reflexivity|].
  apply orb_false_iff in E as [E1 E2].
  apply Z.ltb_ge in E1, E2. split; [lia | exact N].
Qed.

Lemma NextResponse_json_out_of_range {B} (b : B) (s : Z) :
  0 <= s < 200 \/ s = 304 ->
  exists e, NextResponse_json b s = Thrown (A := NextResponse B) e.
Proof.
  intros [H| ->]; [|eexists; reflexivity].
  unfold NextResponse_json, ToUint16. rewrite Z.mod_small by lia.
  replace (s <? 200) with true by (symmetry; apply Z.ltb_lt; lia).
  eexists. reflexivity.
Qed.

Lemma createErrorResponse_ok {B} (inject : ErrorBody -> B)
  (message : jsstring) (s : Z) (details : option jsstring) :
  body_status s ->
  createErrorResponse inject message s details
  = Returned (error_response inject message s details).
Proof. intros H. unfold createErrorResponse. now rewrite NextResponse_json_ok. Qed.

Lemma body_status_200 : body_status 200.
Proof. split; [lia | reflexivity]. Qed.

Lemma body_status_201 : body_status 201.
Proof. split; [lia | reflexivity]. Qed.

Lemma body_status_400 : body_status 400.
Proof. split; [lia | reflexivity]. Qed.

Lemma body_status_401 : body_status 401.
Proof. split; [lia | reflexivity]. Qed.

Lemma body_status_422 : body_status 422.
Proof. split; [lia | reflexivity]. Qed.

Lemma body_status_500 : body_status 500.
Proof. split; [lia | reflexivity]. Qed.

Lemma body_status_502 : body_status 502.
Proof. split; [lia | reflexivity]. Qed.

(** An answer that could not be built is replaced by the one of the
    [catch] block. *)
Lemma answer_has_body_status {B} (answer : Outcome (NextResponse B))
  (fallback : NextResponse B) :
  (forall r, answer = Returned r -> body_status (status r)) ->
  body_status (status fallback) ->
  body_status
    (status match answer with Returned r => r | Thrown _ => fallback end).
Proof. intros H F. destruct answer; auto. Qed.

End Responses.

(** ** The methods of the client and its configuration *)

Section Client_state.

Import Client.

Variable network : Network.
Variable URL_resolve : jsstring -> jsstring -> Outcome jsstring.
Variables Payload Data : Type.
Variable JSON_stringify : Payload -> jsstring.
Variable JSON_stringify_source : jsstring -> jsstring.
Variable JSON_parse : jsstring -> Outcome Data.

Lemma fetchWithAuthFallback_state (c : TandoorClient) (log : list Request)
  (url : jsstring) (options : RequestInit) :
  let run := fetchWithAuthFallback network url options (c, log) in
  baseUrl (fst (snd run)) = baseUrl c
  /\ token (fst (snd run)) = token c
  /\ exists sent,
       snd (snd run) = log ++ attempt Token c url options :: sent
       /\ (List.length sent <= 1)%nat.
Proof.
  cbv zeta. rewrite fetchWithAuthFallback_runs.
  destruct (network log _) as [r1|e].
  - destruct (unauthorized r1); cbn [fst snd with_scheme baseUrl token].
    + repeat split. exists [attempt Bearer c url options].
      split; [reflexivity | simpl; lia].
    + repeat split. exists []. split; [reflexivity | simpl; lia].
  - cbn [fst snd]. repeat split. exists []. split; [reflexivity | simpl; lia].
Qed.

Lemma createRecipe_keeps (recipe : Payload) :
  keeps_configuration
    (createRecipe network URL_resolve JSON_stringify JSON_parse recipe).
Proof.
  intros c log. cbv zeta.
  destruct (createRecipe _ _ _ _ _ _) as [o [c' log']] eqn:E.
  cbn [fst snd]. revert E. unfold createRecipe, buildUrl.
  unfold bind at 1. unfold bind at 1. unfold this at 1. cbn [fst].
  unfold lift at 1.
  destruct (URL_resolve _ _) as [targetUrl|e].
  2:{ intros E. injection E as _ <- <-. repeat split.
      exists []. now rewrite app_nil_r. }
  unfold bind at 1.
  match goal with
  | |- context [fetchWithAuthFallback network targetUrl ?o (c, log)] =>
      destruct (fetchWithAuthFallback_state c log targetUrl o)
        as (Hb & Ht & sent & Hs & _);
      destruct (fetchWithAuthFallback network targetUrl o (c, log))
        as [[r|e'] [c1 log1]]
  end; cbn [fst snd] in *.
  - destruct (_ || _).
    + unfold bind, lift, ret. destruct (JSON_parse _);
        intros E; injection E as _ <- <-; repeat split; try assumption; eauto.
    + unfold ret. intros E. injection E as _ <- <-.
      repeat split; try assumption; eauto.
  - intros E. injection E as _ <- <-. repeat split; try assumption; eauto.
Qed.

Lemma parseRecipeFromUrl_keeps (url : jsstring) :
  keeps_configuration
    (parseRecipeFromUrl network URL_resolve JSON_stringify_source JSON_parse
       url).
Proof.
  intros c log. cbv zeta.
  destruct (parseRecipeFromUrl _ _ _ _ _ _) as [o [c' log']] eqn:E.
  cbn [fst snd]. revert E. unfold parseRecipeFromUrl, buildUrl.
  unfold bind at 1. unfold bind at 1. unfold this at 1. cbn [fst].
  unfold lift at 1.
  destruct (URL_resolve _ _) as [targetUrl|e].
  2:{ intros E. injection E as _ <- <-. repeat split.
      exists []. now rewrite app_nil_r. }
  unfold bind at 1. unfold this at 1. cbn [fst].
  unfold bind at 1. unfold bind at 1. unfold this at 1. cbn [fst].
  unfold lift at 1.
  destruct (URL_resolve _ _) as [referer|e].
  2:{ intros E. injection E as _ <- <-. repeat split.
      exists []. now rewrite app_nil_r. }
  unfold bind at 1.
  match goal with
  | |- context [fetchWithAuthFallback network targetUrl ?o (c, log)] =>
      destruct (fetchWithAuthFallback_state c log targetUrl o)
        as (Hb & Ht & sent & Hs & _);
      destruct (fetchWithAuthFallback network targetUrl o (c, log))
        as [[r|e'] [c1 log1]]
  end; cbn [fst snd] in *.
  - destruct (ok _).
    + unfold bind, lift, ret. destruct (JSON_parse _);
        intros E; injection E as _ <- <-; repeat split; try assumption; eauto.
    + unfold ret. intros E. injection E as _ <- <-.
      repeat split; try assumption; eauto.
  - intros E. injection E as _ <- <-. repeat split; try assumption; eauto.
Qed.

(** [uploadImageFromUrl] gives a result in every case. *)
Lemma uploadImageFromUrl_returns (recipeId : integer) (imageUrl : jsstring)
  (st : State) :
  exists result sent,
    uploadImageFromUrl network URL_resolve recipeId imageUrl st
    = (Returned result, (fst st, snd st ++ download_request imageUrl :: sent))
    /\ (List.length sent <= 1)%nat.
Proof.
  destruct st as [c log].
  unfold uploadImageFromUrl, buildUrl, download_request.
  cbv beta iota zeta delta [try_catch bind fetch this lift ret fst snd].
  destruct (network log _) as [image|e].
  2:{ eexists _, []. split; [reflexivity | simpl; lia]. }
  destruct (ok image); cbv beta iota delta [negb].
  2:{ eexists _, []. split; [reflexivity | simpl; lia]. }
  destruct (URL_resolve _ _) as [uploadUrl|e].
  2:{ eexists _, []. split; [reflexivity | simpl; lia]. }
  match goal with
  | |- context [network (log ++ ?l) ?u] =>
      destruct (network (log ++ l) u) as [answer|e]
  end; [destruct (ok answer)|];
    (eexists _, [_]; rewrite <- app_assoc; cbn [app];
     split; [reflexivity | simpl; lia]).
Qed.

Lemma uploadImageFromUrl_keeps (recipeId : integer) (imageUrl : jsstring) :
  keeps_configuration (uploadImageFromUrl network URL_resolve recipeId imageUrl).
Proof.
  intros c log. cbv zeta.
  destruct (uploadImageFromUrl_returns recipeId imageUrl (c, log))
    as (r & sent & E & _).
  rewrite E. cbn [fst snd]. repeat split. eauto.
Qed.


(** The same for the answer of the creation. *)
Lemma createRecipe_answer (recipe : Payload) (st st' : State)
  (result : Result Data) :
  createRecipe network URL_resolve JSON_stringify JSON_parse recipe st
  = (Returned result, st') ->
  match data result with
  | Some _ => error result = None /\ 200 <= result_status result <= 299
  | None => error result <> None /\ ~ 200 <= result_status result <= 299
  end.
Proof.
  unfold createRecipe, buildUrl.
  unfold bind at 1. unfold bind at 1. unfold this at 1.
  unfold lift at 1.
  destruct (URL_resolve _ _) as [targetUrl|e]; [|discriminate].
  unfold bind at 1.
  destruct (fetchWithAuthFallback _ _ _ _) as [[r|e'] st1]; [|discriminate].
  cbv zeta. unfold ok.
  destruct ((200 <=? status (fst r)) && (status (fst r) <=? 299)) eqn:E.
  - cbn [orb]. unfold bind, lift, ret. destruct (JSON_parse _); [|discriminate].
    intros H. injection H as <- _. cbn [data result_status error].
    apply andb_true_iff in E as [E1 E2]. split; [reflexivity | lia].
  - cbn [orb]. destruct (status (fst r) =? 201) eqn:E1.
    { apply Z.eqb_eq in E1. rewrite E1 in E. discriminate E. }
    unfold ret. intros H. injection H as <- _. cbn [data result_status error].
    apply andb_false_iff in E. split; [discriminate | lia].
Qed.

End Client_state.

(** The address and the token a client is made with stay for its
    whole life: no method changes them, and none takes a request back
    from the log. *)
Theorem client_keeps_address_and_token
  (network : Client.Network)
  (URL_resolve : jsstring -> jsstring -> Outcome jsstring)
  (Payload Source Data : Type)
  (JSON_stringify : Payload -> jsstring)
  (JSON_stringify_source : jsstring -> jsstring)
  (JSON_parse : jsstring -> Outcome Data)
  (JSON_parse_source : jsstring -> Outcome Source)
  (recipe : Payload) (url imageUrl : jsstring) (recipeId : integer) :
  keeps_configuration
    (Client.createRecipe network URL_resolve JSON_stringify JSON_parse recipe)
  /\ keeps_configuration
       (Client.parseRecipeFromUrl network URL_resolve JSON_stringify_source
          JSON_parse_source url)
  /\ keeps_configuration
       (Client.uploadImageFromUrl network URL_resolve recipeId imageUrl).
Proof.
  split; [|split].
  - apply createRecipe_keeps.
  - apply parseRecipeFromUrl_keeps.
  - apply uploadImageFromUrl_keeps.
Qed.

(** ** The handler of [/api/tandoor] *)

Section Tandoor_handler.

Import ApiHelpers TandoorPost.

Variables Quantity Amount Created : Type.
Variable world : World Quantity Amount Created.

Lemma tandoor_POST_unconfigured (req : Request Quantity)
  (log : list Client.Request) :
  truthy_header (x_tandoor_url req) && truthy_header (x_tandoor_token req)
  = false ->
  POST world req log
  = (Returned (error_response Error
                 (lit "Missing Tandoor configuration") 401 None), log).
Proof.
  intros H. unfold POST, try_catch, truthy_header in *.
  destruct (x_tandoor_url req) as [u|], (x_tandoor_token req) as [t|];
    try reflexivity.
  apply andb_false_iff in H. destruct H as [H|H]; rewrite H;
    [|rewrite orb_true_r]; reflexivity.
Qed.

Lemma configured_truthy (u t : option jsstring) (tandoorUrl token : jsstring) :
  configured u t tandoorUrl token ->
  truthy_header u && truthy_header t = true.
Proof. intros (-> & -> & Hu & Ht). cbn [truthy_header]. now rewrite Hu, Ht. Qed.

Lemma truthy_configured (u t : option jsstring) :
  truthy_header u && truthy_header t = true ->
  exists tandoorUrl token, configured u t tandoorUrl token.
Proof.
  intros H. apply andb_true_iff in H as [Hu Ht].
  destruct u as [tandoorUrl|], t as [token|]; try discriminate.
  exists tandoorUrl, token. repeat split; assumption.
Qed.

Lemma tandoor_POST_no_body (req : Request Quantity)
  (log : list Client.Request) (tandoorUrl token e : jsstring) :
  configured (x_tandoor_url req) (x_tandoor_token req) tandoorUrl token ->
  json req = Thrown e ->
  POST world req log
  = (Returned (error_response Error
                 (lit "Failed to send to Tandoor") 500 None), log).
Proof.
  intros (Hu & Ht & Hut & Htt) Hj. unfold POST.
  rewrite Hu, Ht, Hut, Htt. cbn [negb orb].
  unfold try_catch, with_client.
  unfold bind at 1. unfold lift at 1. rewrite Hj. reflexivity.
Qed.

(** The handler once the two headers are there and the body is read. *)
Lemma tandoor_POST_configured (req : Request Quantity)
  (log : list Client.Request) (tandoorUrl token : jsstring)
  (payload : TandoorRoute.RecipePayload Quantity) :
  configured (x_tandoor_url req) (x_tandoor_token req) tandoorUrl token ->
  json req = Returned payload ->
  POST world req log
  = match create_adapted world payload (client_of tandoorUrl token, log) with
    | (Thrown _, (_, log')) =>
        (Returned (error_response Error
                     (lit "Failed to send to Tandoor") 500 None), log')
    | (Returned result, (c', log')) =>
        match Client.data result with
        | Some (Some createdRecipe) =>
            (Returned {| body := CreatedRecipe createdRecipe; status := 201 |},
             if truthy_header (TandoorRoute.image payload)
                && truthy_integer (id world createdRecipe)
             then
               snd (snd (Client.uploadImageFromUrl (network world)
                           (URL_resolve world) (id world createdRecipe)
                           (match TandoorRoute.image payload with
                            | Some image => image
                            | None => []
                            end) (c', log')))
             else log')
        | _ =>
            (Returned
               match createErrorResponse Error
                       (lit "Tandoor API Error")
                       (Client.result_status result) (Client.error result) with
               | Returned response => response
               | Thrown _ =>
                   error_response Error
                     (lit "Failed to send to Tandoor") 500 None
               end, log')
        end
    end.
Proof.
  intros (Hu & Ht & Hut & Htt) Hj. unfold POST.
  rewrite Hu, Ht, Hut, Htt. cbn [negb orb].
  fold (client_of tandoorUrl token).
  unfold try_catch, with_client.
  unfold bind at 1. unfold lift at 1. rewrite Hj.
  unfold bind at 1.
  fold (adapted world payload). fold (create_adapted world payload).
  destruct (create_adapted _ _ _) as [[result|e] [c' log']]; [|reflexivity].
  destruct (Client.data result) as [[createdRecipe|]|].
  - unfold bind at 1.
    destruct (truthy_header _ && truthy_integer _).
    + unfold bind at 1.
      destruct (uploadImageFromUrl_returns (network world) (URL_resolve world)
                  (id world createdRecipe)
                  (match TandoorRoute.image payload with
                   | Some image => image
                   | None => []
                   end) (c', log')) as (r & sent & E & _).
      rewrite E. reflexivity.
    + reflexivity.
  - unfold lift.
    destruct (createErrorResponse _ _ _ _); reflexivity.
  - unfold lift.
    destruct (createErrorResponse _ _ _ _); reflexivity.
Qed.

(** Every request is answered: the handler never rejects, and the
    status of its answer is one a response can be made with.  Without
    the address or the token of Tandoor the answer is 401 and nothing
    is sent; a body that cannot be read gives 500, again with nothing
    sent. *)
Theorem tandoor_POST_always_answers
  (req : Request Quantity) (log : list Client.Request) :
  (exists response,
      fst (POST world req log) = Returned response
      /\ body_status (status response))
  /\ (truthy_header (x_tandoor_url req) && truthy_header (x_tandoor_token req)
      = false ->
      POST world req log
      = (Returned (error_response Error
                     (lit "Missing Tandoor configuration") 401 None), log))
  /\ (forall e,
        truthy_header (x_tandoor_url req) && truthy_header (x_tandoor_token req)
        = true ->
        json req = Thrown e ->
        POST world req log
        = (Returned (error_response Error
                       (lit "Failed to send to Tandoor") 500 None), log)).
Proof.
  split; [|split].
  - destruct (truthy_header (x_tandoor_url req)
              && truthy_header (x_tandoor_token req)) eqn:H.
    2:{ rewrite tandoor_POST_unconfigured by exact H.
        eexists. split; [reflexivity | apply body_status_401]. }
    apply truthy_configured in H as (tandoorUrl & token & H).
    destruct (json req) as [payload|e] eqn:Hj.
    2:{ rewrite (tandoor_POST_no_body req log H Hj).
        eexists. split; [reflexivity | apply body_status_500]. }
    rewrite (tandoor_POST_configured req log H Hj).
    destruct (create_adapted _ _ _) as [[result|e] [c' log']].
    2:{ eexists. split; [reflexivity | apply body_status_500]. }
    destruct (Client.data result) as [[createdRecipe|]|].
    + eexists. split; [reflexivity | apply body_status_201].
    + eexists. split; [reflexivity|].
      apply answer_has_body_status; [|apply body_status_500].
      intros r Hr. now apply NextResponse_json_status in Hr.
    + eexists. split; [reflexivity|].
      apply answer_has_body_status; [|apply body_status_500].
      intros r Hr. now apply NextResponse_json_status in Hr.
  - apply tandoor_POST_unconfigured.
  - intros e H Hj. apply truthy_configured in H as (tandoorUrl & token & H).
    exact (tandoor_POST_no_body req log H Hj).
Qed.

(** What reaches Tandoor is the adapted recipe: the first request of
    the handler is a POST of its JSON text to [/api/recipe/] on the
    configured server, with the cleaned token under the scheme
    [Token]. *)
Theorem tandoor_POST_sends_adapted_recipe
  (req : Request Quantity) (log : list Client.Request)
  (tandoorUrl token target : jsstring)
  (payload : TandoorRoute.RecipePayload Quantity) :
  configured (x_tandoor_url req) (x_tandoor_token req) tandoorUrl token ->
  json req = Returned payload ->
  URL_resolve world (lit "/api/recipe/")
    (Client.baseUrl (client_of tandoorUrl token))
  = Returned target ->
  exists first rest,
    snd (POST world req log) = log ++ first :: rest
    /\ Client.url first = target
    /\ Client.method (Client.init first) = lit "POST"
    /\ Client.body (Client.init first)
       = Client.TextBody (JSON_stringify world (adapted world payload))
    /\ Client.authorization first
       = Some (lit "Token " ++ cleanAuthToken token).
Proof.
  intros H Hj Hr.
  exists (attempt Client.Token (client_of tandoorUrl token) target
            (createRecipe_options (JSON_stringify world)
               (adapted world payload))).
  assert (Hlog : exists rest,
            snd (snd (create_adapted world payload
                        (client_of tandoorUrl token, log)))
            = log ++ attempt Client.Token (client_of tandoorUrl token) target
                       (createRecipe_options (JSON_stringify world)
                          (adapted world payload))
                     :: rest).
  { unfold create_adapted.
    rewrite createRecipe_runs with (targetUrl := target) by exact Hr.
    unfold bind. rewrite fetchWithAuthFallback_runs.
    destruct (network world log _) as [r1|e]; [|cbn [snd]; eauto].
    destruct (Client.unauthorized r1).
    - destruct (network world _ _) as [r2|e]; [|cbn [snd]; eauto].
      rewrite createRecipe_result_state. cbn [snd].
      exists [attempt Client.Bearer (client_of tandoorUrl token) target
                (createRecipe_options (JSON_stringify world)
                   (adapted world payload))].
      reflexivity.
    - rewrite createRecipe_result_state. cbn [snd]. eauto. }
  destruct Hlog as [rest Hlog].
  assert (Hsent : exists rest',
            snd (POST world req log)
            = log ++ attempt Client.Token (client_of tandoorUrl token) target
                       (createRecipe_options (JSON_stringify world)
                          (adapted world payload))
                     :: rest').
  { rewrite (tandoor_POST_configured req log H Hj).
    destruct (create_adapted _ _ _) as [[result|e] [c' log']];
      cbn [snd] in *; subst log'; [|eauto].
    destruct (Client.data result) as [[createdRecipe|]|];
      [|cbn [snd]; eauto..].
    destruct (truthy_header _ && truthy_integer _); [|cbn [snd]; eauto].
    match goal with
    | |- context [Client.uploadImageFromUrl ?n ?u ?i ?m ?st] =>
        destruct (uploadImageFromUrl_returns n u i m st) as (r & sent & E' & _)
    end.
    rewrite E'. cbn [fst snd]. rewrite <- app_assoc. cbn [app]. eauto. }
  destruct Hsent as [rest' Hsent]. exists rest'.
  split; [exact Hsent|]. repeat split.
Qed.

(** Once Tandoor has answered the creation with a recipe, the answer
    is 201 with that recipe, whatever becomes of the image: the upload
    is tried when the recipe has an image and the new recipe an
    identifier other than 0, and its failure changes nothing.  An
    answer of success whose body spells [null] or another falsy value
    is no recipe: the handler then answers "Tandoor API Error" with
    the status of Tandoor and without details, and no image is
    fetched or sent. *)
Theorem tandoor_POST_created_whatever_the_image
  (req : Request Quantity) (log log' : list Client.Request)
  (tandoorUrl token : jsstring) (payload : TandoorRoute.RecipePayload Quantity)
  (result : Client.Result (option Created)) (c' : Client.TandoorClient) :
  configured (x_tandoor_url req) (x_tandoor_token req) tandoorUrl token ->
  json req = Returned payload ->
  create_adapted world payload (client_of tandoorUrl token, log)
  = (Returned result, (c', log')) ->
  match Client.data result with
  | Some (Some created) =>
      fst (POST world req log)
      = Returned {| body := CreatedRecipe created; status := 201 |}
      /\ image_requests (TandoorRoute.image payload) (id world created) log'
           (snd (POST world req log))
  | Some None =>
      snd (POST world req log) = log'
      /\ 200 <= Client.result_status result <= 299
      /\ (body_status (Client.result_status result) ->
          fst (POST world req log)
          = Returned (error_response Error (lit "Tandoor API Error")
                        (Client.result_status result) None))
  | None => snd (POST world req log) = log'
  end.
Proof.
  intros H Hj Hc.
  pose proof (createRecipe_answer _ _ _ _ _ _ Hc) as Hs.
  rewrite (tandoor_POST_configured req log H Hj), Hc.
  destruct (Client.data result) as [[created|]|].
  - split; [reflexivity|]. cbn [snd]. unfold truthy_header, image_requests.
    destruct (TandoorRoute.image payload) as [image|]; [|reflexivity].
    destruct (truthy_string image && truthy_integer (id world created));
      [|reflexivity].
    destruct (uploadImageFromUrl_returns (network world) (URL_resolve world)
                (id world created) image (c', log')) as (r & sent & E & Hl).
    rewrite E. cbn [fst snd]. eauto.
  - destruct Hs as [He Hs]. split; [reflexivity|]. split; [exact Hs|].
    intros Hb. cbn [fst]. rewrite He. now rewrite createErrorResponse_ok.
  - reflexivity.
Qed.

(** When Tandoor does not accept the recipe, the answer passes its
    status and its text on, and no image is fetched or sent.  A status
    no response can be made with, such as 304 or one below 200, ends
    in the answer 500 of the [catch] block. *)
Theorem tandoor_POST_passes_failure_on
  (req : Request Quantity) (log log' : list Client.Request)
  (tandoorUrl token : jsstring) (payload : TandoorRoute.RecipePayload Quantity)
  (result : Client.Result (option Created)) (c' : Client.TandoorClient) :
  configured (x_tandoor_url req) (x_tandoor_token req) tandoorUrl token ->
  json req = Returned payload ->
  create_adapted world payload (client_of tandoorUrl token, log)
  = (Returned result, (c', log')) ->
  Client.data result = None ->
  snd (POST world req log) = log'
  /\ (body_status (Client.result_status result) ->
      fst (POST world req log)
      = Returned (error_response Error (lit "Tandoor API Error")
                    (Client.result_status result) (Client.error result)))
  /\ (0 <= Client.result_status result < 200
      \/ Client.result_status result = 304 ->
      fst (POST world req log)
      = Returned (error_response Error
                    (lit "Failed to send to Tandoor") 500 None)).
Proof.
  intros H Hj Hc Hd.
  rewrite (tandoor_POST_configured req log H Hj), Hc, Hd.
  split; [reflexivity|]. cbn [fst]. split.
  - intros Hs. now rewrite createErrorResponse_ok.
  - intros Hs. unfold createErrorResponse.
    destruct (NextResponse_json_out_of_range
                (Error (Created := Created)
                   {| error := lit "Tandoor API Error";
                      details := Client.error result |}) Hs)
      as [e E].
    now rewrite E.
Qed.

End Tandoor_handler.

(** ** The handler of [/api/tandoor/import] *)

Section Import_handler.

Import ApiHelpers ImportRoute.

Variables I R O P Created : Type.
Variable world : World I R O P Created.

Lemma import_POST_unconfigured (req : Request) (log : list Client.Request) :
  TandoorPost.truthy_header (x_tandoor_url req)
  && TandoorPost.truthy_header (x_tandoor_token req) = false ->
  POST world req log
  = (Returned (error_response Error
                 (lit "Missing Tandoor configuration") 401 None), log).
Proof.
  intros H. unfold POST, try_catch, TandoorPost.truthy_header in *.
  destruct (x_tandoor_url req) as [u|], (x_tandoor_token req) as [t|];
    try reflexivity.
  apply andb_false_iff in H. destruct H as [H|H]; rewrite H;
    [|rewrite orb_true_r]; reflexivity.
Qed.

Lemma import_POST_no_body (req : Request) (log : list Client.Request)
  (tandoorUrl token e : jsstring) :
  configured (x_tandoor_url req) (x_tandoor_token req) tandoorUrl token ->
  json req = Thrown e ->
  POST world req log
  = (Returned (error_response Error
                 (lit "Failed to connect to Tandoor") 500 None), log).
Proof.
  intros (Hu & Ht & Hut & Htt) Hj. unfold POST.
  rewrite Hu, Ht, Hut, Htt. cbn [negb orb].
  unfold try_catch. unfold bind at 1. unfold lift at 1. rewrite Hj.
  reflexivity.
Qed.

Lemma import_POST_no_url (req : Request) (log : list Client.Request)
  (tandoorUrl token : jsstring) (body : ImportRequestBody) :
  configured (x_tandoor_url req) (x_tandoor_token req) tandoorUrl token ->
  json req = Returned body ->
  TandoorPost.truthy_header (url body) = false ->
  POST world req log
  = (Returned (error_response Error
                 (lit "Missing URL to import") 400 None), log).
Proof.
  intros (Hu & Ht & Hut & Htt) Hj Hb. unfold POST.
  rewrite Hu, Ht, Hut, Htt. cbn [negb orb].
  unfold try_catch. unfold bind at 1. unfold lift at 1. rewrite Hj, Hb.
  reflexivity.
Qed.

(** What the handler answers when the parser gave no recipe. *)
Lemma no_recipe_data_runs
  (parseResult : Client.Result (option (ParseResponse I R O P)))
  (st : Client.State) :
  no_recipe_data Created parseResult st
  = (if Client.result_status parseResult =? 500 then
       Returned (error_response Error
                   (lit "Tandoor failed to import this URL directly.") 502
                   (Some scraper_hint))
     else
       match Client.data parseResult with
       | Some (Some _) =>
           Returned (error_response Error
                       (lit "No recipe data found in Tandoor response") 422
                       None)
       | _ =>
           createErrorResponse Error
             (lit "Tandoor Import Failed")
             (Client.result_status parseResult) (Client.error parseResult)
       end, st).
Proof.
  unfold no_recipe_data.
  destruct (_ =? 500); [reflexivity|].
  destruct (Client.data parseResult) as [[data|]|]; reflexivity.
Qed.

(** The handler once the headers and the URL are there. *)
Lemma import_POST_configured (req : Request) (log : list Client.Request)
  (tandoorUrl token url : jsstring) :
  import_of req tandoorUrl token url ->
  POST world req log
  = match parse_source world url (client_of tandoorUrl token, log) with
    | (Thrown _, (_, log')) =>
        (Returned (error_response Error
                     (lit "Failed to connect to Tandoor") 500 None), log')
    | (Returned parseResult, (c', log')) =>
        match Client.data parseResult with
        | Some (Some data) =>
            match recipe_json data with
            | Some recipeJson =>
                match save_recipe world data recipeJson (c', log') with
                | (Returned response, (_, log'')) => (Returned response, log'')
                | (Thrown _, (_, log'')) =>
                    (Returned (error_response Error
                                 (lit "Failed to connect to Tandoor") 500 None),
                     log'')
                end
            | None =>
                (Returned
                   match fst (no_recipe_data Created parseResult
                                (c', log')) with
                   | Returned response => response
                   | Thrown _ =>
                       error_response Error
                         (lit "Failed to connect to Tandoor") 500 None
                   end, log')
            end
        | _ =>
            (Returned
               match fst (no_recipe_data Created parseResult
                            (c', log')) with
               | Returned response => response
               | Thrown _ =>
                   error_response Error
                     (lit "Failed to connect to Tandoor") 500 None
               end, log')
        end
    end.
Proof.
  intros ((Hu & Ht & Hut & Htt) & Hj & Hurl). unfold POST.
  rewrite Hu, Ht, Hut, Htt. cbn [negb orb].
  fold (client_of tandoorUrl token).
  unfold try_catch. unfold bind at 1. unfold lift at 1. rewrite Hj.
  cbn [ImportRoute.url TandoorPost.truthy_header]. rewrite Hurl.
  cbn [negb]. unfold TandoorPost.with_client.
  unfold bind at 1. fold (parse_source world url).
  destruct (parse_source _ _ _) as [[parseResult|e] [c' log']];
    [|reflexivity].
  assert (Hno : forall st,
            (let (outcome, state) := no_recipe_data Created parseResult st in
             (outcome, snd state))
            = (fst (no_recipe_data Created parseResult st), snd st)).
  { intros st. rewrite no_recipe_data_runs. reflexivity. }
  destruct (Client.data parseResult) as [[data|]|].
  - destruct (recipe_json data) as [recipeJson|].
    + destruct (save_recipe _ _ _ _) as [[response|e] [c'' log'']];
        reflexivity.
    + rewrite Hno. cbn [fst snd].
      destruct (fst (no_recipe_data _ _ _)); reflexivity.
  - rewrite Hno. cbn [fst snd].
    destruct (fst (no_recipe_data _ _ _)); reflexivity.
  - rewrite Hno. cbn [fst snd].
    destruct (fst (no_recipe_data _ _ _)); reflexivity.
Qed.

(** Saving a parsed recipe. *)
Lemma save_recipe_runs (data : ParseResponse I R O P)
  (recipeJson : ParsedRecipe I R O) (st : Client.State) :
  recipe_json data = Some recipeJson ->
  save_recipe world data recipeJson st
  = match create_parsed world (with_refined_steps recipeJson) st with
    | (Thrown e, st') => (Thrown e, st')
    | (Returned createResult, st') =>
        match Client.data createResult with
        | Some (Some created) =>
            (Returned {| body := Imported created; status := 201 |},
             (fst st',
              if TandoorPost.truthy_header (image recipeJson)
                 && truthy_integer (id world created)
              then
                snd (snd (Client.uploadImageFromUrl (network world)
                            (URL_resolve world) (id world created)
                            (match image recipeJson with
                             | Some image => image
                             | None => []
                             end) st'))
              else snd st'))
        | _ =>
            (NextResponse_json
               (SaveFailed (Client.error createResult)
                  (with_refined_recipe data))
               (Client.result_status createResult), st')
        end
    end.
Proof.
  intros Hd. unfold save_recipe. cbv zeta.
  assert (Hi : image (with_refined_steps recipeJson) = image recipeJson).
  { unfold with_refined_steps. now destruct (steps recipeJson). }
  rewrite Hi.
  unfold bind at 1. fold (create_parsed world (with_refined_steps recipeJson)).
  destruct (create_parsed _ _ _) as [[createResult|e] st']; [|reflexivity].
  destruct (Client.data createResult) as [[created|]|].
  - unfold bind at 1.
    destruct (TandoorPost.truthy_header _ && truthy_integer _).
    + unfold bind at 1.
      destruct (uploadImageFromUrl_returns (network world) (URL_resolve world)
                  (id world created)
                  (match image recipeJson with
                   | Some image => image
                   | None => []
                   end) st') as (r & sent & E & _).
      rewrite E. reflexivity.
    + now destruct st'.
  - unfold lift, with_refined_recipe. rewrite Hd. reflexivity.
  - unfold lift, with_refined_recipe. rewrite Hd. reflexivity.
Qed.

Lemma save_recipe_status (data : ParseResponse I R O P)
  (recipeJson : ParsedRecipe I R O) (st st' : Client.State)
  (response : NextResponse (ResponseBody I R O P Created)) :
  recipe_json data = Some recipeJson ->
  save_recipe world data recipeJson st = (Returned response, st') ->
  body_status (status response).
Proof.
  intros Hd. rewrite save_recipe_runs by exact Hd.
  destruct (create_parsed _ _ _) as [[createResult|e] st1]; [|discriminate].
  destruct (Client.data createResult) as [[created|]|].
  - intros H. injection H as <- _. apply body_status_201.
  - intros H. injection H as H _.
    now apply NextResponse_json_status in H.
  - intros H. injection H as H _.
    now apply NextResponse_json_status in H.
Qed.

(** Every request is answered: the handler never rejects, and the
    status of its answer is one a response can be made with.  Without
    the address or the token of Tandoor the answer is 401, without a
    URL to import it is 400, and in both cases nothing is sent. *)
Theorem import_POST_always_answers
  (req : Request) (log : list Client.Request) :
  (exists response,
      fst (POST world req log) = Returned response
      /\ body_status (status response))
  /\ (TandoorPost.truthy_header (x_tandoor_url req)
      && TandoorPost.truthy_header (x_tandoor_token req) = false ->
      POST world req log
      = (Returned (error_response Error (lit "Missing Tandoor configuration")
                     401 None), log))
  /\ (forall body,
        TandoorPost.truthy_header (x_tandoor_url req)
        && TandoorPost.truthy_header (x_tandoor_token req) = true ->
        json req = Returned body ->
        TandoorPost.truthy_header (url body) = false ->
        POST world req log
        = (Returned (error_response Error (lit "Missing URL to import") 400
                       None), log)).
Proof.
  split; [|split].
  - destruct (TandoorPost.truthy_header (x_tandoor_url req)
              && TandoorPost.truthy_header (x_tandoor_token req)) eqn:H.
    2:{ rewrite import_POST_unconfigured by exact H.
        eexists. split; [reflexivity | apply body_status_401]. }
    apply truthy_configured in H as (tandoorUrl & token & H).
    destruct (json req) as [body|e] eqn:Hj.
    2:{ rewrite (import_POST_no_body req log H Hj).
        eexists. split; [reflexivity | apply body_status_500]. }
    destruct (TandoorPost.truthy_header (url body)) eqn:Hb.
    2:{ rewrite (import_POST_no_url req log H Hj Hb).
        eexists. split; [reflexivity | apply body_status_400]. }
    destruct body as [[source|]]; [|discriminate]. cbn in Hb.
    rewrite (@import_POST_configured req log tandoorUrl token source)
      by (repeat split; solve [apply H | assumption]).
    destruct (parse_source _ _ _) as [[parseResult|e] [c' log']].
    2:{ eexists. split; [reflexivity | apply body_status_500]. }
    assert (Hno : body_status
                    (status
                       match fst (no_recipe_data Created parseResult (c', log'))
                       with
                       | Returned response => response
                       | Thrown _ =>
                           error_response Error
                             (lit "Failed to connect to Tandoor") 500 None
                       end)).
    { rewrite no_recipe_data_runs. cbn [fst].
      destruct (_ =? 500); [apply body_status_502|].
      destruct (Client.data parseResult) as [[data|]|];
        [apply body_status_422| |];
        (apply answer_has_body_status; [|apply body_status_500];
         intros r Hr; now apply NextResponse_json_status in Hr). }
    destruct (Client.data parseResult) as [[data|]|].
    + destruct (recipe_json data) as [recipeJson|] eqn:Hd.
      * destruct (save_recipe _ _ _ _) as [[response|e] [c'' log'']] eqn:Hs.
        -- exists response. split; [reflexivity|].
           exact (save_recipe_status _ _ Hd Hs).
        -- eexists. split; [reflexivity | exact body_status_500].
      * eexists. split; [reflexivity | exact Hno].
    + eexists. split; [reflexivity | exact Hno].
    + eexists. split; [reflexivity | exact Hno].
  - apply import_POST_unconfigured.
  - intros body H Hj Hb.
    apply truthy_configured in H as (tandoorUrl & token & H).
    exact (import_POST_no_url req log H Hj Hb).
Qed.


(** What Tandoor is asked to create is the parsed recipe with its
    steps refined: after the parser's answer the handler posts the
    JSON text of that recipe to [/api/recipe/], with the cleaned token
    under the scheme [Token]. *)
Theorem import_POST_creates_refined_recipe
  (req : Request) (log log' : list Client.Request)
  (tandoorUrl token source target : jsstring)
  (parseResult : Client.Result (option (ParseResponse I R O P)))
  (recipeJson : ParsedRecipe I R O) (c' : Client.TandoorClient) :
  import_of req tandoorUrl token source ->
  parse_source world source (client_of tandoorUrl token, log)
  = (Returned parseResult, (c', log')) ->
  parsed_recipe parseResult = Some recipeJson ->
  URL_resolve world (lit "/api/recipe/")
    (Client.baseUrl (client_of tandoorUrl token))
  = Returned target ->
  exists first rest,
    snd (POST world req log) = log' ++ first :: rest
    /\ Client.url first = target
    /\ Client.method (Client.init first) = lit "POST"
    /\ Client.body (Client.init first)
       = Client.TextBody
           (JSON_stringify world (with_refined_steps recipeJson))
    /\ Client.authorization first
       = Some (lit "Token " ++ cleanAuthToken token).
Proof.
  intros H Hp Hn Hr.
  destruct (parseRecipeFromUrl_keeps (network world) (URL_resolve world)
              (JSON_stringify_source world) (JSON_parse_source world) source
              (client_of tandoorUrl token) log) as (Hb & Ht & _).
  fold (parse_source world source) in Hb, Ht. rewrite Hp in Hb, Ht.
  cbn [fst snd] in Hb, Ht.
  exists (attempt Client.Token c' target
            (createRecipe_options (JSON_stringify world)
               (with_refined_steps recipeJson))).
  assert (Hsent : exists rest,
            snd (POST world req log)
            = log' ++ attempt Client.Token c' target
                        (createRecipe_options (JSON_stringify world)
                           (with_refined_steps recipeJson))
                      :: rest).
  { rewrite (import_POST_configured log H), Hp.
    unfold parsed_recipe in Hn.
    destruct (Client.data parseResult) as [[data|]|]; [|discriminate..].
    rewrite Hn. rewrite save_recipe_runs by exact Hn.
    unfold create_parsed.
    rewrite createRecipe_runs with (targetUrl := target)
      by (rewrite Hb; exact Hr).
    unfold bind at 1. rewrite fetchWithAuthFallback_runs.
    set (first := attempt Client.Token c' target _).
    destruct (network world log' first) as [r1|e]; [|cbn [snd]; eauto].
    assert (Hstate : forall r st,
               snd (createRecipe_result (JSON_parse world) r st) = st)
      by (intros; apply createRecipe_result_state).
    destruct (Client.unauthorized r1).
    - destruct (network world _ _) as [r2|e]; [|cbn [snd]; eauto].
      specialize (Hstate (r2, Client.Bearer)
                    (with_scheme c' Client.Bearer,
                     log' ++ [first; attempt Client.Bearer c' target
                                       (createRecipe_options
                                          (JSON_stringify world)
                                          (with_refined_steps recipeJson))])).
      destruct (createRecipe_result _ _ _) as [[createResult|e] st'];
        cbn [snd] in Hstate; subst st'; [|cbn [snd]; eauto].
      destruct (Client.data createResult) as [[created|]|].
      + destruct (_ && _); [|cbn [snd]; eauto].
        match goal with
        | |- context [Client.uploadImageFromUrl ?n ?u ?i ?m ?st] =>
            destruct (uploadImageFromUrl_returns n u i m st)
              as (r & sent & E' & _)
        end.
        rewrite E'. cbn [fst snd]. rewrite <- app_assoc. cbn [app]. eauto.
      + destruct (NextResponse_json _ _); cbn [snd]; eauto.
      + destruct (NextResponse_json _ _); cbn [snd]; eauto.
    - specialize (Hstate (r1, Client.Token)
                    (with_scheme c' Client.Token, log' ++ [first])).
      destruct (createRecipe_result _ _ _) as [[createResult|e] st'];
        cbn [snd] in Hstate; subst st'; [|cbn [snd]; eauto].
      destruct (Client.data createResult) as [[created|]|].
      + destruct (_ && _); [|cbn [snd]; eauto].
        match goal with
        | |- context [Client.uploadImageFromUrl ?n ?u ?i ?m ?st] =>
            destruct (uploadImageFromUrl_returns n u i m st)
              as (r & sent & E' & _)
        end.
        rewrite E'. cbn [fst snd]. rewrite <- app_assoc. cbn [app]. eauto.
      + destruct (NextResponse_json _ _); cbn [snd]; eauto.
      + destruct (NextResponse_json _ _); cbn [snd]; eauto. }
  destruct Hsent as [rest Hsent]. exists rest.
  split; [exact Hsent|]. split; [reflexivity|]. split; [reflexivity|].
  split; [reflexivity|].
  unfold Client.authorization, attempt. cbn [Client.init Client.headers].
  rewrite get_set_header, Ht. reflexivity.
Qed.

(** How the import ends once Tandoor has answered the creation.  On
    an answer of success with a recipe the handler answers 201 with
    the created recipe, whatever becomes of the image.  Otherwise it
    answers "Import parsed but failed to save." with the status of
    Tandoor and the parsed recipe as the handler has refined it, and
    no image is fetched: with the text of Tandoor after a failure
    status, and without details after an answer of success whose body
    spells [null] or another falsy value. *)
Theorem import_POST_after_creation
  (req : Request) (log log' log'' : list Client.Request)
  (tandoorUrl token source : jsstring)
  (parseResult : Client.Result (option (ParseResponse I R O P)))
  (data : ParseResponse I R O P) (recipeJson : ParsedRecipe I R O)
  (createResult : Client.Result (option Created))
  (c' c'' : Client.TandoorClient) :
  import_of req tandoorUrl token source ->
  parse_source world source (client_of tandoorUrl token, log)
  = (Returned parseResult, (c', log')) ->
  Client.data parseResult = Some (Some data) ->
  recipe_json data = Some recipeJson ->
  create_parsed world (with_refined_steps recipeJson) (c', log')
  = (Returned createResult, (c'', log'')) ->
  match Client.data createResult with
  | Some (Some created) =>
      fst (POST world req log)
      = Returned {| body := Imported created; status := 201 |}
      /\ image_requests (image recipeJson) (id world created) log''
           (snd (POST world req log))
  | Some None =>
      snd (POST world req log) = log''
      /\ 200 <= Client.result_status createResult <= 299
      /\ (body_status (Client.result_status createResult) ->
          fst (POST world req log)
          = Returned {| body := SaveFailed None (with_refined_recipe data);
                        status := Client.result_status createResult |})
  | None =>
      snd (POST world req log) = log''
      /\ (body_status (Client.result_status createResult) ->
          fst (POST world req log)
          = Returned {| body := SaveFailed (Client.error createResult)
                                  (with_refined_recipe data);
                        status := Client.result_status createResult |})
  end.
Proof.
  intros H Hp Hd Hr Hc.
  pose proof (createRecipe_answer _ _ _ _ _ _ Hc) as Hs.
  rewrite (import_POST_configured log H), Hp, Hd, Hr.
  rewrite save_recipe_runs by exact Hr. rewrite Hc.
  destruct (Client.data createResult) as [[created|]|].
  - split; [reflexivity|]. cbn [snd].
    unfold TandoorPost.truthy_header, image_requests.
    destruct (image recipeJson) as [image|]; [|reflexivity].
    destruct (truthy_string image && truthy_integer (id world created));
      [|reflexivity].
    destruct (uploadImageFromUrl_returns (network world) (URL_resolve world)
                (id world created) image (c'', log''))
      as (r & sent & E & Hl).
    rewrite E. cbn [fst snd]. eauto.
  - destruct Hs as [He Hs]. rewrite He. split; [|split; [exact Hs|]].
    + now destruct (NextResponse_json _ _).
    + intros Hb. now rewrite NextResponse_json_ok.
  - split.
    + now destruct (NextResponse_json _ _).
    + intros Hb. now rewrite NextResponse_json_ok.
Qed.

End Import_handler.

Lemma tandoor_POST_sends_adapted_recipe_witness :
  exists first rest,
    snd (TandoorPost.POST (tandoor_world accepts_all) soup_request [])
    = [] ++ first :: rest
    /\ Client.url first = lit "http://tandoor.test/api/recipe/"
    /\ Client.method (Client.init first) = lit "POST"
    /\ Client.body (Client.init first) = Client.TextBody (lit "Soup")
    /\ Client.authorization first = Some (lit "Token abc123").
Proof.
  exact (@tandoor_POST_sends_adapted_recipe Z Z jsstring
           (tandoor_world accepts_all) soup_request []
           (lit "http://tandoor.test/") (lit "abc123")
           (lit "http://tandoor.test/api/recipe/") soup_payload
           (conj eq_refl (conj eq_refl (conj eq_refl eq_refl))) eq_refl eq_refl).
Defined.

Lemma tandoor_POST_created_whatever_the_image_witness :
  fst (TandoorPost.POST (tandoor_world accepts_all) soup_request [])
  = Returned {| ApiHelpers.body := TandoorPost.CreatedRecipe (lit "created");
                ApiHelpers.status := 201 |}
  /\ fst (TandoorPost.POST (tandoor_world answers_null) soup_request [])
     = Returned (error_response TandoorPost.Error (lit "Tandoor API Error")
                   200 None).
Proof.
  split.
  - refine (proj1 (@tandoor_POST_created_whatever_the_image Z Z jsstring
                     (tandoor_world accepts_all) soup_request [] _
                     (lit "http://tandoor.test/") (lit "abc123") soup_payload
                     {| Client.data := Some (Some (lit "created"));
                        Client.error := None;
                        Client.result_status := 201 |}
                     _ (conj eq_refl (conj eq_refl (conj eq_refl eq_refl))) eq_refl _)).
    vm_compute. reflexivity.
  - refine (proj2 (proj2 (@tandoor_POST_created_whatever_the_image Z Z jsstring
                            (tandoor_world answers_null) soup_request [] _
                            (lit "http://tandoor.test/") (lit "abc123")
                            soup_payload
                            {| Client.data := Some None;
                               Client.error := None;
                               Client.result_status := 200 |}
                            _ (conj eq_refl (conj eq_refl (conj eq_refl eq_refl))) eq_refl _))
              body_status_200).
    vm_compute. reflexivity.
Defined.

Lemma tandoor_POST_passes_failure_on_witness :
  fst (TandoorPost.POST (tandoor_world rejects_all) soup_request [])
  = Returned (error_response TandoorPost.Error (lit "Tandoor API Error") 400
                (Some (lit "bad request"))).
Proof.
  refine (proj1 (proj2 (@tandoor_POST_passes_failure_on Z Z jsstring
                          (tandoor_world rejects_all) soup_request [] _
                          (lit "http://tandoor.test/") (lit "abc123")
                          soup_payload
                          {| Client.data := None;
                             Client.error := Some (lit "bad request");
                             Client.result_status := 400 |}
                          _ (conj eq_refl (conj eq_refl (conj eq_refl eq_refl))) eq_refl _ eq_refl))
            body_status_400).
  vm_compute. reflexivity.
Defined.


Lemma import_POST_creates_refined_recipe_witness :
  exists first rest,
    snd (ImportRoute.POST (import_world accepts_all (Some stew))
           import_request [])
    = [ attempt Client.Token
          (client_of (lit "http://tandoor.test/") (lit "abc123"))
          (lit "http://tandoor.test/api/recipe-from-source/")
          {| Client.method := lit "POST";
             Client.headers :=
               [ (lit "Content-Type", lit "application/json");
                 (lit "Origin", lit "http://tandoor.test");
                 (lit "Referer", lit "http://tandoor.test/data/import/url");
                 (lit "Accept", lit "application/json, text/plain, */*") ];
             Client.body := Client.TextBody (lit "https://example.test/stew") |} ]
      ++ first :: rest
    /\ Client.url first = lit "http://tandoor.test/api/recipe/"
    /\ Client.method (Client.init first) = lit "POST"
    /\ Client.body (Client.init first)
       = Client.TextBody (lit "Stew:Chop.;Boil.;")
    /\ Client.authorization first = Some (lit "Token abc123").
Proof.
  refine (@import_POST_creates_refined_recipe unit unit unit unit jsstring
            (import_world accepts_all (Some stew)) import_request [] _
            (lit "http://tandoor.test/") (lit "abc123")
            (lit "https://example.test/stew")
            (lit "http://tandoor.test/api/recipe/")
            {| Client.data :=
                 Some (Some {| ImportRoute.recipe_json := Some stew;
                               ImportRoute.response_other := tt |});
               Client.error := None;
               Client.result_status := 201 |}
            stew _ (conj (conj eq_refl (conj eq_refl (conj eq_refl eq_refl))) (conj eq_refl eq_refl)) _ eq_refl eq_refl).
  vm_compute. reflexivity.
Defined.

Lemma import_POST_after_creation_witness :
  fst (ImportRoute.POST (import_world accepts_first (Some stew))
         import_request [])
  = Returned
      {| ApiHelpers.body :=
           ImportRoute.SaveFailed (Some (lit "bad request"))
             {| ImportRoute.recipe_json :=
                  Some {| ImportRoute.name := lit "Stew";
                          ImportRoute.image := None;
                          ImportRoute.steps :=
                            Some [ {| Client.instruction := Some (lit "Chop.");
                                      Client.ingredients := Some [tt];
                                      Client.show_ingredients_table := Some true;
                                      Client.other := tt |};
                                   {| Client.instruction := Some (lit "Boil.");
                                      Client.ingredients := Some [];
                                      Client.show_ingredients_table := Some false;
                                      Client.other := tt |} ];
                          ImportRoute.recipe_other := tt |};
                ImportRoute.response_other := tt |};
         ApiHelpers.status := 400 |}
  /\ fst (ImportRoute.POST (import_world null_after_first (Some stew))
            import_request [])
     = Returned
         {| ApiHelpers.body :=
              ImportRoute.SaveFailed None
                (with_refined_recipe
                   {| ImportRoute.recipe_json := Some stew;
                      ImportRoute.response_other := tt |});
            ApiHelpers.status := 200 |}.
Proof.
  split.
  - refine (proj2 (@import_POST_after_creation unit unit unit unit jsstring
                     (import_world accepts_first (Some stew)) import_request
                     [] _ _
                     (lit "http://tandoor.test/") (lit "abc123")
                     (lit "https://example.test/stew")
                     {| Client.data :=
                          Some (Some {| ImportRoute.recipe_json := Some stew;
                                        ImportRoute.response_other := tt |});
                        Client.error := None;
                        Client.result_status := 200 |}
                     {| ImportRoute.recipe_json := Some stew;
                        ImportRoute.response_other := tt |}
                     stew
                     {| Client.data := None;
                        Client.error := Some (lit "bad request");
                        Client.result_status := 400 |}
                     _ _ (conj (conj eq_refl (conj eq_refl (conj eq_refl eq_refl))) (conj eq_refl eq_refl)) _ eq_refl eq_refl _)
              body_status_400).
    + vm_compute. reflexivity.
    + vm_compute. reflexivity.
  - refine (proj2 (proj2 (@import_POST_after_creation unit unit unit unit
                            jsstring
                            (import_world null_after_first (Some stew))
                            import_request [] _ _
                            (lit "http://tandoor.test/") (lit "abc123")
                            (lit "https://example.test/stew")
                            {| Client.data :=
                                 Some (Some {| ImportRoute.recipe_json :=
                                                 Some stew;
                                               ImportRoute.response_other :=
                                                 tt |});
                               Client.error := None;
                               Client.result_status := 200 |}
                            {| ImportRoute.recipe_json := Some stew;
                               ImportRoute.response_other := tt |}
                            stew
                            {| Client.data := Some None;
                               Client.error := None;
                               Client.result_status := 200 |}
                            _ _ (conj (conj eq_refl (conj eq_refl (conj eq_refl eq_refl))) (conj eq_refl eq_refl)) _ eq_refl eq_refl _))
              body_status_200).
    + vm_compute. reflexivity.
    + vm_compute. reflexivity.
Defined.

(** ** validateRequiredHeaders *)

Section Required_headers.

Import ApiHelpers.

Variable get : Headers.

Lemma str_eqb_sym (s t : jsstring) : str_eqb s t = str_eqb t s.
Proof.
  destruct (str_eqb s t) eqn:E, (str_eqb t s) eqn:F; try reflexivity.
  - apply str_eqb_eq in E. subst. now rewrite str_eqb_refl in F.
  - apply str_eqb_eq in F. subst. now rewrite str_eqb_refl in E.
Qed.

Lemma own_set_property (name key value : jsstring) (headers : Record_) :
  own_property name (set_property key value headers)
  = if str_eqb key name && negb (str_eqb key (lit "__proto__"))
    then Some value
    else own_property name headers.
Proof.
  unfold own_property, set_property.
  destruct (str_eqb key (lit "__proto__")).
  - now rewrite andb_false_r.
  - rewrite andb_true_r. destruct (str_eqb key name) eqn:E.
    + apply str_eqb_eq in E. subst. apply get_set_header.
    + now apply get_set_header_other.
Qed.

Lemma validate_each_spec (headerNames : list jsstring) :
  forall headers : Record_,
    (forall name, In name headerNames -> exists value, get name = Returned value) ->
    match find (fun name => negb (present get name)) headerNames with
    | Some name =>
        validate_each get headerNames headers
        = Returned (inr (error_response (fun body => body)
                           (lit "Missing required header: " ++ name) 401 None))
    | None =>
        exists result,
          validate_each get headerNames headers = Returned (inl result)
          /\ forall name,
               own_property name result
               = if existsb (str_eqb name) headerNames
                    && negb (str_eqb name (lit "__proto__"))
                 then match get name with
                      | Returned value => value
                      | Thrown _ => None
                      end
                 else own_property name headers
    end.
Proof.
  induction headerNames as [|key names IH]; intros headers Hget.
  - cbn [find validate_each existsb andb]. eauto.
  - cbn [find validate_each]. unfold present at 1.
    destruct (Hget key (or_introl eq_refl)) as [value Hkey]. rewrite Hkey.
    destruct value as [value|]; [|reflexivity].
    destruct (truthy_string value) eqn:Hv; [|reflexivity]. cbn [negb].
    specialize (IH (set_property key value headers)
                  (fun name H => Hget name (or_intror H))).
    destruct (find _ names) as [missing|]; [exact IH|].
    destruct IH as (result & E & Hresult). exists result.
    split; [exact E|]. intros name. rewrite Hresult. cbn [existsb].
    rewrite own_set_property, (str_eqb_sym key name).
    destruct (str_eqb name key) eqn:Hk.
    + apply str_eqb_eq in Hk. subst name. cbn [orb andb].
      rewrite Hkey.
      destruct (existsb (str_eqb key) names), (negb (str_eqb key _));
        reflexivity.
    + reflexivity.
Qed.

End Required_headers.

(** [validateRequiredHeaders] either names the first required header
    that is missing or empty, with the status 401, or gives a record
    that holds the value of every required header under its name and
    nothing else.  The header name [__proto__] is the exception: it
    is checked but never stored. *)
Theorem validateRequiredHeaders_first_missing_or_all
  (get : ApiHelpers.Headers) (headerNames : list jsstring) :
  (forall name, In name headerNames -> exists value, get name = Returned value) ->
  match find (fun name => negb (present get name)) headerNames with
  | Some name =>
      ApiHelpers.validateRequiredHeaders get headerNames
      = Returned (inr (error_response (fun body => body)
                         (lit "Missing required header: " ++ name) 401 None))
  | None =>
      exists headers,
        ApiHelpers.validateRequiredHeaders get headerNames
        = Returned (inl headers)
        /\ forall name,
             own_property name headers
             = if existsb (str_eqb name) headerNames
                  && negb (str_eqb name (lit "__proto__"))
               then match get name with
                    | Returned value => value
                    | Thrown _ => None
                    end
               else None
  end.
Proof.
  intros H. exact (validate_each_spec get headerNames [] H).
Qed.

Lemma validateRequiredHeaders_first_missing_or_all_witness :
  ApiHelpers.validateRequiredHeaders only_url
    [lit "x-tandoor-url"; lit "x-tandoor-token"]
  = Returned (inr (error_response (fun body => body)
                     (lit "Missing required header: x-tandoor-token") 401
                     None)).
Proof.
  refine (@validateRequiredHeaders_first_missing_or_all only_url
            [lit "x-tandoor-url"; lit "x-tandoor-token"] _).
  intros name _. unfold only_url.
  destruct (str_eqb name (lit "x-tandoor-url")); eexists; reflexivity.
Defined.
